(** * Basana backtesting exchange: a shallow embedding of
      [basana/backtesting/exchange.py] and the properties of its
      matching loop, order index and order submission path.

    Conventions of the embedding.

    - A Python [Decimal] is a signed coefficient together with a power of
      ten.  Arithmetic is exact: the 28 digit context precision of the
      [decimal] module and its special values (NaN, infinities, the
      negative zero) are not modelled.
    - A Python [dict] keyed by symbols is a [gmap string _].  The loops over
      dictionaries in the exchange are pointwise updates and searches for
      an entry that fails a test; when several entries fail, the one that
      is reported depends on the iteration order, which the statements
      below do not rely on.
    - Orders are mutable objects shared between the [_orders] dictionary
      and the [_open_orders] list of the index.  The store maps order ids
      to the current value of each object and the list holds references
      (ids) into that store.
    - Methods that mutate the exchange are computations in a state and
      exception monad.  When an exception is raised the state reached so
      far is kept, so that "the state is unchanged" is a statement to be
      proved rather than a convention. *)

From stdpp Require Import gmap strings list fin_maps.
From Stdlib Require Import ZArith Lia.

Local Open Scope Z_scope.

(** ** Decimals *)

Record Decimal := mkDecimal { coeff : Z; expo : Z }.

#[global] Instance Decimal_eq_dec : EqDecision Decimal.
Proof. solve_decision. Defined.

(** [Decimal(n)] for an integer literal. *)
Definition dec_of_Z (n : Z) : Decimal := mkDecimal n 0.

Definition dec_zero : Decimal := dec_of_Z 0.

(** Truthiness of a decimal: [bool(d)] is false exactly for zero. *)
Definition dec_truthy (d : Decimal) : bool := negb (coeff d =? 0).

Definition dec_neg (d : Decimal) : Decimal := mkDecimal (- coeff d) (expo d).

Definition dec_abs (d : Decimal) : Decimal := mkDecimal (Z.abs (coeff d)) (expo d).

(** The coefficient of [d] once written with the smaller exponent [e]. *)
Definition rescale (d : Decimal) (e : Z) : Z := coeff d * 10 ^ (expo d - e).

Definition dec_add (x y : Decimal) : Decimal :=
  let e := Z.min (expo x) (expo y) in
  mkDecimal (rescale x e + rescale y e) e.

Definition dec_sub (x y : Decimal) : Decimal := dec_add x (dec_neg y).

Definition dec_mul (x y : Decimal) : Decimal :=
  mkDecimal (coeff x * coeff y) (expo x + expo y).

(** Comparison is by numeric value, whatever the exponents. *)
Definition dec_compare (x y : Decimal) : comparison :=
  let e := Z.min (expo x) (expo y) in
  Z.compare (rescale x e) (rescale y e).

Definition dec_ltb (x y : Decimal) : bool :=
  match dec_compare x y with Lt => true | _ => false end.

Definition dec_eqb (x y : Decimal) : bool :=
  match dec_compare x y with Eq => true | _ => false end.

Definition dec_leb (x y : Decimal) : bool := negb (dec_ltb y x).

(** Number of fractional digits kept by a division whose quotient does not
    fall on the ideal exponent. *)
Definition div_digits : Z := 28.

(** [x / y].  The quotient is exact whenever it needs at most [div_digits]
    digits below the ideal exponent [expo x - expo y]; this is the case of
    the two divisors used by the exchange, [Decimal("100")] and
    [Decimal(2)].  Trailing zeros are not stripped, which changes the
    exponent of the result but not its value. *)
Definition dec_div (x y : Decimal) : Decimal :=
  mkDecimal (Z.quot (coeff x * 10 ^ div_digits) (coeff y))
            (expo x - expo y - div_digits).

(** ** Rounding helpers ([basana.core.helpers]) *)

Inductive Rounding := ROUND_DOWN | ROUND_HALF_EVEN | ROUND_UP.

(** Integer quotient of [c] by a positive [d] under a rounding mode. *)
Definition round_quot (r : Rounding) (c d : Z) : Z :=
  let q := Z.quot c d in
  let rm := Z.rem c d in
  match r with
  | ROUND_DOWN => q
  | ROUND_UP => if rm =? 0 then q else q + Z.sgn c
  | ROUND_HALF_EVEN =>
      match Z.compare (2 * Z.abs rm) d with
      | Lt => q
      | Gt => q + Z.sgn c
      | Eq => if Z.even q then q else q + Z.sgn c
      end
  end.

(** [value.quantize(Decimal("1e-p"), rounding)]: the result always has
    exponent [-p]. *)
Definition quantize (value : Decimal) (precision : nat) (r : Rounding) : Decimal :=
  let e := - Z.of_nat precision in
  if e <=? expo value
  then mkDecimal (coeff value * 10 ^ (expo value - e)) e
  else mkDecimal (round_quot r (coeff value) (10 ^ (e - expo value))) e.

(** Modelled from the spec: [core.helpers.round_decimal] is not part of the
    sources at hand.  It rounds to [precision] fractional digits, half-even
    unless another rounding mode is given. *)
Definition round_decimal (value : Decimal) (precision : nat)
    (rounding : option Rounding) : Decimal :=
  quantize value precision (default ROUND_HALF_EVEN rounding).

(** Modelled from the spec: [core.helpers.truncate_decimal] is not part of
    the sources at hand.  It truncates toward zero to [precision]
    fractional digits. *)
Definition truncate_decimal (value : Decimal) (precision : nat) : Decimal :=
  round_decimal value precision (Some ROUND_DOWN).

(** ** Data model

    The classes of [basana.core] and of the other modules of
    [basana.backtesting] that the exchange handles are not part of the
    sources at hand; their fields are those of the specification. *)

(** Modelled from the spec: [core.pair.Pair] is not part of the sources at
    hand.  An ordered pair of symbols, compared on both. *)
Record Pair := mkPair { base_symbol : string; quote_symbol : string }.

#[global] Instance Pair_eq_dec : EqDecision Pair.
Proof. solve_decision. Defined.

#[global] Instance Pair_countable : Countable Pair.
Proof.
  apply (inj_countable' (λ p, (base_symbol p, quote_symbol p))
                        (λ t, mkPair t.1 t.2)).
  by intros [].
Defined.

(** Modelled from the spec: [core.pair.PairInfo] is not part of the sources
    at hand.  Two non-negative numbers of fractional digits. *)
Record PairInfo := mkPairInfo { base_precision : nat; quote_precision : nat }.

(** Modelled from the spec: [core.bar.Bar] is not part of the sources at
    hand.  The date and time of the bar play no part in the exchange. *)
Record Bar := mkBar {
  bar_pair : Pair;
  bar_open : Decimal;
  bar_high : Decimal;
  bar_low : Decimal;
  bar_close : Decimal;
  bar_volume : Decimal
}.

(** Modelled from the spec: [core.bar.BarEvent] is not part of the sources
    at hand. *)
Record BarEvent := mkBarEvent { bar : Bar }.

(** Modelled from the spec: [core.enums.OrderOperation] is not part of the
    sources at hand. *)
Inductive OrderOperation := BUY | SELL.

(** Modelled from the spec: the states of an order are not part of the
    sources at hand. *)
Inductive OrderState := OPEN | COMPLETED | CANCELED.

#[global] Instance OrderState_eq_dec : EqDecision OrderState.
Proof. solve_decision. Defined.

(** Modelled from the spec: the order classes are not part of the sources
    at hand.  The four variants with their own parameters. *)
Inductive OrderKind :=
  | Market
  | Limit (limit_price : Decimal)
  | Stop (stop_price : Decimal)
  | StopLimit (stop_price limit_price : Decimal).

(** Modelled from the spec: [orders.Order] is not part of the sources at
    hand. *)
Record Order := mkOrder {
  id : string;
  operation : OrderOperation;
  pair : Pair;
  amount : Decimal;
  amount_filled : Decimal;
  fees : gmap string Decimal;
  state : OrderState;
  kind : OrderKind
}.

(** Modelled from the spec: [Order.is_open] is not part of the sources at
    hand.  An order is open exactly in the state OPEN. *)
Definition is_open (o : Order) : bool := bool_decide (state o = OPEN).

Definition set_state (st : OrderState) (o : Order) : Order :=
  mkOrder (id o) (operation o) (pair o) (amount o) (amount_filled o) (fees o) st (kind o).

(** ** Helpers of the backtesting package ([basana.backtesting.helpers]) *)

(** Modelled from the spec: [helpers.get_base_sign_for_operation] is not
    part of the sources at hand.  The base symbol has sign +1 for BUY and
    -1 for SELL. *)
Definition get_base_sign_for_operation (op : OrderOperation) : Decimal :=
  match op with BUY => dec_of_Z 1 | SELL => dec_of_Z (-1) end.

(** Modelled from the spec: [helpers.get_sign] is not part of the sources
    at hand.  Sign of a decimal as a decimal. *)
Definition get_sign (d : Decimal) : Decimal := dec_of_Z (Z.sgn (coeff d)).

(** Modelled from the spec: [helpers.remove_empty_amounts] is not part of
    the sources at hand.  Zero entries are dropped. *)
Definition remove_empty_amounts (amounts : gmap string Decimal) : gmap string Decimal :=
  filter (λ kv, dec_truthy kv.2 = true) amounts.

(** Modelled from the spec: [helpers.add_amounts] is not part of the
    sources at hand.  Componentwise sum over the union of the keys, a
    missing entry counting as zero. *)
Definition add_amounts (lhs rhs : gmap string Decimal) : gmap string Decimal :=
  merge (λ a b, match a, b with
                | None, None => None
                | _, _ => Some (dec_add (default dec_zero a) (default dec_zero b))
                end) lhs rhs.

(** ** Orders ([basana.backtesting.orders]) *)

(** Modelled from the spec: [Order.cancel] is not part of the sources at
    hand.  The state becomes CANCELED. *)
Definition cancel (o : Order) : Order := set_state CANCELED o.

(** Modelled from the spec: [Order.not_filled] is not part of the sources
    at hand.  A market order that gets nothing on a bar cancels itself,
    the other kinds stay open. *)
Definition not_filled (o : Order) : Order :=
  match kind o with
  | Market => cancel o
  | _ => o
  end.

(** Modelled from the spec: [Order.add_fill] is not part of the sources at
    hand.  The filled amount grows by the absolute base flow, the fees are
    accumulated and the order completes when the whole amount is filled. *)
Definition add_fill (o : Order) (balance_updates fees_ : gmap string Decimal) : Order :=
  let filled :=
    dec_add (amount_filled o)
            (dec_abs (default dec_zero (balance_updates !! base_symbol (pair o)))) in
  mkOrder (id o) (operation o) (pair o) (amount o) filled
          (add_amounts (fees o) fees_)
          (if dec_eqb filled (amount o) then COMPLETED else state o)
          (kind o).

(** ** Order requests ([basana.backtesting.requests]) *)

(** Modelled from the spec: [requests.ExchangeOrder] is not part of the
    sources at hand.  A request carries what the order it creates carries. *)
Record ExchangeOrder := mkRequest {
  req_operation : OrderOperation;
  req_pair : Pair;
  req_amount : Decimal;
  req_kind : OrderKind
}.

(** Modelled from the spec: [ExchangeOrder.get_estimated_fill_price] is not
    part of the sources at hand.  Limit orders use the limit price, stop
    and stop-limit orders the stop price, market orders have none. *)
Definition get_estimated_fill_price (r : ExchangeOrder) : option Decimal :=
  match req_kind r with
  | Market => None
  | Limit lp => Some lp
  | Stop sp => Some sp
  | StopLimit sp _ => Some sp
  end.

(** Modelled from the spec: [ExchangeOrder.create_order] is not part of the
    sources at hand.  A fresh open order with nothing filled. *)
Definition request_create_order (r : ExchangeOrder) (new_id : string) : Order :=
  mkOrder new_id (req_operation r) (req_pair r) (req_amount r) dec_zero ∅ OPEN (req_kind r).

(** ** Account balances ([basana.backtesting.account_balances]) *)

Module AccountBalances.

(** Modelled from the spec: [AccountBalances] is not part of the sources at
    hand.  The ledger: spendable funds per symbol and, per order id, the
    funds reserved for that order. *)
Record t := mk {
  available : gmap string Decimal;
  holds : gmap string (gmap string Decimal)
}.

(** Modelled from the spec: the [AccountBalances] constructor is not part
    of the sources at hand.  Everything is available, nothing is held. *)
Definition initialize (initial : gmap string Decimal) : t := mk initial ∅.

(** Modelled from the spec: [get_available_balance] is not part of the
    sources at hand. *)
Definition get_available_balance (b : t) (symbol : string) : Decimal :=
  default dec_zero (available b !! symbol).

(** Modelled from the spec: [get_balance_on_hold_for_order] is not part of
    the sources at hand. *)
Definition get_balance_on_hold_for_order (b : t) (order_id symbol : string) : Decimal :=
  default dec_zero (holds b !! order_id ≫= λ h, h !! symbol).

(** Modelled from the spec: [get_balance_on_hold] is not part of the
    sources at hand.  The sum of the holds of all orders. *)
Definition get_balance_on_hold (b : t) (symbol : string) : Decimal :=
  map_fold (λ _ h acc, dec_add acc (default dec_zero (h !! symbol))) dec_zero (holds b).

(** Modelled from the spec: the precondition of [order_accepted], every
    required amount is available. *)
Definition covers (b : t) (required : gmap string Decimal) : Prop :=
  map_Forall (λ s r, dec_leb r (get_available_balance b s) = true) required.

(** Modelled from the spec: [order_accepted] is not part of the sources at
    hand.  Each required amount moves from available to the hold of the
    order; an amount that is not available is a programming error
    ([None]). *)
Definition order_accepted (b : t) (o : Order) (required : gmap string Decimal) : option t :=
  if decide (covers b required)
  then Some (mk (merge (λ a r, match r with
                               | None => a
                               | Some r => Some (dec_sub (default dec_zero a) r)
                               end) (available b) required)
                (<[id o := required]> (holds b)))
  else None.

Definition dec_min (x y : Decimal) : Decimal := if dec_ltb y x then y else x.

(** Modelled from the spec: what a negative component of an update takes
    from the hold of the order, at most the hold and at most its own
    magnitude. *)
Definition from_hold (h d : Decimal) : Decimal :=
  if dec_ltb d dec_zero then dec_min h (dec_abs d) else dec_zero.

(** Modelled from the spec: [order_updated] is not part of the sources at
    hand.  A negative component is first taken from the hold of the order
    and the rest from available, a positive component is credited to
    available; when the order is no longer open what is left of its hold
    goes back to available. *)
Definition order_updated (b : t) (o : Order) (delta : gmap string Decimal) : t :=
  let hold := default ∅ (holds b !! id o) in
  let taken := map_imap (λ s d, Some (from_hold (default dec_zero (hold !! s)) d)) delta in
  let hold' := merge (λ h u, match u with
                             | None => h
                             | Some u => Some (dec_sub (default dec_zero h) u)
                             end) hold taken in
  let available' := add_amounts (add_amounts (available b) delta) taken in
  if is_open o
  then mk available' (<[id o := hold']> (holds b))
  else mk (add_amounts available' hold') (delete (id o) (holds b)).

End AccountBalances.

(** ** Exceptions and the state monad of the exchange *)

Inductive ErrorMessage :=
  | NotEnoughAvailable (symbol : string) (required available : Decimal)
  | OrderNotFound
  | OrderCantBeCanceled (order_id : string) (st : OrderState)
  | InvalidRequest (msg : string).

Inductive Exception :=
  | Error (msg : ErrorMessage)
  | AssertionError (msg : string)
  | KeyError (key : string).

Inductive Outcome (A : Type) :=
  | Ok (a : A)
  | Raise (e : Exception).

Arguments Ok {A} a.
Arguments Raise {A} e.

(** A computation over a state [S]: its outcome and the state it leaves,
    also when it raises. *)
Definition M (S A : Type) : Type := S → Outcome A * S.

Definition ret {S A} (a : A) : M S A := λ s, (Ok a, s).

Definition bind {S A B} (c : M S A) (k : A → M S B) : M S B :=
  λ s, match c s with
       | (Ok a, s') => k a s'
       | (Raise e, s') => (Raise e, s')
       end.

Definition raise {S A} (e : Exception) : M S A := λ s, (Raise e, s).

Definition gets {S A} (f : S → A) : M S A := λ s, (Ok (f s), s).

Definition modify {S} (f : S → S) : M S unit := λ s, (Ok tt, f s).

Definition assert {S} (b : bool) (msg : string) : M S unit :=
  if b then ret tt else raise (AssertionError msg).

Notation "'let*' x ':=' c1 'in' c2" := (bind c1 (λ x, c2))
  (at level 10, x pattern, c1 at level 100, c2 at level 200).

Notation "c1 ;; c2" := (bind c1 (λ _, c2))
  (at level 100, c2 at level 200, right associativity).

(** Runs a computation on a component of the state. *)
Definition zoom {S T A} (get : S → T) (set : T → S → S) (c : M T A) : M S A :=
  λ s, let '(r, t') := c (get s) in (r, set t' s).

(** ** The order index *)

Module OrderIndex.

Record t := mk {
  _orders : gmap string Order;
  _open_orders : list string;
  _reindex_every : nat;
  _reindex_counter : nat
}.

Definition init : t := mk ∅ [] 50 0.

Definition add_order (order : Order) : M t unit :=
  let* idx := gets (λ idx, idx) in
  assert (bool_decide (_orders idx !! id order = None)) "order.id not in self._orders";;
  modify (λ idx, mk (<[id order := order]> (_orders idx))
                    (if is_open order then _open_orders idx ++ [id order]
                     else _open_orders idx)
                    (_reindex_every idx) (_reindex_counter idx)).

Definition get_order (idx : t) (order_id : string) : option Order :=
  _orders idx !! order_id.

Definition set_orders (f : gmap string Order → gmap string Order) (idx : t) : t :=
  mk (f (_orders idx)) (_open_orders idx) (_reindex_every idx) (_reindex_counter idx).

Definition set_open_orders (l : list string) (idx : t) : t :=
  mk (_orders idx) l (_reindex_every idx) (_reindex_counter idx).

Definition tick (idx : t) : t :=
  mk (_orders idx) (_open_orders idx) (_reindex_every idx) (S (_reindex_counter idx)).

(** Whether the object behind a reference is open right now. *)
Definition is_open_ref (idx : t) (r : string) : bool :=
  match _orders idx !! r with
  | Some o => is_open o
  | None => false
  end.

Section Generator.
(** The generator runs interleaved with its consumer: each [yield]
    hands a reference to the consumer, whose loop body [body] runs on
    the consumer's own state [S] (of which the index is a component)
    before the generator resumes. *)
Context {S : Type}.
Variable index : S → t.
Variable with_index : t → S → S.
Variable body : string → M S unit.

(** The [for order in self._open_orders] loop from the references
    [refs] on.  It returns the rebuilt list, if one is being built, and
    the orders yielded, each as it was when it was yielded. *)
Fixpoint iterate (refs : list string) (new_open_orders : option (list string))
    : M S (option (list string) * list (string * Order)) :=
  match refs with
  | [] => ret (new_open_orders, [])
  | r :: refs' =>
      let* idx := gets index in
      match _orders idx !! r with
      | Some order =>
          if is_open order then
            body r;;
            let* idx' := gets index in
            let new' :=
              match new_open_orders with
              | Some l => if is_open_ref idx' r then Some (l ++ [r]) else Some l
              | None => None
              end in
            let* (new'', ys) := iterate refs' new' in
            ret (new'', (r, order) :: ys)
          else iterate refs' new_open_orders
      | None => iterate refs' new_open_orders
      end
  end.

Definition get_open_orders : M S (list (string * Order)) :=
  modify (λ s, with_index (tick (index s)) s);;
  let* idx := gets index in
  let new_open_orders :=
    if (_reindex_counter idx mod _reindex_every idx =? 0)%nat then Some [] else None in
  let* (new', ys) := iterate (_open_orders idx) new_open_orders in
  match new' with
  | Some l => modify (λ s, with_index (set_open_orders l (index s)) s)
  | None => ret tt
  end;;
  ret ys.
End Generator.

End OrderIndex.

(** ** The exchange *)

(** Calls made by the exchange to its collaborators.  The exchange keeps
    them in a log, oldest first, so that the order of the calls can be
    stated. *)
Inductive Call :=
  | FactoryCall (loc : nat)
  | OnBar (loc : nat) (b : Bar)
  | TakeLiquidity (loc : nat) (amount : Decimal)
  | CalculateFees (order : Order) (balance_updates : gmap string Decimal)
  | NotFilled (order_id : string)
  | AddFill (order_id : string) (balance_updates fees_ : gmap string Decimal)
  | OrderAccepted (order_id : string) (required : gmap string Decimal)
  | OrderUpdated (order_id : string) (delta : gmap string Decimal)
  | Push (ev : BarEvent).

(** The [OpenOrder] data class of the exchange. *)
Record OpenOrder := mkOpenOrder {
  open_id : string;
  open_operation : OrderOperation;
  open_amount : Decimal;
  open_amount_filled : Decimal;
}.

Section Exchange.

(** The pluggable parts.  [L] is the type of liquidity strategy objects;
    the objects created by the factory live in a heap and are referred to
    by their location, so that two uses of one instance can be told from
    the uses of two instances. *)
Context {L : Type}.
Variable liquidity_strategy_factory : unit → L.
Variable on_bar : L → Bar → L.
Variable take_liquidity : L → Decimal → L.
Variable calculate_fees : Order → gmap string Decimal → gmap string Decimal.

(** [Order.get_balance_updates], whose variants are not part of the
    sources at hand, is taken as a function of the order, the bar and the
    liquidity strategy.  The exchange asserts that it leaves the state of
    the order as it was; a function does so by construction. *)
Variable get_balance_updates : Order → Bar → L → gmap string Decimal.

(** [ExchangeOrder.validate]: the message of the error it raises, if any. *)
Variable validate : ExchangeOrder → PairInfo → option string.

(** The successive values of [uuid.uuid4().hex]. *)
Variable uuid4_hex : nat → string.

Record Exchange := mkExchange {
  _balances : AccountBalances.t;
  _liquidity_strategies : gmap Pair nat;
  _orders : OrderIndex.t;
  _bar_event_source : gmap Pair (list BarEvent);
  _pairs_info : gmap Pair PairInfo;
  _default_pair_info : PairInfo;
  _last_bars : gmap Pair Bar;
  _bid_ask_spread : Decimal;
  (** the liquidity strategy objects created so far *)
  heap : list L;
  (** how many ids were drawn *)
  uuid_calls : nat;
  calls : list Call
}.

Definition with_balances (b : AccountBalances.t) (ex : Exchange) : Exchange :=
  mkExchange b (_liquidity_strategies ex) (_orders ex) (_bar_event_source ex)
    (_pairs_info ex) (_default_pair_info ex) (_last_bars ex) (_bid_ask_spread ex)
    (heap ex) (uuid_calls ex) (calls ex).

Definition with_liquidity_strategies (m : gmap Pair nat) (ex : Exchange) : Exchange :=
  mkExchange (_balances ex) m (_orders ex) (_bar_event_source ex)
    (_pairs_info ex) (_default_pair_info ex) (_last_bars ex) (_bid_ask_spread ex)
    (heap ex) (uuid_calls ex) (calls ex).

Definition with_orders (idx : OrderIndex.t) (ex : Exchange) : Exchange :=
  mkExchange (_balances ex) (_liquidity_strategies ex) idx (_bar_event_source ex)
    (_pairs_info ex) (_default_pair_info ex) (_last_bars ex) (_bid_ask_spread ex)
    (heap ex) (uuid_calls ex) (calls ex).

Definition with_bar_event_source (m : gmap Pair (list BarEvent)) (ex : Exchange) : Exchange :=
  mkExchange (_balances ex) (_liquidity_strategies ex) (_orders ex) m
    (_pairs_info ex) (_default_pair_info ex) (_last_bars ex) (_bid_ask_spread ex)
    (heap ex) (uuid_calls ex) (calls ex).

Definition with_pairs_info (m : gmap Pair PairInfo) (ex : Exchange) : Exchange :=
  mkExchange (_balances ex) (_liquidity_strategies ex) (_orders ex) (_bar_event_source ex)
    m (_default_pair_info ex) (_last_bars ex) (_bid_ask_spread ex)
    (heap ex) (uuid_calls ex) (calls ex).

Definition with_last_bars (m : gmap Pair Bar) (ex : Exchange) : Exchange :=
  mkExchange (_balances ex) (_liquidity_strategies ex) (_orders ex) (_bar_event_source ex)
    (_pairs_info ex) (_default_pair_info ex) m (_bid_ask_spread ex)
    (heap ex) (uuid_calls ex) (calls ex).

Definition with_heap (h : list L) (ex : Exchange) : Exchange :=
  mkExchange (_balances ex) (_liquidity_strategies ex) (_orders ex) (_bar_event_source ex)
    (_pairs_info ex) (_default_pair_info ex) (_last_bars ex) (_bid_ask_spread ex)
    h (uuid_calls ex) (calls ex).

Definition with_uuid_calls (n : nat) (ex : Exchange) : Exchange :=
  mkExchange (_balances ex) (_liquidity_strategies ex) (_orders ex) (_bar_event_source ex)
    (_pairs_info ex) (_default_pair_info ex) (_last_bars ex) (_bid_ask_spread ex)
    (heap ex) n (calls ex).

Definition with_calls (l : list Call) (ex : Exchange) : Exchange :=
  mkExchange (_balances ex) (_liquidity_strategies ex) (_orders ex) (_bar_event_source ex)
    (_pairs_info ex) (_default_pair_info ex) (_last_bars ex) (_bid_ask_spread ex)
    (heap ex) (uuid_calls ex) l.

(** Appends a call to the log. *)
Definition call (c : Call) : M Exchange unit :=
  modify (λ ex, with_calls (calls ex ++ [c]) ex).

(** [Exchange.__init__] *)
Definition init (initial_balances : gmap string Decimal)
    (default_pair_info : PairInfo) (bid_ask_spread : Decimal) : Exchange :=
  mkExchange (AccountBalances.initialize initial_balances) ∅ OrderIndex.init ∅ ∅
    default_pair_info ∅ bid_ask_spread [] 0 [].

Definition _get_pair_info (ex : Exchange) (p : Pair) : PairInfo :=
  match _pairs_info ex !! p with
  | Some ret => ret
  | None => _default_pair_info ex
  end.

Definition get_pair_info (ex : Exchange) (p : Pair) : PairInfo := _get_pair_info ex p.

Definition set_pair_info (p : Pair) (pair_info : PairInfo) (ex : Exchange) : Exchange :=
  with_pairs_info (<[p := pair_info]> (_pairs_info ex)) ex.

Definition _get_last_price (ex : Exchange) (p : Pair) : option Decimal :=
  match _last_bars ex !! p with
  | Some last_bar => Some (bar_close last_bar)
  | None => None
  end.

(** Truthiness of an optional decimal: [None] and zero are false. *)
Definition opt_truthy (d : option Decimal) : bool :=
  match d with
  | Some d => dec_truthy d
  | None => false
  end.

Definition get_bid_ask (ex : Exchange) (p : Pair) : option Decimal * option Decimal :=
  match _get_last_price ex p with
  | Some last_price =>
      if dec_truthy last_price then
        let pair_info := get_pair_info ex p in
        let half_spread :=
          truncate_decimal
            (dec_div (dec_div (dec_mul last_price (_bid_ask_spread ex))
                              (mkDecimal 100 0))
                     (dec_of_Z 2))
            (quote_precision pair_info) in
        (Some (dec_sub last_price half_spread), Some (dec_add last_price half_spread))
      else (None, None)
  | None => (None, None)
  end.

Definition _round_balance_updates (ex : Exchange) (p : Pair)
    (balance_updates : gmap string Decimal) : gmap string Decimal :=
  let ret := balance_updates in
  let pair_info := _get_pair_info ex p in
  let ret :=
    match ret !! base_symbol p with
    | Some base_amount =>
        if dec_truthy base_amount
        then <[base_symbol p := truncate_decimal base_amount (base_precision pair_info)]> ret
        else ret
    | None => ret
    end in
  let ret :=
    match ret !! quote_symbol p with
    | Some quote_amount =>
        if dec_truthy quote_amount
        then <[quote_symbol p := round_decimal quote_amount (quote_precision pair_info) None]> ret
        else ret
    | None => ret
    end in
  remove_empty_amounts ret.

Definition _round_fees (ex : Exchange) (p : Pair)
    (fees_ : gmap string Decimal) : gmap string Decimal :=
  let pair_info := _get_pair_info ex p in
  let precisions : gmap string nat :=
    <[quote_symbol p := quote_precision pair_info]>
      (<[base_symbol p := base_precision pair_info]> ∅) in
  let ret :=
    map_imap (λ symbol amount,
                Some (if dec_truthy amount then
                        match precisions !! symbol with
                        | Some precision => round_decimal amount precision (Some ROUND_UP)
                        | None => amount
                        end
                      else amount)) fees_ in
  remove_empty_amounts ret.

Definition assert_has_value {S} (balance_updates : gmap string Decimal)
    (symbol : string) (sign : Decimal) : M S unit :=
  match balance_updates !! symbol with
  | None => raise (AssertionError (symbol +:+ " is missing"))
  | Some value =>
      assert (negb (dec_eqb value dec_zero)) (symbol +:+ " is zero");;
      assert (dec_eqb (get_sign value) sign) (symbol +:+ " sign is wrong")
  end.

(** The object behind an order reference.  A reference always comes from
    the index, so the lookup cannot fail in a run of the exchange. *)
Definition deref (r : string) : M Exchange Order :=
  let* ex := gets (λ ex, ex) in
  match OrderIndex._orders (_orders ex) !! r with
  | Some o => ret o
  | None => raise (KeyError r)
  end.

(** In-place mutation of the order behind a reference. *)
Definition mutate (r : string) (f : Order → Order) : M Exchange unit :=
  modify (λ ex, with_orders (OrderIndex.set_orders (alter f r) (_orders ex)) ex).

(** The liquidity strategy object at a location. *)
Definition strategy_at (loc : nat) : M Exchange L :=
  let* ex := gets (λ ex, ex) in
  match heap ex !! loc with
  | Some l => ret l
  | None => raise (KeyError "liquidity strategy")
  end.

Definition balances_short (b : AccountBalances.t) (order_id : string)
    (final_updates : gmap string Decimal) : bool :=
  existsb (λ '(symbol, balance_update),
             let available_balance :=
               dec_add (AccountBalances.get_available_balance b symbol)
                       (AccountBalances.get_balance_on_hold_for_order b order_id symbol) in
             let final_balance := dec_add available_balance balance_update in
             dec_ltb final_balance dec_zero)
          (map_to_list final_updates).

(** The local function [order_not_filled] of [_process_order]. *)
Definition order_not_filled (r : string) : M Exchange unit :=
  mutate r not_filled;;
  let* order := deref r in
  call (NotFilled (id order));;
  if negb (is_open order) then
    modify (λ ex, with_balances (AccountBalances.order_updated (_balances ex) order ∅) ex);;
    call (OrderUpdated (id order) ∅)
  else ret tt.

Definition _process_order (r : string) (bar_event : BarEvent) (liquidity_strategy : nat)
    : M Exchange unit :=
  let* order := deref r in
  let* strategy := strategy_at liquidity_strategy in
  let balance_updates := get_balance_updates order (bar bar_event) strategy in
  if bool_decide (balance_updates = ∅) then order_not_filled r
  else
    let base_sign := get_base_sign_for_operation (operation order) in
    assert_has_value balance_updates (base_symbol (pair order)) base_sign;;
    assert_has_value balance_updates (quote_symbol (pair order)) (dec_neg base_sign);;
    let* ex := gets (λ ex, ex) in
    let balance_updates := _round_balance_updates ex (pair order) balance_updates in
    if bool_decide (balance_updates !! base_symbol (pair order) = None)
       || bool_decide (balance_updates !! quote_symbol (pair order) = None)
    then order_not_filled r
    else
      call (CalculateFees order balance_updates);;
      let fees_ := calculate_fees order balance_updates in
      let fees_ := _round_fees ex (pair order) fees_ in
      let final_updates := add_amounts balance_updates fees_ in
      let final_updates := remove_empty_amounts final_updates in
      if negb (balances_short (_balances ex) (id order) final_updates) then
        match balance_updates !! base_symbol (bar_pair (bar bar_event)) with
        | None => raise (KeyError (base_symbol (bar_pair (bar bar_event))))
        | Some base_amount =>
            modify (λ ex, with_heap
                            (alter (λ l, take_liquidity l (dec_abs base_amount))
                                   liquidity_strategy (heap ex)) ex);;
            call (TakeLiquidity liquidity_strategy (dec_abs base_amount));;
            mutate r (λ o, add_fill o balance_updates fees_);;
            call (AddFill (id order) balance_updates fees_);;
            let* order := deref r in
            modify (λ ex, with_balances
                            (AccountBalances.order_updated (_balances ex) order final_updates) ex);;
            call (OrderUpdated (id order) final_updates)
        end
      else order_not_filled r.

Definition _process_orders (bar_event : BarEvent) : M Exchange unit :=
  let p := bar_pair (bar bar_event) in
  let* ex := gets (λ ex, ex) in
  let* liquidity_strategy :=
    match _liquidity_strategies ex !! p with
    | Some loc => ret loc
    | None =>
        let loc := length (heap ex) in
        modify (λ ex, with_heap (heap ex ++ [liquidity_strategy_factory tt]) ex);;
        call (FactoryCall loc);;
        ret loc
    end in
  modify (λ ex, with_heap (alter (λ l, on_bar l (bar bar_event)) liquidity_strategy (heap ex)) ex);;
  call (OnBar liquidity_strategy (bar bar_event));;
  OrderIndex.get_open_orders _orders with_orders
    (λ r, let* o := deref r in
          if bool_decide (pair o = p)
          then _process_order r bar_event liquidity_strategy
          else ret tt);;
  ret tt.

Definition subscribe_to_bar_events (p : Pair) (ex : Exchange) : Exchange :=
  match _bar_event_source ex !! p with
  | Some _ => ex
  | None => with_bar_event_source (<[p := []]> (_bar_event_source ex)) ex
  end.

(** An event source is an object without a length or a truth value of its
    own, hence true when it is there. *)
Definition _on_bar_event (event : BarEvent) : M Exchange unit :=
  let p := bar_pair (bar event) in
  modify (λ ex, with_last_bars (<[p := bar event]> (_last_bars ex)) ex);;
  _process_orders event;;
  let* ex := gets (λ ex, ex) in
  match _bar_event_source ex !! p with
  | Some queue =>
      modify (with_bar_event_source (<[p := queue ++ [event]]> (_bar_event_source ex)));;
      call (Push event)
  | None => ret tt
  end.

Fixpoint check_items (b : AccountBalances.t) (items : list (string * Decimal))
    : M Exchange unit :=
  match items with
  | [] => ret tt
  | (symbol, required) :: items' =>
      assert (dec_ltb dec_zero required) "Invalid required balance";;
      let available_balance := AccountBalances.get_available_balance b symbol in
      if dec_ltb available_balance required
      then raise (Error (NotEnoughAvailable symbol required available_balance))
      else check_items b items'
  end.

Definition _check_available_balance (required_balance : gmap string Decimal)
    : M Exchange unit :=
  let* ex := gets (λ ex, ex) in
  check_items (_balances ex) (map_to_list required_balance).

(** The estimated balance updates of a request, before rounding. *)
Definition estimated_balance_updates (ex : Exchange) (order_request : ExchangeOrder)
    : gmap string Decimal :=
  let p := req_pair order_request in
  let base_sign := get_base_sign_for_operation (req_operation order_request) in
  let estimated : gmap string Decimal :=
    {[ base_symbol p := dec_mul (req_amount order_request) base_sign ]} in
  let estimated_fill_price := get_estimated_fill_price order_request in
  let estimated_fill_price :=
    if opt_truthy estimated_fill_price then estimated_fill_price
    else _get_last_price ex p in
  match estimated_fill_price with
  | Some price =>
      if dec_truthy price
      then <[quote_symbol p :=
               dec_mul (dec_mul (req_amount order_request) price) (dec_neg base_sign)]>
             estimated
      else estimated
  | None => estimated
  end.

Definition _estimate_required_balances (order_request : ExchangeOrder)
    : M Exchange (gmap string Decimal) :=
  let* ex := gets (λ ex, ex) in
  let p := req_pair order_request in
  let estimated :=
    _round_balance_updates ex p (estimated_balance_updates ex order_request) in
  let* fees_ :=
    if (size estimated =? 2)%nat then
      let order := request_create_order order_request "temporary" in
      call (CalculateFees order estimated);;
      ret (_round_fees ex p (calculate_fees order estimated))
    else ret ∅ in
  let estimated := add_amounts estimated fees_ in
  ret (dec_neg <$> filter (λ kv, dec_ltb kv.2 dec_zero = true) estimated).

Definition create_order (order_request : ExchangeOrder) : M Exchange string :=
  let* ex := gets (λ ex, ex) in
  let pair_info := get_pair_info ex (req_pair order_request) in
  match validate order_request pair_info with
  | Some msg => raise (Error (InvalidRequest msg))
  | None => ret tt
  end;;
  let* required_balances := _estimate_required_balances order_request in
  _check_available_balance required_balances;;
  let* ex := gets (λ ex, ex) in
  let order := request_create_order order_request (uuid4_hex (uuid_calls ex)) in
  modify (with_uuid_calls (S (uuid_calls ex)));;
  zoom _orders with_orders (OrderIndex.add_order order);;
  let* ex := gets (λ ex, ex) in
  match AccountBalances.order_accepted (_balances ex) order required_balances with
  | Some b => modify (with_balances b)
  | None => raise (AssertionError "balance not available")
  end;;
  call (OrderAccepted (id order) required_balances);;
  ret (id order).

Definition cancel_order (order_id : string) : M Exchange string :=
  let* ex := gets (λ ex, ex) in
  match OrderIndex.get_order (_orders ex) order_id with
  | None => raise (Error OrderNotFound)
  | Some order =>
      if negb (is_open order)
      then raise (Error (OrderCantBeCanceled order_id (state order)))
      else
        mutate order_id cancel;;
        let* order := deref order_id in
        modify (λ ex, with_balances (AccountBalances.order_updated (_balances ex) order ∅) ex);;
        call (OrderUpdated (id order) ∅);;
        ret order_id
  end.

(** [Exchange.get_open_orders]: the consumer reads the yielded orders and
    changes nothing. *)
Definition get_open_orders (p : option Pair) : M Exchange (list OpenOrder) :=
  let* ys := OrderIndex.get_open_orders _orders with_orders (λ _, ret tt) in
  ret ((λ order, mkOpenOrder (id order) (operation order) (amount order)
                   (amount_filled order))
         <$> List.filter (λ order, match p with
                                   | Some p => bool_decide (pair order = p)
                                   | None => true
                                   end) ys.*2).

End Exchange.

(** ** A concrete exchange

    One pair, the reference liquidity model reduced to its bookkeeping and
    two fee strategies.  The scenarios below run the exchange on it. *)

Module Sample.

Record VolumeShare := mkVolumeShare {
  available_liquidity : Decimal;
  used_liquidity : Decimal
}.

Definition factory (_ : unit) : VolumeShare := mkVolumeShare dec_zero dec_zero.

(** A quarter of the volume of the bar can be taken. *)
Definition on_bar (l : VolumeShare) (b : Bar) : VolumeShare :=
  mkVolumeShare (dec_mul (bar_volume b) (mkDecimal 25 (-2))) dec_zero.

Definition take_liquidity (l : VolumeShare) (a : Decimal) : VolumeShare :=
  mkVolumeShare (dec_sub (available_liquidity l) a) (dec_add (used_liquidity l) a).

(** The reference fee strategy [NoFee]. *)
Definition no_fee (_ : Order) (_ : gmap string Decimal) : gmap string Decimal := ∅.

(** A fee of 0.25% of the quote flow, charged in the quote symbol. *)
Definition quote_fee (o : Order) (u : gmap string Decimal) : gmap string Decimal :=
  match u !! quote_symbol (pair o) with
  | Some q => {[ quote_symbol (pair o) := dec_neg (dec_mul (dec_abs q) (mkDecimal 25 (-4))) ]}
  | None => ∅
  end.

(** Fills at the open of the bar, without price impact: a market order
    whatever fits the liquidity left, a limit order when the range of the
    bar admits its price, nothing for the stop variants. *)
Definition get_balance_updates (o : Order) (b : Bar) (l : VolumeShare)
    : gmap string Decimal :=
  let remaining := dec_sub (amount o) (amount_filled o) in
  let fill := AccountBalances.dec_min remaining (available_liquidity l) in
  let sign := get_base_sign_for_operation (operation o) in
  let flows (price : Decimal) : gmap string Decimal :=
    <[quote_symbol (pair o) := dec_mul (dec_mul fill price) (dec_neg sign)]>
      {[ base_symbol (pair o) := dec_mul fill sign ]} in
  if dec_truthy fill then
    match kind o with
    | Market => flows (bar_open b)
    | Limit lp =>
        match operation o with
        | BUY => if dec_leb (bar_low b) lp then flows lp else ∅
        | SELL => if dec_leb lp (bar_high b) then flows lp else ∅
        end
    | _ => ∅
    end
  else ∅.

Definition validate (r : ExchangeOrder) (_ : PairInfo) : option string :=
  if dec_ltb dec_zero (req_amount r) then None else Some "Invalid amount".

Definition uuid4_hex (n : nat) : string :=
  match n with
  | O => "5f0c"
  | S O => "a91e"
  | _ => "c3d7" +:+ String.concat "" (replicate n "0")
  end.

Definition btc_usdt : Pair := mkPair "BTC" "USDT".

Definition usdt (n : Z) : gmap string Decimal := {[ "USDT" := dec_of_Z n ]}.

(** 10000 USDT, precisions 8 and 2, a spread of 0.5%. *)
Definition exchange0 : Exchange (L := VolumeShare) :=
  init (usdt 10000) (mkPairInfo 8 2) (mkDecimal 5 (-1)).

Definition bar_at (o h l c v : Z) : Bar :=
  mkBar btc_usdt (dec_of_Z o) (dec_of_Z h) (dec_of_Z l) (dec_of_Z c) (dec_of_Z v).

Definition bar1 : Bar := bar_at 100 110 90 105 1000.
Definition bar2 : Bar := bar_at 100 108 95 102 1000.

(** The final state of a computation. *)
Definition exec {S A} (c : M S A) (s : S) : S := (c s).2.

Definition on_bar_event := _on_bar_event factory on_bar take_liquidity no_fee get_balance_updates.
Definition create := create_order (L := VolumeShare) no_fee validate uuid4_hex.

Definition market_buy (n : Z) : ExchangeOrder := mkRequest BUY btc_usdt (dec_of_Z n) Market.
Definition limit_buy (n price : Z) : ExchangeOrder :=
  mkRequest BUY btc_usdt (dec_of_Z n) (Limit (dec_of_Z price)).

(** The exchange after a bar whose prices are all zero. *)
Definition zero_bar : Bar := bar_at 0 0 0 0 0.

Definition exchange_zero_close : Exchange (L := VolumeShare) :=
  with_last_bars {[ btc_usdt := zero_bar ]} exchange0.

(** The exchange after [bar1], whose close is 105. *)
Definition exchange1 : Exchange (L := VolumeShare) :=
  with_last_bars {[ btc_usdt := bar1 ]} exchange0.

Definition process_order :=
  _process_order (L := VolumeShare) take_liquidity quote_fee get_balance_updates.

Definition bar3 : Bar := bar_at 2000 2100 1900 2000 1000.

(** The exchange with an open market order for 10 BTC, accepted after
    [bar1] under the quote fee, and a liquidity strategy that has seen
    [bar2] at location 0. *)
Definition exchange_with_order : Exchange (L := VolumeShare) :=
  with_heap [on_bar (factory tt) bar2]
    (exec (create_order quote_fee validate uuid4_hex (market_buy 10)) exchange1).

(** The open order of [exchange_with_order]. *)
Definition order_5f0c : Order := request_create_order (market_buy 10) "5f0c".

(** A subscriber on the pair, [bar1], a market order for 10 BTC, [bar2]. *)
Definition scenario1 : Exchange (L := VolumeShare) :=
  exec (on_bar_event (mkBarEvent bar2))
    (exec (create (market_buy 10))
       (exec (on_bar_event (mkBarEvent bar1))
          (subscribe_to_bar_events btc_usdt exchange0))).

(** Two bars of the same pair, nothing else. *)
Definition two_bars : Exchange (L := VolumeShare) :=
  exec (on_bar_event (mkBarEvent bar2)) (exec (on_bar_event (mkBarEvent bar1)) exchange0).

End Sample.

(** ** Auxiliary notions for the statements *)

(** What is left of an amount once rounded: nothing if it rounds to zero. *)
Definition kept (d : Decimal) : option Decimal := if dec_truthy d then Some d else None.

(** One of the two blocks of [_round_balance_updates]: the entry of
    [symbol], if there is one and it is not zero, is replaced by [f] of it. *)
Definition round_entry (symbol : string) (f : Decimal → Decimal)
    (m : gmap string Decimal) : gmap string Decimal :=
  match m !! symbol with
  | Some a => if dec_truthy a then <[symbol := f a]> m else m
  | None => m
  end.

(** The three assertions of [assert_has_value] as a test. *)
Definition has_value (balance_updates : gmap string Decimal) (symbol : string)
    (sign : Decimal) : bool :=
  match balance_updates !! symbol with
  | Some value => negb (dec_eqb value dec_zero) && dec_eqb (get_sign value) sign
  | None => false
  end.

(** The exchange after the not-filled path was taken for the order behind
    the reference [r], whose value was [o]. *)
Definition after_not_filled {L} (ex : Exchange (L := L)) (r : string) (o : Order)
    : Exchange (L := L) :=
  let ex1 :=
    with_calls (calls ex ++ [NotFilled (id o)])
      (with_orders (OrderIndex.set_orders (alter not_filled r) (_orders ex)) ex) in
  if is_open (not_filled o) then ex1
  else with_calls (calls ex1 ++ [OrderUpdated (id o) ∅])
         (with_balances (AccountBalances.order_updated (_balances ex) (not_filled o) ∅) ex1).

(** An index whose list of open orders has no duplicates and no dangling
    reference. *)
Definition index_wf (idx : OrderIndex.t) : Prop :=
  NoDup (OrderIndex._open_orders idx)
  ∧ ∀ r, r ∈ OrderIndex._open_orders idx → is_Some (OrderIndex._orders idx !! r).

Definition is_push (c : Call) : bool :=
  match c with
  | Push _ => true
  | _ => false
  end.

(** What the matching of a bar leaves alone: the event sources, the cache of
    last bars and the dictionary of liquidity strategies; the calls it adds
    to the log forward no event. *)
Definition matching_frame {L} (ex ex' : Exchange (L := L)) : Prop :=
  _bar_event_source ex' = _bar_event_source ex
  ∧ _last_bars ex' = _last_bars ex
  ∧ _liquidity_strategies ex' = _liquidity_strategies ex
  ∧ ∃ cs, calls ex' = calls ex ++ cs ∧ Forall (λ c, is_push c = false) cs.

(** A computation whose final state is related to its initial state. *)
Definition preserves {S A} (R : relation S) (c : M S A) : Prop := ∀ s, R s (c s).2.

(** A mutation of an order that cannot reopen it. *)
Definition keeps_closed (f : Order → Order) : Prop :=
  ∀ o, is_open o = false → is_open (f o) = false.

(** What the consumer of the order handed out for the reference [r] leaves
    alone in the index: the list, the counter and all the other orders. *)
Definition index_frame {L} (r : string) (ex ex' : Exchange (L := L)) : Prop :=
  OrderIndex._open_orders (_orders ex') = OrderIndex._open_orders (_orders ex)
  ∧ OrderIndex._reindex_counter (_orders ex') = OrderIndex._reindex_counter (_orders ex)
  ∧ ∀ r', r' ≠ r →
      OrderIndex._orders (_orders ex') !! r' = OrderIndex._orders (_orders ex) !! r'.

(** An order that is in the index and closed is still there and closed. *)
Definition stays_closed {L} (r : string) (ex ex' : Exchange (L := L)) : Prop :=
  (∃ o, OrderIndex._orders (_orders ex) !! r = Some o ∧ is_open o = false) →
  ∃ o', OrderIndex._orders (_orders ex') !! r = Some o' ∧ is_open o' = false.

(** ** Sessions: what a strategy and the dispatcher can do to an exchange *)

Inductive Operation :=
  | CreateOrder (order_request : ExchangeOrder)
  | CancelOrder (order_id : string)
  | BarEventArrives (event : BarEvent)
  | SubscribeToBarEvents (p : Pair)
  | SetPairInfo (p : Pair) (pair_info : PairInfo).

Section Session.
Context {L : Type}.
Variable liquidity_strategy_factory : unit → L.
Variable on_bar : L → Bar → L.
Variable take_liquidity : L → Decimal → L.
Variable calculate_fees : Order → gmap string Decimal → gmap string Decimal.
Variable get_balance_updates : Order → Bar → L → gmap string Decimal.
Variable validate : ExchangeOrder → PairInfo → option string.
Variable uuid4_hex : nat → string.

(** The exchange after an operation, whether it returned or raised. *)
Definition perform (op : Operation) (ex : Exchange (L := L)) : Exchange (L := L) :=
  match op with
  | CreateOrder order_request =>
      (create_order calculate_fees validate uuid4_hex order_request ex).2
  | CancelOrder order_id => (cancel_order order_id ex).2
  | BarEventArrives event =>
      (_on_bar_event liquidity_strategy_factory on_bar take_liquidity calculate_fees
         get_balance_updates event ex).2
  | SubscribeToBarEvents p => subscribe_to_bar_events p ex
  | SetPairInfo p pair_info => set_pair_info p pair_info ex
  end.

Definition session (ops : list Operation) (ex : Exchange (L := L)) : Exchange (L := L) :=
  foldl (λ ex op, perform op ex) ex ops.
End Session.

(** ** The rest of the interface of the exchange *)

(** The [Balance] data class of the exchange. *)
Record Balance := mkBalance { balance_available : Decimal; balance_total : Decimal }.

Section Interface.
Context {L : Type}.
Variable calculate_fees : Order → gmap string Decimal → gmap string Decimal.
Variable validate : ExchangeOrder → PairInfo → option string.
Variable uuid4_hex : nat → string.

(** [AccountBalances.get_symbols], which is not part of the sources at hand,
    is taken as it comes: the symbols it lists, in its order. *)
Variable get_symbols : AccountBalances.t → list string.

(** [Order.get_order_info], which is not part of the sources at hand, is
    taken as a function of the order to some type of snapshots. *)
Context {OrderInfo : Type}.
Variable order_get_order_info : Order → OrderInfo.

Definition get_balance (ex : Exchange (L := L)) (symbol : string) : Balance :=
  let available := AccountBalances.get_available_balance (_balances ex) symbol in
  let hold := AccountBalances.get_balance_on_hold (_balances ex) symbol in
  mkBalance available (dec_add available hold).

Definition get_balances (ex : Exchange (L := L)) : gmap string Balance :=
  foldl (λ ret symbol,
           let available := AccountBalances.get_available_balance (_balances ex) symbol in
           let hold := AccountBalances.get_balance_on_hold (_balances ex) symbol in
           if dec_truthy available || dec_truthy hold
           then <[symbol := mkBalance available (dec_add available hold)]> ret
           else ret)
        ∅ (get_symbols (_balances ex)).

Definition create_market_order (operation : OrderOperation) (p : Pair) (amount : Decimal)
    : M (Exchange (L := L)) string :=
  create_order calculate_fees validate uuid4_hex (mkRequest operation p amount Market).

Definition create_limit_order (operation : OrderOperation) (p : Pair)
    (amount limit_price : Decimal) : M (Exchange (L := L)) string :=
  create_order calculate_fees validate uuid4_hex
    (mkRequest operation p amount (Limit limit_price)).

Definition create_stop_order (operation : OrderOperation) (p : Pair)
    (amount stop_price : Decimal) : M (Exchange (L := L)) string :=
  create_order calculate_fees validate uuid4_hex
    (mkRequest operation p amount (Stop stop_price)).

Definition create_stop_limit_order (operation : OrderOperation) (p : Pair)
    (amount stop_price limit_price : Decimal) : M (Exchange (L := L)) string :=
  create_order calculate_fees validate uuid4_hex
    (mkRequest operation p amount (StopLimit stop_price limit_price)).

(** An order object is true whatever its contents, so [if not order] tests
    presence. *)
Definition get_order_info (order_id : string) : M (Exchange (L := L)) OrderInfo :=
  let* ex := gets (λ ex, ex) in
  match OrderIndex.get_order (_orders ex) order_id with
  | None => raise (Error OrderNotFound)
  | Some order => ret (order_get_order_info order)
  end.
End Interface.

(** ** Notions for the invariants of the index *)

(** The two methods by which the matching mutates an order. *)
Definition order_method (f : Order → Order) : Prop :=
  f = not_filled ∨ ∃ balance_updates fees_, f = (λ o, add_fill o balance_updates fees_).

(** From one index to a later one no order appears or disappears, none
    changes its id or its pair, and none that was closed is open. *)
Definition index_grown (idx idx' : OrderIndex.t) : Prop :=
  ∀ r, match OrderIndex._orders idx !! r with
       | Some o =>
           ∃ o', OrderIndex._orders idx' !! r = Some o'
                 ∧ id o' = id o ∧ pair o' = pair o
                 ∧ (is_open o = false → is_open o' = false)
       | None => OrderIndex._orders idx' !! r = None
       end.

(** The same, with the list of open orders and the counter left alone. *)
Definition index_aged (idx idx' : OrderIndex.t) : Prop :=
  index_grown idx idx'
  ∧ OrderIndex._open_orders idx' = OrderIndex._open_orders idx
  ∧ OrderIndex._reindex_counter idx' = OrderIndex._reindex_counter idx
  ∧ OrderIndex._reindex_every idx' = OrderIndex._reindex_every idx.

(** The invariant of the index: the list of open orders has no duplicates
    and no dangling reference, every order is stored under its id, and
    every open order is in the list. *)
Definition index_inv (idx : OrderIndex.t) : Prop :=
  index_wf idx
  ∧ (∀ r o, OrderIndex._orders idx !! r = Some o → id o = r)
  ∧ (∀ r o, OrderIndex._orders idx !! r = Some o → is_open o = true →
            r ∈ OrderIndex._open_orders idx).

(** The index of an exchange has aged. *)
Definition exchange_aged {L} (ex ex' : Exchange (L := L)) : Prop :=
  index_aged (_orders ex) (_orders ex').

(** What the operations on orders leave alone: the settings of the pairs,
    the spread, the cache of last bars, the event sources and the dictionary
    of liquidity strategies. *)
Definition surroundings_kept {L} (ex ex' : Exchange (L := L)) : Prop :=
  _pairs_info ex' = _pairs_info ex
  ∧ _default_pair_info ex' = _default_pair_info ex
  ∧ _bid_ask_spread ex' = _bid_ask_spread ex
  ∧ _bar_event_source ex' = _bar_event_source ex
  ∧ _last_bars ex' = _last_bars ex
  ∧ _liquidity_strategies ex' = _liquidity_strategies ex.

(** The bar event that an operation brings for a pair, if any. *)
Definition bar_event_of (p : Pair) (op : Operation) : option BarEvent :=
  match op with
  | BarEventArrives event => if decide (bar_pair (bar event) = p) then Some event else None
  | _ => None
  end.

(** The order that a submission stores, when it returns. *)
Definition stored_as {L} (ex : Exchange (L := L)) (operation : OrderOperation) (p : Pair)
    (amount : Decimal) (kind : OrderKind) (run : Outcome string * Exchange (L := L)) : Prop :=
  match run with
  | (Ok order_id, ex') =>
      OrderIndex._orders (_orders ex) !! order_id = None
      ∧ OrderIndex._orders (_orders ex') !! order_id
        = Some (mkOrder order_id operation p amount dec_zero ∅ OPEN kind)
      ∧ order_id ∈ OrderIndex._open_orders (_orders ex')
  | (Raise _, _) => True
  end.

(** The order that a call of the log matches, be it filled or not. *)
Definition matched_order (c : Call) : option string :=
  match c with
  | NotFilled order_id => Some order_id
  | AddFill order_id _ _ => Some order_id
  | _ => None
  end.

(** The id of the order behind a reference when the matching of a bar of
    the pair [p] is due for it: the order is open and of that pair. *)
Definition matching_due {L} (p : Pair) (ex : Exchange (L := L)) (r : string)
    : option string :=
  match OrderIndex._orders (_orders ex) !! r with
  | Some o => if is_open o && bool_decide (pair o = p) then Some (id o) else None
  | None => None
  end.

(** ** A session on the concrete exchange *)

Module SampleSession.
Import Sample.

(** A subscriber on the pair, [bar1], two limit orders and a market order,
    the first limit order canceled, [bar2]. *)
Definition ops : list Operation :=
  [ SubscribeToBarEvents btc_usdt;
    BarEventArrives (mkBarEvent bar1);
    CreateOrder (limit_buy 1 50);
    CreateOrder (limit_buy 2 60);
    CreateOrder (market_buy 10);
    CancelOrder "5f0c";
    BarEventArrives (mkBarEvent bar2) ].

Definition run (ops : list Operation) (ex : Exchange (L := VolumeShare))
    : Exchange (L := VolumeShare) :=
  session factory on_bar take_liquidity no_fee get_balance_updates validate uuid4_hex
    ops ex.

Definition exchange : Exchange (L := VolumeShare) := run ops exchange0.

(** The exchange before the last bar of the session: "5f0c" is canceled,
    the limit order "a91e" and the market order "c3d700" are open. *)
Definition before_bar2 : Exchange (L := VolumeShare) := run (take 6 ops) exchange0.



End SampleSession.

(** ** The bid and ask prices as the specification words them *)

(** [truncate(last_close × spread_pct / 100 / 2, quote_precision)] *)
Definition spec_half_spread (last_close spread_pct : Decimal) (quote_precision : nat) : Decimal :=
  truncate_decimal
    (dec_div (dec_div (dec_mul last_close spread_pct) (mkDecimal 100 0)) (dec_of_Z 2))
    quote_precision.

(** [(None, None)] if no bar has been seen, otherwise the last close minus
    and plus the half spread. *)
Definition spec_bid_ask {L} (ex : Exchange (L := L)) (p : Pair)
    : option Decimal * option Decimal :=
  match _last_bars ex !! p with
  | None => (None, None)
  | Some last_bar =>
      let quote_precision :=
        quote_precision (default (_default_pair_info ex) (_pairs_info ex !! p)) in
      let half_spread :=
        spec_half_spread (bar_close last_bar) (_bid_ask_spread ex) quote_precision in
      (Some (dec_sub (bar_close last_bar) half_spread),
       Some (dec_add (bar_close last_bar) half_spread))
  end.

(** ** The price estimate of a request as the specification words it *)

(** The estimated fill price of the request, falling back to the close of
    the last bar of its pair.  A price that is missing or zero is no
    estimate. *)
Definition spec_estimated_price {L} (ex : Exchange (L := L)) (r : ExchangeOrder)
    : option Decimal :=
  match get_estimated_fill_price r ≫= kept with
  | Some price => Some price
  | None => (bar_close <$> _last_bars ex !! req_pair r) ≫= kept
  end.

(** * Properties *)

(** ** Rounding modes *)

Lemma pow10_pos (n : Z) : 0 ≤ n → 0 < 10 ^ n.
Proof. intros. apply Z.pow_pos_nonneg; lia. Qed.

Lemma quantize_expo v p r : expo (quantize v p r) = - Z.of_nat p.
Proof. unfold quantize. by destruct (_ <=? _). Qed.

(** Quotient and remainder through the magnitude of the dividend. *)
Lemma quot_rem_magnitude c d :
  0 < d →
  ∃ q r, Z.quot c d = Z.sgn c * q ∧ Z.rem c d = Z.sgn c * r ∧
         Z.abs c = q * d + r ∧ 0 ≤ r < d ∧ 0 ≤ q.
Proof.
  intros Hd. exists (Z.abs c / d), (Z.abs c mod d).
  pose proof (Z.div_mod (Z.abs c) d ltac:(lia)) as Hdm.
  pose proof (Z.mod_pos_bound (Z.abs c) d Hd) as Hm.
  pose proof (Z.div_pos (Z.abs c) d ltac:(lia) Hd) as Hq.
  destruct (Z.sgn_spec c) as [[Hc ->]|[[Hc ->]|[Hc ->]]].
  - rewrite Z.quot_div_nonneg, Z.rem_mod_nonneg by lia.
    rewrite (Z.abs_eq c) in * by lia. lia.
  - subst c. rewrite Z.quot_0_l, Z.rem_0_l by lia. lia.
  - assert (Z.quot c d = - (- c / d)) as ->.
    { rewrite <- Z.quot_div_nonneg, Z.quot_opp_l by lia. lia. }
    assert (Z.rem c d = - (- c mod d)) as ->.
    { rewrite <- Z.rem_mod_nonneg, Z.rem_opp_l by lia. lia. }
    rewrite (Z.abs_neq c) in * by lia. lia.
Qed.

(** ROUND_DOWN truncates toward zero: the quotient keeps the sign and its
    magnitude is the largest one not above the exact quotient. *)
Lemma round_down_toward_zero c d :
  0 < d →
  let q := round_quot ROUND_DOWN c d in
  Z.abs q * d ≤ Z.abs c < (Z.abs q + 1) * d ∧ 0 ≤ q * c.
Proof.
  intros Hd q. subst q. simpl.
  destruct (quot_rem_magnitude c d Hd) as (q & r & -> & _ & Habs & Hr & Hq).
  destruct c; simpl in *; nia.
Qed.

(** ROUND_UP rounds away from zero: the quotient keeps the sign and its
    magnitude is the smallest one not below the exact quotient. *)
Lemma round_up_away_from_zero c d :
  0 < d →
  let q := round_quot ROUND_UP c d in
  Z.abs c ≤ Z.abs q * d < Z.abs c + d ∧ 0 ≤ q * c.
Proof.
  intros Hd q. subst q. simpl.
  destruct (quot_rem_magnitude c d Hd) as (q & r & -> & -> & Habs & Hr & Hq).
  destruct c; simpl in *; [lia| |];
    match goal with |- context [?x =? 0] => destruct (Z.eqb_spec x 0) end; nia.
Qed.

(** ROUND_HALF_EVEN rounds to the nearest quotient and, half way between
    two of them, to the even one. *)
Lemma round_half_even_nearest c d :
  0 < d →
  let q := round_quot ROUND_HALF_EVEN c d in
  2 * Z.abs (c - q * d) ≤ d ∧ (2 * Z.abs (c - q * d) = d → Z.even q = true) ∧ 0 ≤ q * c.
Proof.
  intros Hd q. subst q. unfold round_quot.
  destruct (quot_rem_magnitude c d Hd) as (q & r & -> & -> & Habs & Hr & Hq).
  destruct (Z.sgn_spec c) as [[Hc Hs]|[[Hc Hs]|[Hc Hs]]];
    [replace (Z.sgn c) with 1 by lia | replace (Z.sgn c) with 0 by lia
    | replace (Z.sgn c) with (-1) by lia].
  - rewrite !Z.mul_1_l. rewrite (Z.abs_eq r) by lia. rewrite (Z.abs_eq c) in Habs by lia.
    assert (c - q * d = r) as E1 by lia.
    assert (c - (q + 1) * d = r - d) as E2 by lia.
    destruct (2 * r ?= d) eqn:Hcmp; [apply Z.compare_eq in Hcmp
      | rewrite Z.compare_lt_iff in Hcmp | rewrite Z.compare_gt_iff in Hcmp].
    + destruct (Z.even q) eqn:He; cbv beta iota; rewrite ?E1, ?E2.
      * split; [lia | split; [done | nia]].
      * split; [lia | split; [| nia]].
        intros _. rewrite Z.even_add, He. done.
    + cbv beta iota. rewrite E1. split; [lia | split; [lia | nia]].
    + cbv beta iota. rewrite E2. split; [lia | split; [lia | nia]].
  - subst c. rewrite !Z.mul_0_l. change (2 * Z.abs 0) with 0.
    assert ((0 ?= d) = Lt) as -> by (apply Z.compare_lt_iff; lia).
    lia.
  - replace (Z.abs (-1 * r)) with r by lia. rewrite (Z.abs_neq c) in Habs by lia.
    replace (-1 * q) with (- q) by lia.
    assert (c - - q * d = - r) as E1 by lia.
    assert (c - (- q + -1) * d = d - r) as E2 by lia.
    destruct (2 * r ?= d) eqn:Hcmp; [apply Z.compare_eq in Hcmp
      | rewrite Z.compare_lt_iff in Hcmp | rewrite Z.compare_gt_iff in Hcmp].
    + destruct (Z.even (- q)) eqn:He; cbv beta iota; rewrite ?E1, ?E2.
      * split; [lia | split; [done | nia]].
      * split; [lia | split; [| nia]].
        intros _. rewrite Z.even_add, He. done.
    + cbv beta iota. rewrite E1. split; [lia | split; [lia | nia]].
    + cbv beta iota. rewrite E2. split; [lia | split; [lia | nia]].
Qed.

(** Rounding never turns zero into something else. *)
Lemma quantize_zero v p r : coeff v = 0 → coeff (quantize v p r) = 0.
Proof.
  intros Hv. unfold quantize.
  destruct (- Z.of_nat p <=? expo v) eqn:He; simpl; rewrite Hv; [lia|].
  apply Z.leb_gt in He.
  assert (10 ^ (- Z.of_nat p - expo v) ≠ 0) by (apply Z.pow_nonzero; lia).
  unfold round_quot. rewrite Z.quot_0_l, Z.rem_0_l by done.
  destruct r; simpl; try done.
  by destruct (10 ^ (- Z.of_nat p - expo v)).
Qed.

(** ** Dictionaries of amounts *)

Lemma lookup_remove_empty_amounts (m : gmap string Decimal) s :
  remove_empty_amounts m !! s =
  match m !! s with
  | Some a => if dec_truthy a then Some a else None
  | None => None
  end.
Proof.
  unfold remove_empty_amounts.
  destruct (m !! s) as [a|] eqn:Hm.
  - destruct (dec_truthy a) eqn:Ha.
    + apply map_lookup_filter_Some. done.
    + apply map_lookup_filter_None. right. intros x Hx. simpl. congruence.
  - apply map_lookup_filter_None. by left.
Qed.

Lemma lookup_add_amounts (lhs rhs : gmap string Decimal) s :
  add_amounts lhs rhs !! s =
  match lhs !! s, rhs !! s with
  | None, None => None
  | a, b => Some (dec_add (default dec_zero a) (default dec_zero b))
  end.
Proof.
  unfold add_amounts. rewrite lookup_merge.
  by destruct (lhs !! s), (rhs !! s).
Qed.

Lemma add_amounts_empty_r (m : gmap string Decimal) s :
  add_amounts m ∅ !! s = (λ a, dec_add a dec_zero) <$> m !! s.
Proof. rewrite lookup_add_amounts, lookup_empty. by destruct (m !! s). Qed.

(** ** Bid and ask *)

(** Dividing by 100 and then by 2 is exact: two hundred times the quotient
    is the dividend. *)
Lemma percent_half_exact x :
  dec_compare
    (dec_mul (dec_div (dec_div x (mkDecimal 100 0)) (dec_of_Z 2)) (dec_of_Z 200)) x = Eq.
Proof.
  unfold dec_compare, dec_mul, dec_div, dec_of_Z, rescale, div_digits. simpl.
  change (10 ^ 28) with (10 ^ 26 * 100) at 1.
  rewrite Z.mul_assoc, Z.quot_mul by lia.
  change (10 ^ 28) with (5 * 10 ^ 27 * 2).
  rewrite !Z.mul_assoc, Z.quot_mul by lia.
  rewrite Z.min_l by lia.
  replace (expo x - 0 - 28 - 0 - 28 + 0 - (expo x - 0 - 28 - 0 - 28 + 0)) with 0 by lia.
  replace (expo x - (expo x - 0 - 28 - 0 - 28 + 0)) with 56 by lia.
  apply Z.compare_eq_iff. change (10 ^ 56) with (10 ^ 26 * 5 * 10 ^ 27 * 200 * 10 ^ 0). lia.
Qed.

Section BidAsk.
Context {L : Type}.
Implicit Types (ex : Exchange (L := L)) (p : Pair).

Lemma get_bid_ask_no_bar ex p :
  _last_bars ex !! p = None → get_bid_ask ex p = (None, None).
Proof. intros H. unfold get_bid_ask, _get_last_price. by rewrite H. Qed.

Lemma get_bid_ask_zero_close ex p b :
  _last_bars ex !! p = Some b → coeff (bar_close b) = 0 →
  get_bid_ask ex p = (None, None).
Proof.
  intros H Hz. unfold get_bid_ask, _get_last_price, dec_truthy. rewrite H, Hz. done.
Qed.

(** C8 (amended): [get_bid_ask] returns [(None, None)] when no bar has
    been seen for the pair or when the close of the last bar is zero;
    otherwise it returns the last close minus and plus the half spread
    [truncate(last_close × spread_pct / 100 / 2, quote_precision)], with
    the quote precision of the pair's [PairInfo] or of the default. *)
Theorem get_bid_ask_spec ex p :
  get_bid_ask ex p =
  match _last_bars ex !! p with
  | None => (None, None)
  | Some last_bar =>
      if decide (coeff (bar_close last_bar) = 0) then (None, None)
      else spec_bid_ask ex p
  end.
Proof.
  destruct (_last_bars ex !! p) as [b|] eqn:Hb; [|by apply get_bid_ask_no_bar].
  destruct (decide _) as [Hz|Hz]; [by eapply get_bid_ask_zero_close|].
  unfold get_bid_ask, spec_bid_ask, _get_last_price, dec_truthy. rewrite Hb.
  apply Z.eqb_neq in Hz. rewrite Hz. simpl.
  unfold get_pair_info, _get_pair_info, spec_half_spread.
  by destruct (_pairs_info ex !! p).
Qed.
End BidAsk.

(** C8, as stated, fails after a bar whose close is zero: a bar has been
    seen, yet the exchange answers [(None, None)] where the stated formula
    gives the pair [(0.00, 0.00)]. *)
Lemma get_bid_ask_zero_close_counterexample :
  _last_bars Sample.exchange_zero_close !! Sample.btc_usdt = Some Sample.zero_bar
  ∧ get_bid_ask Sample.exchange_zero_close Sample.btc_usdt = (None, None)
  ∧ spec_bid_ask Sample.exchange_zero_close Sample.btc_usdt
    = (Some (mkDecimal 0 (-2)), Some (mkDecimal 0 (-2)))
  ∧ get_bid_ask Sample.exchange_zero_close Sample.btc_usdt
    ≠ spec_bid_ask Sample.exchange_zero_close Sample.btc_usdt.
Proof. repeat split; try by vm_compute. Qed.

(** With a close of 105, a spread of 0.5% and two quote digits the half
    spread is 0.2625 truncated to 0.26. *)
Example get_bid_ask_105 :
  get_bid_ask (with_last_bars {[ Sample.btc_usdt := Sample.bar1 ]} Sample.exchange0)
              Sample.btc_usdt
  = (Some (mkDecimal 10474 (-2)), Some (mkDecimal 10526 (-2))).
Proof. by vm_compute. Qed.

(** ** Rounding of balance updates and fees *)

Lemma kept_quantize_zero v p r :
  dec_truthy v = false → kept (quantize v p r) = None.
Proof.
  unfold kept, dec_truthy. intros Hv.
  rewrite quantize_zero; [done|]. apply Z.eqb_eq. by destruct (coeff v =? 0).
Qed.

Lemma round_entry_lookup_eq symbol f m :
  round_entry symbol f m !! symbol = (λ a, if dec_truthy a then f a else a) <$> m !! symbol.
Proof.
  unfold round_entry. destruct (m !! symbol) as [a|] eqn:Ha; [|by rewrite Ha].
  simpl. destruct (dec_truthy a); [by rewrite lookup_insert_eq | by rewrite Ha].
Qed.

Lemma round_entry_lookup_ne symbol f m s :
  s ≠ symbol → round_entry symbol f m !! s = m !! s.
Proof.
  intros Hne. unfold round_entry. destruct (m !! symbol) as [a|]; [|done].
  destruct (dec_truthy a); [by rewrite lookup_insert_ne | done].
Qed.

Section Rounding.
Context {L : Type}.
Implicit Types (ex : Exchange (L := L)) (p : Pair) (m : gmap string Decimal).

Lemma round_balance_updates_unfold ex p m :
  _round_balance_updates ex p m =
  remove_empty_amounts
    (round_entry (quote_symbol p)
       (λ a, round_decimal a (quote_precision (_get_pair_info ex p)) None)
       (round_entry (base_symbol p)
          (λ a, truncate_decimal a (base_precision (_get_pair_info ex p))) m)).
Proof. reflexivity. Qed.

Lemma round_balance_updates_base ex p m :
  base_symbol p ≠ quote_symbol p →
  _round_balance_updates ex p m !! base_symbol p =
  m !! base_symbol p ≫= λ a, kept (truncate_decimal a (base_precision (_get_pair_info ex p))).
Proof.
  intros Hne. rewrite round_balance_updates_unfold, lookup_remove_empty_amounts.
  rewrite round_entry_lookup_ne, round_entry_lookup_eq by done.
  destruct (m !! base_symbol p) as [a|]; [simpl; fold (kept)|done].
  destruct (dec_truthy a) eqn:Ha; [done|]. rewrite Ha.
  unfold truncate_decimal, round_decimal. by rewrite kept_quantize_zero.
Qed.

Lemma round_balance_updates_quote ex p m :
  base_symbol p ≠ quote_symbol p →
  _round_balance_updates ex p m !! quote_symbol p =
  m !! quote_symbol p ≫= λ a, kept (round_decimal a (quote_precision (_get_pair_info ex p)) None).
Proof.
  intros Hne. rewrite round_balance_updates_unfold, lookup_remove_empty_amounts.
  rewrite round_entry_lookup_eq, round_entry_lookup_ne by done.
  destruct (m !! quote_symbol p) as [a|]; [simpl|done].
  destruct (dec_truthy a) eqn:Ha; [done|]. rewrite Ha.
  unfold round_decimal. by rewrite kept_quantize_zero.
Qed.

Lemma round_balance_updates_other ex p m s :
  s ≠ base_symbol p → s ≠ quote_symbol p →
  _round_balance_updates ex p m !! s = m !! s ≫= kept.
Proof.
  intros Hb Hq. rewrite round_balance_updates_unfold, lookup_remove_empty_amounts.
  rewrite !round_entry_lookup_ne by done. by destruct (m !! s).
Qed.

Lemma round_fees_lookup ex p (fees_ : gmap string Decimal) s :
  _round_fees ex p fees_ !! s =
  fees_ !! s ≫= λ a,
    kept (if decide (s = quote_symbol p)
          then round_decimal a (quote_precision (_get_pair_info ex p)) (Some ROUND_UP)
          else if decide (s = base_symbol p)
          then round_decimal a (base_precision (_get_pair_info ex p)) (Some ROUND_UP)
          else a).
Proof.
  unfold _round_fees. rewrite lookup_remove_empty_amounts, map_lookup_imap.
  destruct (fees_ !! s) as [a|]; [simpl|done].
  rewrite lookup_insert. destruct (decide (quote_symbol p = s)) as [<-|Hq].
  - rewrite decide_True by done.
    destruct (dec_truthy a) eqn:Ha; [done|].
    unfold round_decimal. rewrite kept_quantize_zero by done. unfold kept. by rewrite Ha.
  - rewrite decide_False by done. rewrite lookup_insert.
    destruct (decide (base_symbol p = s)) as [<-|Hb].
    + rewrite decide_True by done.
      destruct (dec_truthy a) eqn:Ha; [done|].
      unfold round_decimal. rewrite kept_quantize_zero by done. unfold kept. by rewrite Ha.
    + rewrite decide_False by done. rewrite lookup_empty.
      by destruct (dec_truthy a) eqn:Ha.
Qed.
End Rounding.

(** ** Required-balance estimation *)

Lemma size_two_keys (m : gmap string Decimal) (b q : string) :
  b ≠ q →
  (∀ s, s ≠ b → s ≠ q → m !! s = None) →
  (size m =? 2)%nat = bool_decide (is_Some (m !! b)) && bool_decide (is_Some (m !! q)).
Proof.
  intros Hne Hother.
  destruct (m !! b) as [vb|] eqn:Hb, (m !! q) as [vq|] eqn:Hq.
  - assert (m = <[b := vb]> {[q := vq]}) as ->.
    { apply map_eq. intros s. destruct (decide (s = b)) as [->|]; [by simplify_map_eq|].
      destruct (decide (s = q)) as [->|]; [by simplify_map_eq|].
      rewrite Hother by done. by simplify_map_eq. }
    rewrite map_size_insert_None by by simplify_map_eq.
    rewrite map_size_singleton. done.
  - assert (m = {[b := vb]}) as ->.
    { apply map_eq. intros s. destruct (decide (s = b)) as [->|]; [by simplify_map_eq|].
      destruct (decide (s = q)) as [->|]; [by simplify_map_eq|].
      rewrite Hother by done. by simplify_map_eq. }
    rewrite map_size_singleton. done.
  - assert (m = {[q := vq]}) as ->.
    { apply map_eq. intros s. destruct (decide (s = q)) as [->|]; [by simplify_map_eq|].
      destruct (decide (s = b)) as [->|]; [by simplify_map_eq|].
      rewrite Hother by done. by simplify_map_eq. }
    rewrite map_size_singleton. done.
  - assert (m = ∅) as ->.
    { apply map_eq. intros s. destruct (decide (s = q)) as [->|]; [by simplify_map_eq|].
      destruct (decide (s = b)) as [->|]; [by simplify_map_eq|].
      rewrite Hother by done. by simplify_map_eq. }
    done.
Qed.

Lemma lookup_negated_negatives (m : gmap string Decimal) s x :
  (dec_neg <$> filter (λ kv, dec_ltb kv.2 dec_zero = true) m) !! s = Some x ↔
  ∃ a, m !! s = Some a ∧ dec_ltb a dec_zero = true ∧ x = dec_neg a.
Proof.
  rewrite lookup_fmap, fmap_Some. split.
  - intros (a & Ha & ->). apply map_lookup_filter_Some in Ha as [Ha Hlt]. eauto.
  - intros (a & Ha & Hlt & ->). exists a. split; [|done].
    by apply map_lookup_filter_Some.
Qed.

Section Estimation.
Context {L : Type}.
Variable calculate_fees : Order → gmap string Decimal → gmap string Decimal.
Implicit Types (ex : Exchange (L := L)) (r : ExchangeOrder).

Lemma estimated_balance_updates_quote_price ex r :
  estimated_balance_updates ex r =
  let p := req_pair r in
  let sign := get_base_sign_for_operation (req_operation r) in
  let estimated : gmap string Decimal := {[ base_symbol p := dec_mul (req_amount r) sign ]} in
  match spec_estimated_price ex r with
  | Some price =>
      <[quote_symbol p := dec_mul (dec_mul (req_amount r) price) (dec_neg sign)]> estimated
  | None => estimated
  end.
Proof.
  unfold estimated_balance_updates, spec_estimated_price, _get_last_price, opt_truthy, kept.
  destruct (get_estimated_fill_price r) as [x|]; simpl.
  - destruct (dec_truthy x) eqn:Hx; simpl; [by rewrite Hx|].
    destruct (_last_bars ex !! req_pair r) as [b|]; simpl; [|done].
    by destruct (dec_truthy (bar_close b)).
  - destruct (_last_bars ex !! req_pair r) as [b|]; simpl; [|done].
    by destruct (dec_truthy (bar_close b)).
Qed.

Lemma estimated_balance_updates_other ex r s :
  s ≠ base_symbol (req_pair r) → s ≠ quote_symbol (req_pair r) →
  estimated_balance_updates ex r !! s = None.
Proof.
  intros Hb Hq. rewrite estimated_balance_updates_quote_price. simpl.
  destruct (spec_estimated_price ex r); by simplify_map_eq.
Qed.

(** C4: the estimated balance updates of a request hold the base
    component [amount × sign] and, when a price can be estimated (the
    request's own estimate, else the close of the last bar), the quote
    component [amount × price × −sign]; after rounding, the fee strategy
    is called, on an order whose id is "temporary", exactly when both
    components are present; and the required balances are the negations
    of the strictly negative entries of the resulting map. *)
Theorem estimate_required_balances_spec ex r :
  base_symbol (req_pair r) ≠ quote_symbol (req_pair r) →
  let p := req_pair r in
  let sign := get_base_sign_for_operation (req_operation r) in
  let estimated := estimated_balance_updates ex r in
  let rounded := _round_balance_updates ex p estimated in
  let both :=
    bool_decide (is_Some (rounded !! base_symbol p))
    && bool_decide (is_Some (rounded !! quote_symbol p)) in
  let temporary := request_create_order r "temporary" in
  let fees_ := if both then _round_fees ex p (calculate_fees temporary rounded) else ∅ in
  let resulting := add_amounts rounded fees_ in
  estimated !! base_symbol p = Some (dec_mul (req_amount r) sign)
  ∧ estimated !! quote_symbol p =
      (λ price, dec_mul (dec_mul (req_amount r) price) (dec_neg sign))
        <$> spec_estimated_price ex r
  ∧ id temporary = "temporary"
  ∧ ∃ required,
      _estimate_required_balances calculate_fees r ex =
        (Ok required,
         with_calls (calls ex ++ if both then [CalculateFees temporary rounded] else []) ex)
      ∧ ∀ s x, required !! s = Some x ↔
               ∃ a, resulting !! s = Some a ∧ dec_ltb a dec_zero = true ∧ x = dec_neg a.
Proof.
  intros Hne p sign estimated rounded both temporary fees_ resulting.
  split; [|split; [|split; [done|]]].
  - subst estimated. rewrite estimated_balance_updates_quote_price. simpl.
    destruct (spec_estimated_price ex r); by simplify_map_eq.
  - subst estimated. rewrite estimated_balance_updates_quote_price. simpl.
    destruct (spec_estimated_price ex r); by simplify_map_eq.
  - assert (Hsize : (size rounded =? 2)%nat = both).
    { apply size_two_keys; [done|]. intros s Hb Hq. subst rounded.
      rewrite round_balance_updates_other by done.
      subst estimated. by rewrite estimated_balance_updates_other. }
    exists (dec_neg <$> filter (λ kv, dec_ltb kv.2 dec_zero = true) resulting).
    split; [|intros s x; apply lookup_negated_negatives].
    unfold _estimate_required_balances, bind, gets, ret, call, modify. simpl.
    fold p estimated rounded temporary. rewrite Hsize.
    subst resulting fees_. destruct both; simpl; [done|].
    rewrite app_nil_r. by destruct ex.
Qed.

Lemma estimated_balance_updates_zero_close ex r last_bar :
  _last_bars ex !! req_pair r = Some last_bar → coeff (bar_close last_bar) = 0 →
  estimated_balance_updates ex r =
  estimated_balance_updates (with_last_bars (delete (req_pair r) (_last_bars ex)) ex) r.
Proof.
  intros Hb Hz. rewrite !estimated_balance_updates_quote_price.
  unfold spec_estimated_price. simpl. rewrite Hb, lookup_delete_eq. simpl.
  unfold kept at 2, dec_truthy. by rewrite Hz.
Qed.

(** C10: when the close of the most recent bar of a pair is zero,
    [get_bid_ask] answers [(None, None)] as it does for a pair without any
    bar, and the estimation of the required balances of a request on that
    pair goes as if no bar had been seen: the last price is tested for
    truthiness, not for presence. *)
Theorem zero_close_is_no_price ex p last_bar :
  _last_bars ex !! p = Some last_bar → coeff (bar_close last_bar) = 0 →
  let unseen := with_last_bars (delete p (_last_bars ex)) ex in
  _get_last_price ex p = Some (bar_close last_bar)
  ∧ _get_last_price unseen p = None
  ∧ get_bid_ask ex p = (None, None)
  ∧ get_bid_ask unseen p = (None, None)
  ∧ ∀ r, req_pair r = p →
      estimated_balance_updates ex r = estimated_balance_updates unseen r
      ∧ (_estimate_required_balances calculate_fees r ex).1
        = (_estimate_required_balances calculate_fees r unseen).1.
Proof.
  intros Hb Hz unseen.
  assert (Hunseen : _last_bars unseen !! p = None) by apply lookup_delete_eq.
  split; [by unfold _get_last_price; rewrite Hb|].
  split; [by unfold _get_last_price; rewrite Hunseen|].
  split; [by eapply get_bid_ask_zero_close|].
  split; [by apply get_bid_ask_no_bar|].
  intros r <-.
  pose proof (estimated_balance_updates_zero_close ex r last_bar Hb Hz) as Heq.
  split; [done|].
  unfold _estimate_required_balances, bind, gets, ret, call, modify.
  cbv beta iota zeta. subst unseen. rewrite <- Heq.
  set (unseen := with_last_bars _ ex).
  change (_round_balance_updates unseen) with (_round_balance_updates ex).
  change (_round_fees unseen) with (_round_fees ex).
  by destruct (size _ =? 2)%nat.
Qed.
End Estimation.

(** A market request to buy 10 BTC after a close of 105, with a fee of
    0.25% in the quote symbol: 1050.00 USDT of quote flow and 2.63 USDT of
    fee, hence 1052.63 USDT required and nothing in BTC. *)
Lemma estimate_required_balances_witness :
  base_symbol (req_pair (Sample.market_buy 10)) ≠ quote_symbol (req_pair (Sample.market_buy 10))
  ∧ ∃ required,
      (_estimate_required_balances Sample.quote_fee (Sample.market_buy 10) Sample.exchange1).1
      = Ok required
      ∧ required !! "USDT" = Some (mkDecimal 105263 (-2))
      ∧ required !! "BTC" = None.
Proof.
  assert (H : base_symbol (req_pair (Sample.market_buy 10))
              ≠ quote_symbol (req_pair (Sample.market_buy 10))) by (vm_compute; discriminate).
  split; [exact H|].
  destruct (estimate_required_balances_spec Sample.quote_fee Sample.exchange1
              (Sample.market_buy 10) H) as (_ & _ & _ & required & Hrun & Hreq).
  exists required. split; [rewrite Hrun; reflexivity|]. clear Hrun. split.
  - apply Hreq. exists (mkDecimal (-105263) (-2)).
    vm_compute. split; [reflexivity|split; reflexivity].
  - destruct (required !! "BTC") as [x|] eqn:Hx; [|reflexivity].
    apply Hreq in Hx as (a & Ha & Hlt & _). vm_compute in Ha.
    injection Ha as <-. vm_compute in Hlt. discriminate Hlt.
Defined.

(** After a bar whose prices are all zero nothing is quoted and a market
    request is estimated without a quote component. *)
Lemma zero_close_is_no_price_witness :
  _last_bars Sample.exchange_zero_close !! Sample.btc_usdt = Some Sample.zero_bar
  ∧ coeff (bar_close Sample.zero_bar) = 0
  ∧ get_bid_ask Sample.exchange_zero_close Sample.btc_usdt = (None, None)
  ∧ estimated_balance_updates Sample.exchange_zero_close (Sample.market_buy 10)
    = estimated_balance_updates Sample.exchange0 (Sample.market_buy 10).
Proof.
  assert (H1 : _last_bars Sample.exchange_zero_close !! Sample.btc_usdt = Some Sample.zero_bar)
    by (vm_compute; reflexivity).
  assert (H2 : coeff (bar_close Sample.zero_bar) = 0) by reflexivity.
  destruct (zero_close_is_no_price Sample.no_fee Sample.exchange_zero_close Sample.btc_usdt
              Sample.zero_bar H1 H2) as (_ & _ & Hba & _ & Hest).
  split; [exact H1|]. split; [exact H2|]. split; [exact Hba|].
  destruct (Hest (Sample.market_buy 10) eq_refl) as [-> _].
  vm_compute. reflexivity.
Defined.

(** ** Cancelling an order *)

Lemma is_open_set_state st o : is_open (set_state st o) = bool_decide (st = OPEN).
Proof. reflexivity. Qed.

Lemma order_updated_closed_releases b o delta s :
  is_open o = false →
  AccountBalances.get_balance_on_hold_for_order
    (AccountBalances.order_updated b o delta) (id o) s = dec_zero.
Proof.
  intros Hc. unfold AccountBalances.order_updated, AccountBalances.get_balance_on_hold_for_order.
  rewrite Hc. simpl. by rewrite lookup_delete_eq.
Qed.

Section Cancel.
Context {L : Type}.
Implicit Types (ex : Exchange (L := L)).

(** The three cases of [cancel_order]: an unknown id, an order that is not
    open, and an open order, which gets canceled and whose hold is released
    by an empty update; right after that a second call is refused. *)
Lemma cancel_order_cases ex order_id :
  match OrderIndex._orders (_orders ex) !! order_id with
  | None => cancel_order order_id ex = (Raise (Error OrderNotFound), ex)
  | Some order =>
      if is_open order then
        ∃ ex',
          cancel_order order_id ex = (Ok order_id, ex')
          ∧ OrderIndex._orders (_orders ex') !! order_id = Some (set_state CANCELED order)
          ∧ _balances ex' =
              AccountBalances.order_updated (_balances ex) (set_state CANCELED order) ∅
          ∧ (∀ s, AccountBalances.get_balance_on_hold_for_order
                    (_balances ex') (id order) s = dec_zero)
          ∧ calls ex' = calls ex ++ [OrderUpdated (id order) ∅]
          ∧ cancel_order order_id ex'
            = (Raise (Error (OrderCantBeCanceled order_id CANCELED)), ex')
      else
        cancel_order order_id ex
        = (Raise (Error (OrderCantBeCanceled order_id (state order))), ex)
  end.
Proof.
  destruct (OrderIndex._orders (_orders ex) !! order_id) as [order|] eqn:Ho.
  - destruct (is_open order) eqn:Hopen.
    + eexists. split; [|split; [|split; [|split; [|split]]]].
      * unfold cancel_order, bind, gets, OrderIndex.get_order. rewrite Ho, Hopen. simpl.
        unfold mutate, deref, bind, gets, modify, call, ret. simpl.
        rewrite lookup_alter_eq, Ho. simpl. reflexivity.
      * simpl. rewrite lookup_alter_eq, Ho. reflexivity.
      * reflexivity.
      * intros s. simpl.
        apply (order_updated_closed_releases _ (set_state CANCELED order)). reflexivity.
      * reflexivity.
      * unfold cancel_order, bind, gets, OrderIndex.get_order. simpl.
        rewrite lookup_alter_eq, Ho. simpl. reflexivity.
    + unfold cancel_order, bind, gets, raise, OrderIndex.get_order. rewrite Ho, Hopen.
      reflexivity.
  - unfold cancel_order, bind, gets, raise, OrderIndex.get_order. by rewrite Ho.
Qed.
End Cancel.

(** ** Submitting an order *)

Lemma dec_compare_zero_r a : dec_compare a dec_zero = (coeff a ?= 0).
Proof.
  unfold dec_compare, rescale. cbn [coeff expo dec_zero dec_of_Z].
  set (k := 10 ^ (expo a - Z.min (expo a) 0)).
  assert (0 < k) by (apply pow10_pos; lia).
  rewrite Z.mul_0_l.
  destruct (Z.compare_spec (coeff a * k) 0), (Z.compare_spec (coeff a) 0); try done; nia.
Qed.

Lemma dec_compare_zero_l a : dec_compare dec_zero a = (0 ?= coeff a).
Proof.
  unfold dec_compare, rescale. cbn [coeff expo dec_zero dec_of_Z].
  set (k := 10 ^ (expo a - Z.min 0 (expo a))).
  assert (0 < k) by (apply pow10_pos; lia).
  rewrite Z.mul_0_l.
  destruct (Z.compare_spec 0 (coeff a * k)), (Z.compare_spec 0 (coeff a)); try done; nia.
Qed.

Lemma dec_ltb_zero_r a : dec_ltb a dec_zero = (coeff a <? 0).
Proof. unfold dec_ltb. rewrite dec_compare_zero_r. unfold Z.ltb. by destruct (_ ?= _). Qed.

Lemma dec_ltb_zero_l a : dec_ltb dec_zero a = (0 <? coeff a).
Proof. unfold dec_ltb. rewrite dec_compare_zero_l. unfold Z.ltb. by destruct (_ ?= _). Qed.

Lemma dec_neg_negative_positive a :
  dec_ltb a dec_zero = true → dec_ltb dec_zero (dec_neg a) = true.
Proof.
  rewrite dec_ltb_zero_r, dec_ltb_zero_l. simpl. rewrite Z.ltb_lt, Z.ltb_lt. lia.
Qed.

Section CheckBalance.
Context {L : Type}.
Implicit Types (ex : Exchange (L := L)) (b : AccountBalances.t).

(** The check leaves the exchange as it is, whatever its outcome. *)
Lemma check_items_state b items ex :
  (check_items b items ex).2 = ex.
Proof.
  induction items as [|[s x] items IH]; [done|]. simpl.
  unfold bind, assert. destruct (dec_ltb dec_zero x); simpl; [|done].
  destruct (dec_ltb _ x); [done|]. apply IH.
Qed.

Lemma check_items_short b items ex :
  Forall (λ kv, dec_ltb dec_zero kv.2 = true) items →
  Exists (λ kv, dec_ltb (AccountBalances.get_available_balance b kv.1) kv.2 = true) items →
  ∃ s x, (s, x) ∈ items
         ∧ dec_ltb (AccountBalances.get_available_balance b s) x = true
         ∧ check_items (L := L) b items ex
           = (Raise (Error (NotEnoughAvailable s x (AccountBalances.get_available_balance b s))), ex).
Proof.
  intros Hpos Hex. induction items as [|[s x] items IH]; [by apply Exists_nil in Hex|].
  apply Forall_cons in Hpos as [Hx Hpos]. simpl in Hx.
  destruct (dec_ltb (AccountBalances.get_available_balance b s) x) eqn:Hs.
  - exists s, x. split; [left|]. split; [done|].
    simpl. unfold bind, assert. rewrite Hx. simpl. by rewrite Hs.
  - apply Exists_cons in Hex as [Hex|Hex]; [simpl in Hex; congruence|].
    destruct (IH Hpos Hex) as (s' & x' & Hin & Hshort & Hrun).
    exists s', x'. split; [by right|]. split; [done|].
    simpl. unfold bind, assert. rewrite Hx. simpl. by rewrite Hs.
Qed.

Lemma check_items_enough b items ex :
  Forall (λ kv, dec_ltb dec_zero kv.2 = true) items →
  Forall (λ kv, dec_ltb (AccountBalances.get_available_balance b kv.1) kv.2 = false) items →
  check_items (L := L) b items ex = (Ok tt, ex).
Proof.
  intros Hpos Hall. induction items as [|[s x] items IH]; [done|].
  apply Forall_cons in Hpos as [Hx Hpos]. apply Forall_cons in Hall as [Hs Hall].
  simpl in *. unfold bind, assert. rewrite Hx. simpl. rewrite Hs. by apply IH.
Qed.
End CheckBalance.
Section Submission.
Context {L : Type}.
Variable calculate_fees : Order → gmap string Decimal → gmap string Decimal.
Variable validate : ExchangeOrder → PairInfo → option string.
Variable uuid4_hex : nat → string.
Implicit Types (ex : Exchange (L := L)) (r : ExchangeOrder).

Lemma with_calls_same ex : with_calls (calls ex) ex = ex.
Proof. by destruct ex. Qed.

Lemma with_calls_with_calls l l' ex : with_calls l (with_calls l' ex) = with_calls l ex.
Proof. reflexivity. Qed.

(** The estimation always returns, changes nothing but the log of calls,
    and every amount it requires is positive. *)
Lemma estimate_required_balances_run ex r :
  ∃ required cs,
    _estimate_required_balances calculate_fees r ex
    = (Ok required, with_calls (calls ex ++ cs) ex)
    ∧ map_Forall (λ _ x, dec_ltb dec_zero x = true) required.
Proof.
  unfold _estimate_required_balances, bind, gets, ret, call, modify.
  cbv beta iota zeta.
  assert (Hpos : ∀ m : gmap string Decimal,
             map_Forall (λ _ x, dec_ltb dec_zero x = true)
               (dec_neg <$> filter (λ kv, dec_ltb kv.2 dec_zero = true) m)).
  { intros m s x Hx. apply lookup_negated_negatives in Hx as (a & _ & Ha & ->).
    by apply dec_neg_negative_positive. }
  destruct (size _ =? 2)%nat.
  - eexists _, [_]. split; [reflexivity|apply Hpos].
  - eexists _, []. split; [|apply Hpos]. by rewrite app_nil_r, with_calls_same.
Qed.

(** C6: when some required symbol has less available than required,
    [create_order] raises the insufficient-balance error, which names a
    symbol that is short, the amount required and the amount available;
    and whenever [create_order] raises a user-visible error (validation
    or insufficient balance) the exchange is as it was: the index, the
    balances and the holds are unchanged. *)
Theorem create_order_errors ex r :
  ∃ required ex1,
    _estimate_required_balances calculate_fees r ex = (Ok required, ex1)
    ∧ (validate r (get_pair_info ex (req_pair r)) = None →
       (∃ s x, required !! s = Some x
               ∧ dec_ltb (AccountBalances.get_available_balance (_balances ex) s) x = true) →
       ∃ s x ex',
         required !! s = Some x
         ∧ dec_ltb (AccountBalances.get_available_balance (_balances ex) s) x = true
         ∧ create_order calculate_fees validate uuid4_hex r ex
           = (Raise (Error (NotEnoughAvailable s x
                              (AccountBalances.get_available_balance (_balances ex) s))), ex')
         ∧ with_calls (calls ex) ex' = ex)
    ∧ (∀ msg ex',
         create_order calculate_fees validate uuid4_hex r ex = (Raise (Error msg), ex') →
         with_calls (calls ex) ex' = ex
         ∧ _orders ex' = _orders ex ∧ _balances ex' = _balances ex).
Proof.
  destruct (estimate_required_balances_run ex r) as (required & cs & Hest & Hpos).
  exists required, (with_calls (calls ex ++ cs) ex). split; [done|].
  assert (Hitems : Forall (λ kv : string * Decimal, dec_ltb dec_zero kv.2 = true)
                     (map_to_list required)).
  { apply Forall_forall. intros [s x] Hin. apply elem_of_map_to_list in Hin.
    by apply Hpos in Hin. }
  split.
  - intros Hvalid (s & x & Hs & Hshort).
    destruct (check_items_short (_balances ex) (map_to_list required)
                (with_calls (calls ex ++ cs) ex) Hitems) as (s' & x' & Hin & Hshort' & Hrun).
    { apply Exists_exists. exists (s, x). split; [by apply elem_of_map_to_list|done]. }
    exists s', x', (with_calls (calls ex ++ cs) ex).
    split; [by apply elem_of_map_to_list|]. split; [done|]. split.
    + unfold create_order, bind at 1, gets at 1. fold (get_pair_info ex (req_pair r)).
      rewrite Hvalid. unfold bind at 1. unfold ret at 1.
      unfold bind at 1. rewrite Hest.
      unfold bind at 1. unfold _check_available_balance, bind at 1, gets at 1.
      change (_balances (with_calls (calls ex ++ cs) ex)) with (_balances ex).
      by rewrite Hrun.
    + by rewrite with_calls_with_calls, with_calls_same.
  - intros msg ex'.
    unfold create_order, bind at 1, gets at 1. fold (get_pair_info ex (req_pair r)).
    destruct (validate r (get_pair_info ex (req_pair r))) as [m|].
    + unfold bind, raise. intros [= <- <-]. by rewrite with_calls_same.
    + unfold bind at 1. unfold ret at 1.
      unfold bind at 1. rewrite Hest.
      unfold bind at 1. unfold _check_available_balance, bind at 1, gets at 1.
      change (_balances (with_calls (calls ex ++ cs) ex)) with (_balances ex).
      pose proof (check_items_state (_balances ex) (map_to_list required)
                    (with_calls (calls ex ++ cs) ex)) as Hstate.
      destruct (check_items _ _ _) as [[[]|e] ex2]; simpl in Hstate; subst ex2.
      * cbv [bind gets modify zoom OrderIndex.add_order assert ret raise call].
        destruct (bool_decide _); [|intros [=]].
        destruct (AccountBalances.order_accepted _ _ _); intros [=].
      * intros [= -> <-]. by rewrite with_calls_with_calls, with_calls_same.
Qed.
End Submission.

(** Buying 1000 BTC with 10000 USDT after a close of 105 needs 105000 USDT:
    the request is refused and the exchange is as it was. *)
Lemma create_order_errors_witness :
  Sample.validate (Sample.market_buy 1000)
    (get_pair_info Sample.exchange1 (req_pair (Sample.market_buy 1000))) = None
  ∧ ∃ ex',
      Sample.create (Sample.market_buy 1000) Sample.exchange1
      = (Raise (Error (NotEnoughAvailable "USDT" (mkDecimal 10500000 (-2)) (dec_of_Z 10000))),
         ex')
      ∧ with_calls (calls Sample.exchange1) ex' = Sample.exchange1.
Proof.
  assert (Hvalid : Sample.validate (Sample.market_buy 1000)
            (get_pair_info Sample.exchange1 (req_pair (Sample.market_buy 1000))) = None)
    by (vm_compute; reflexivity).
  split; [exact Hvalid|].
  destruct (create_order_errors Sample.no_fee Sample.validate Sample.uuid4_hex
              Sample.exchange1 (Sample.market_buy 1000))
    as (required & ex1 & Hest & Hshort & Hany).
  assert (Hreq : required !! "USDT" = Some (mkDecimal 10500000 (-2))).
  { vm_compute in Hest. injection Hest as <- _. vm_compute. reflexivity. }
  clear Hest.
  destruct (Hshort Hvalid) as (s & x & ex' & _ & _ & Hrun & Hsame).
  { exists "USDT", (mkDecimal 10500000 (-2)). split; [exact Hreq|]. vm_compute. reflexivity. }
  clear Hshort Hany Hreq. exists ex'. split; [|exact Hsame].
  assert (Hrun' : (Sample.create (Sample.market_buy 1000) Sample.exchange1).1
                  = Raise (Error (NotEnoughAvailable "USDT" (mkDecimal 10500000 (-2))
                                    (dec_of_Z 10000)))) by (vm_compute; reflexivity).
  unfold Sample.create in *. rewrite Hrun in Hrun' |- *. clear Hrun Hsame.
  cbn [fst] in Hrun'. injection Hrun' as -> -> _. vm_compute. reflexivity.
Defined.

(** ** The matching of one order *)

Lemma assert_has_value_ok {S} (balance_updates : gmap string Decimal) symbol sign (s : S) :
  has_value balance_updates symbol sign = true →
  assert_has_value balance_updates symbol sign s = (Ok tt, s).
Proof.
  unfold has_value, assert_has_value. destruct (balance_updates !! symbol) as [v|]; [|done].
  intros [H1 H2]%andb_true_iff. unfold bind, assert. by rewrite H1, H2.
Qed.

Lemma has_value_nonempty (balance_updates : gmap string Decimal) symbol sign :
  has_value balance_updates symbol sign = true → balance_updates ≠ ∅.
Proof. unfold has_value. intros H ->. by rewrite lookup_empty in H. Qed.

Lemma not_filled_id o : id (not_filled o) = id o.
Proof. unfold not_filled. by destruct (kind o). Qed.

Lemma not_filled_amount_filled o : amount_filled (not_filled o) = amount_filled o.
Proof. unfold not_filled. by destruct (kind o). Qed.

Lemma balances_short_iff b order_id (final_updates : gmap string Decimal) :
  balances_short b order_id final_updates = true ↔
  ∃ s u, final_updates !! s = Some u
         ∧ dec_ltb (dec_add (dec_add (AccountBalances.get_available_balance b s)
                                     (AccountBalances.get_balance_on_hold_for_order b order_id s))
                            u) dec_zero = true.
Proof.
  unfold balances_short. rewrite existsb_exists. split.
  - intros ([s u] & Hin & Hlt). exists s, u. split; [|done].
    apply elem_of_map_to_list. by apply list_elem_of_In.
  - intros (s & u & Hs & Hlt). exists (s, u). split; [|done].
    apply list_elem_of_In. by apply elem_of_map_to_list.
Qed.

Section Matching.
Context {L : Type}.
Variable take_liquidity : L → Decimal → L.
Variable calculate_fees : Order → gmap string Decimal → gmap string Decimal.
Variable get_balance_updates : Order → Bar → L → gmap string Decimal.
Implicit Types (ex : Exchange (L := L)) (o : Order) (r : string).

Local Abbreviation store ex := (OrderIndex._orders (_orders ex)).

Lemma deref_ok ex r o : store ex !! r = Some o → deref r ex = (Ok o, ex).
Proof. intros H. unfold deref, bind, gets. by rewrite H. Qed.

Lemma strategy_at_ok ex loc (l : L) : heap ex !! loc = Some l → strategy_at loc ex = (Ok l, ex).
Proof. intros H. unfold strategy_at, bind, gets. by rewrite H. Qed.

Lemma order_not_filled_run ex r o :
  store ex !! r = Some o → order_not_filled r ex = (Ok tt, after_not_filled ex r o).
Proof.
  intros Ho. unfold order_not_filled, after_not_filled.
  cbv [bind mutate modify deref gets call ret]. cbn [_orders with_orders OrderIndex.set_orders OrderIndex._orders].
  rewrite lookup_alter_eq, Ho. cbn [fmap option_fmap option_map].
  rewrite not_filled_id. destruct (is_open (not_filled o)); reflexivity.
Qed.

Lemma bind_ok {S A B} (c : M S A) (k : A → M S B) s a s' :
  c s = (Ok a, s') → bind c k s = k a s'.
Proof. intros H. unfold bind. by rewrite H. Qed.

(** The part of [_process_order] that comes before the affordability
    check: the order is not filled when the rounded updates lack the base or
    the quote entry, otherwise the fees are computed. *)
Lemma process_order_rounded ex r ev loc o (l : L) :
  store ex !! r = Some o → heap ex !! loc = Some l →
  let balance_updates := get_balance_updates o (bar ev) l in
  let base_sign := get_base_sign_for_operation (operation o) in
  has_value balance_updates (base_symbol (pair o)) base_sign = true →
  has_value balance_updates (quote_symbol (pair o)) (dec_neg base_sign) = true →
  let updates := _round_balance_updates ex (pair o) balance_updates in
  _process_order take_liquidity calculate_fees get_balance_updates r ev loc ex =
  if bool_decide (updates !! base_symbol (pair o) = None)
     || bool_decide (updates !! quote_symbol (pair o) = None)
  then order_not_filled r ex
  else
    let fees_ := _round_fees ex (pair o) (calculate_fees o updates) in
    let final := remove_empty_amounts (add_amounts updates fees_) in
    let logged := with_calls (calls ex ++ [CalculateFees o updates]) ex in
    if negb (balances_short (_balances ex) (id o) final) then
      match updates !! base_symbol (bar_pair (bar ev)) with
      | None => (Raise (KeyError (base_symbol (bar_pair (bar ev)))), logged)
      | Some base_amount =>
          (Ok tt,
           with_calls (calls ex ++ [CalculateFees o updates;
                                    TakeLiquidity loc (dec_abs base_amount);
                                    AddFill (id o) updates fees_;
                                    OrderUpdated (id o) final])
             (with_balances
                (AccountBalances.order_updated (_balances ex) (add_fill o updates fees_) final)
                (with_orders
                   (OrderIndex.set_orders (alter (λ o, add_fill o updates fees_) r) (_orders ex))
                   (with_heap (alter (λ l, take_liquidity l (dec_abs base_amount)) loc (heap ex))
                      ex))))
      end
    else order_not_filled r logged.
Proof.
  intros Ho Hl balance_updates base_sign Hb Hq updates.
  unfold _process_order.
  rewrite (bind_ok _ _ _ _ _ (deref_ok _ _ _ Ho)).
  rewrite (bind_ok _ _ _ _ _ (strategy_at_ok _ _ _ Hl)).
  cbv zeta. fold balance_updates.
  rewrite bool_decide_eq_false_2 by (by eapply has_value_nonempty).
  fold base_sign.
  rewrite (bind_ok _ _ _ _ _ (assert_has_value_ok _ _ _ _ Hb)).
  rewrite (bind_ok _ _ _ _ _ (assert_has_value_ok _ _ _ _ Hq)).
  unfold bind at 1, gets at 1. fold updates.
  destruct (bool_decide (updates !! base_symbol (pair o) = None)
            || bool_decide (updates !! quote_symbol (pair o) = None)); [done|].
  unfold bind at 1, call at 1, modify at 1.
  destruct (balances_short _ _ _); cbn [negb]; [done|].
  destruct (updates !! base_symbol (bar_pair (bar ev))) as [base_amount|]; [|done].
  set (fees_ := _round_fees ex (pair o) (calculate_fees o updates)).
  set (final := remove_empty_amounts (add_amounts updates fees_)).
  clearbody final fees_ updates. clear Hb Hq Hl.
  destruct ex as [bal ls [st ol re rc] bes pi dpi lb sp hp uc cl].
  cbv [bind call modify mutate deref gets ret]. simpl in Ho |- *.
  rewrite lookup_alter_eq, Ho. simpl.
  rewrite <- !app_assoc. reflexivity.
Qed.

Lemma after_not_filled_fields ex r o :
  store ex !! r = Some o →
  let ex' := after_not_filled ex r o in
  heap ex' = heap ex
  ∧ store ex' !! r = Some (not_filled o)
  ∧ calls ex' = calls ex ++ NotFilled (id o)
                  :: (if is_open (not_filled o) then [] else [OrderUpdated (id o) ∅])
  ∧ _balances ex' = (if is_open (not_filled o) then _balances ex
                     else AccountBalances.order_updated (_balances ex) (not_filled o) ∅).
Proof.
  intros Ho. unfold after_not_filled.
  destruct (is_open (not_filled o)); cbn.
  - by rewrite lookup_alter_eq, Ho.
  - rewrite lookup_alter_eq, Ho, <- app_assoc. done.
Qed.

(** C1: once the rounded updates and the rounded fees of an open order are
    combined into [final], the order is committed or not according to the
    affordability check.  If for some symbol [s] of [final] the sum
    [available[s] + hold_for_this_order[s] + final[s]] is negative, the
    not-filled path is taken and nothing is committed: the liquidity
    strategy is left alone, the order is changed by [not_filled] only, which
    keeps [amount_filled], and the ledger sees no update but the empty one
    that releases the hold when the order got closed.  Otherwise exactly
    [take_liquidity(|updates[base]|)], [add_fill(updates, fees)] and
    [order_updated(order, final)] happen, in that order. *)
Theorem process_order_affordability ex r ev loc o (l : L) :
  store ex !! r = Some o → heap ex !! loc = Some l →
  pair o = bar_pair (bar ev) →
  let balance_updates := get_balance_updates o (bar ev) l in
  let base_sign := get_base_sign_for_operation (operation o) in
  has_value balance_updates (base_symbol (pair o)) base_sign = true →
  has_value balance_updates (quote_symbol (pair o)) (dec_neg base_sign) = true →
  let updates := _round_balance_updates ex (pair o) balance_updates in
  is_Some (updates !! base_symbol (pair o)) →
  is_Some (updates !! quote_symbol (pair o)) →
  let fees_ := _round_fees ex (pair o) (calculate_fees o updates) in
  let final := remove_empty_amounts (add_amounts updates fees_) in
  let short :=
    ∃ s u, final !! s = Some u
           ∧ dec_ltb (dec_add (dec_add
                        (AccountBalances.get_available_balance (_balances ex) s)
                        (AccountBalances.get_balance_on_hold_for_order (_balances ex) (id o) s))
                        u) dec_zero = true in
  ∃ ex',
    _process_order take_liquidity calculate_fees get_balance_updates r ev loc ex = (Ok tt, ex')
    ∧ (short →
         heap ex' = heap ex
         ∧ store ex' !! r = Some (not_filled o)
         ∧ amount_filled (not_filled o) = amount_filled o
         ∧ calls ex' = calls ex ++ CalculateFees o updates :: NotFilled (id o)
                         :: (if is_open (not_filled o) then [] else [OrderUpdated (id o) ∅])
         ∧ _balances ex' = (if is_open (not_filled o) then _balances ex
                            else AccountBalances.order_updated (_balances ex) (not_filled o) ∅))
    ∧ (¬ short →
         ∃ base_amount,
           updates !! base_symbol (pair o) = Some base_amount
           ∧ calls ex' = calls ex ++ [CalculateFees o updates;
                                      TakeLiquidity loc (dec_abs base_amount);
                                      AddFill (id o) updates fees_;
                                      OrderUpdated (id o) final]
           ∧ heap ex' = alter (λ l, take_liquidity l (dec_abs base_amount)) loc (heap ex)
           ∧ store ex' !! r = Some (add_fill o updates fees_)
           ∧ _balances ex' =
               AccountBalances.order_updated (_balances ex) (add_fill o updates fees_) final).
Proof.
  intros Ho Hl Hpair balance_updates base_sign Hb Hq updates [vb Hvb] [vq Hvq]
    fees_ final short.
  pose proof (process_order_rounded ex r ev loc o l Ho Hl Hb Hq) as Hrun.
  cbv zeta in Hrun. fold balance_updates updates fees_ final in Hrun.
  rewrite Hvb, Hvq in Hrun. rewrite !bool_decide_eq_false_2 in Hrun by done.
  cbn [orb] in Hrun. rewrite <- Hpair, Hvb in Hrun.
  destruct (balances_short (_balances ex) (id o) final) eqn:Hshort; cbn [negb] in Hrun.
  - assert (Hs : short) by (by apply balances_short_iff).
    set (logged := with_calls (calls ex ++ [CalculateFees o updates]) ex) in *.
    rewrite (order_not_filled_run logged r o Ho) in Hrun.
    exists (after_not_filled logged r o). split; [done|]. split; [|done].
    intros _. destruct (after_not_filled_fields logged r o Ho) as (H1 & H2 & H3 & H4).
    split; [done|]. split; [done|]. split; [apply not_filled_amount_filled|].
    split; [|done]. rewrite H3. cbn. by rewrite <- app_assoc.
  - assert (Hs : ¬ short).
    { intros Hs. apply balances_short_iff in Hs. congruence. }
    eexists. split; [exact Hrun|]. split; [done|]. intros _.
    exists vb. split; [done|]. cbn. by rewrite lookup_alter_eq, Ho.
Qed.

(** C3: in the balance updates of an order the base entry is truncated
    toward zero to the base precision and the quote entry is rounded
    half-even to the quote precision, entries that are zero (or round to
    zero) are dropped and the others are kept as they are; when the base or
    the quote entry is gone after rounding the order takes the not-filled
    path, before any fee is computed; a fee in the base or the quote symbol
    is rounded with ROUND_UP to the precision of that symbol and a fee in
    another symbol is left unrounded. *)
Theorem rounding_discipline ex p :
  base_symbol p ≠ quote_symbol p →
  let info := _get_pair_info ex p in
  (∀ m : gmap string Decimal,
     _round_balance_updates ex p m !! base_symbol p
     = m !! base_symbol p ≫= λ a, kept (quantize a (base_precision info) ROUND_DOWN))
  ∧ (∀ m : gmap string Decimal,
       _round_balance_updates ex p m !! quote_symbol p
       = m !! quote_symbol p ≫= λ a, kept (quantize a (quote_precision info) ROUND_HALF_EVEN))
  ∧ (∀ (m : gmap string Decimal) s,
       s ≠ base_symbol p → s ≠ quote_symbol p →
       _round_balance_updates ex p m !! s = m !! s ≫= kept)
  ∧ (∀ r ev loc o (l : L),
       store ex !! r = Some o → pair o = p → heap ex !! loc = Some l →
       let balance_updates := get_balance_updates o (bar ev) l in
       let base_sign := get_base_sign_for_operation (operation o) in
       has_value balance_updates (base_symbol p) base_sign = true →
       has_value balance_updates (quote_symbol p) (dec_neg base_sign) = true →
       let updates := _round_balance_updates ex p balance_updates in
       updates !! base_symbol p = None ∨ updates !! quote_symbol p = None →
       ∃ ex',
         _process_order take_liquidity calculate_fees get_balance_updates r ev loc ex
         = (Ok tt, ex')
         ∧ order_not_filled r ex = (Ok tt, ex')
         ∧ heap ex' = heap ex
         ∧ store ex' !! r = Some (not_filled o)
         ∧ calls ex' = calls ex ++ NotFilled (id o)
                         :: (if is_open (not_filled o) then [] else [OrderUpdated (id o) ∅]))
  ∧ (∀ fees_ : gmap string Decimal,
       _round_fees ex p fees_ !! base_symbol p
       = fees_ !! base_symbol p ≫= λ a, kept (quantize a (base_precision info) ROUND_UP))
  ∧ (∀ fees_ : gmap string Decimal,
       _round_fees ex p fees_ !! quote_symbol p
       = fees_ !! quote_symbol p ≫= λ a, kept (quantize a (quote_precision info) ROUND_UP))
  ∧ (∀ (fees_ : gmap string Decimal) s,
       s ≠ base_symbol p → s ≠ quote_symbol p →
       _round_fees ex p fees_ !! s = fees_ !! s ≫= kept).
Proof.
  intros Hne info.
  split; [intros m; by apply round_balance_updates_base|].
  split; [intros m; by apply round_balance_updates_quote|].
  split; [intros m s; by apply round_balance_updates_other|].
  split.
  - intros r ev loc o l Ho <- Hl balance_updates base_sign Hb Hq updates Hgone.
    pose proof (process_order_rounded ex r ev loc o l Ho Hl Hb Hq) as Hrun.
    cbv zeta in Hrun. fold balance_updates updates in Hrun.
    assert (bool_decide (updates !! base_symbol (pair o) = None)
            || bool_decide (updates !! quote_symbol (pair o) = None) = true) as Hb'.
    { destruct Hgone as [Hg|Hg]; rewrite (bool_decide_eq_true_2 _ Hg);
        [reflexivity|apply orb_true_r]. }
    rewrite Hb' in Hrun. rewrite (order_not_filled_run ex r o Ho) in Hrun.
    exists (after_not_filled ex r o). split; [done|].
    split; [by apply order_not_filled_run|].
    destruct (after_not_filled_fields ex r o Ho) as (H1 & H2 & H3 & _).
    split; [exact H1|]. split; [exact H2|exact H3].
  - split; [|split].
    + intros fees_. rewrite round_fees_lookup.
      destruct (fees_ !! base_symbol p) as [a|]; [cbn [mbind option_bind]|done].
      rewrite decide_False by done. by rewrite decide_True by done.
    + intros fees_. rewrite round_fees_lookup.
      destruct (fees_ !! quote_symbol p) as [a|]; [cbn [mbind option_bind]|done].
      by rewrite decide_True by done.
    + intros fees_ s Hb Hq. rewrite round_fees_lookup.
      destruct (fees_ !! s) as [a|]; [cbn [mbind option_bind]|done].
      by rewrite !decide_False by done.
Qed.
End Matching.

(** Matching the open market order for 10 BTC against [bar2], whose open is
    100: 1000.00 USDT and a fee of 2.50 USDT fit the 1052.63 USDT on hold,
    so the fill is committed and the order completes. *)
Lemma process_order_affordability_witness :
  OrderIndex._orders (_orders Sample.exchange_with_order) !! "5f0c" = Some Sample.order_5f0c
  ∧ ∃ ex',
      Sample.process_order "5f0c" (mkBarEvent Sample.bar2) 0%nat Sample.exchange_with_order
      = (Ok tt, ex')
      ∧ (state <$> OrderIndex._orders (_orders ex') !! "5f0c") = Some COMPLETED
      ∧ (Sample.available_liquidity <$> heap ex' !! 0%nat) = Some (mkDecimal 24000000000 (-8))
      ∧ length (calls ex') = (length (calls Sample.exchange_with_order) + 4)%nat.
Proof.
  assert (Ho : OrderIndex._orders (_orders Sample.exchange_with_order) !! "5f0c"
               = Some Sample.order_5f0c) by (vm_compute; reflexivity).
  split; [exact Ho|].
  destruct (process_order_affordability Sample.take_liquidity Sample.quote_fee
              Sample.get_balance_updates Sample.exchange_with_order "5f0c"
              (mkBarEvent Sample.bar2) 0%nat Sample.order_5f0c
              (Sample.on_bar (Sample.factory tt) Sample.bar2) Ho)
    as (ex' & Hrun & _ & Hcommit).
  - vm_compute. reflexivity.
  - reflexivity.
  - vm_compute. reflexivity.
  - vm_compute. reflexivity.
  - eexists. vm_compute. reflexivity.
  - eexists. vm_compute. reflexivity.
  - exists ex'. split; [exact Hrun|]. clear Hrun Ho.
    destruct Hcommit as (base_amount & Hbase & Hcalls & Hheap & Hstore & _).
    + intros Hs. apply balances_short_iff in Hs. vm_compute in Hs. discriminate Hs.
    + vm_compute in Hbase. injection Hbase as <-.
      rewrite Hstore, Hheap, Hcalls. clear Hstore Hheap Hcalls.
      split; [vm_compute; reflexivity|]. split; [vm_compute; reflexivity|].
      rewrite length_app. reflexivity.
Defined.

(** Against [bar3], whose open is 2000, the same order would cost 20000
    USDT: the balance is short, the market order cancels itself and its
    hold is released by an empty update. *)
Example process_order_short :
  let ex' := (Sample.process_order "5f0c" (mkBarEvent Sample.bar3) 0%nat
                (with_heap [Sample.on_bar (Sample.factory tt) Sample.bar3]
                   Sample.exchange_with_order)).2 in
  (state <$> OrderIndex._orders (_orders ex') !! "5f0c") = Some CANCELED
  ∧ (amount_filled <$> OrderIndex._orders (_orders ex') !! "5f0c") = Some dec_zero
  ∧ drop 3 (calls ex') = [NotFilled "5f0c"; OrderUpdated "5f0c" ∅].
Proof. vm_compute. split; [reflexivity|split; reflexivity]. Qed.

(** C1, as stated, fails for a market order that is short: the not-filled
    path cancels the order and calls [order_updated(order, {})], which gives
    the hold of the order back.  The order is not filled and no liquidity is
    taken, yet the ledger is updated for that order on that bar: 1052.63
    USDT go from its hold to the available balance. *)
Lemma process_order_short_counterexample :
  let ex := with_heap [Sample.on_bar (Sample.factory tt) Sample.bar3]
              Sample.exchange_with_order in
  let o := Sample.order_5f0c in
  let updates :=
    _round_balance_updates ex (pair o)
      (Sample.get_balance_updates o Sample.bar3 (Sample.on_bar (Sample.factory tt) Sample.bar3)) in
  let final :=
    remove_empty_amounts
      (add_amounts updates (_round_fees ex (pair o) (Sample.quote_fee o updates))) in
  let run := Sample.process_order "5f0c" (mkBarEvent Sample.bar3) 0%nat ex in
  OrderIndex._orders (_orders ex) !! "5f0c" = Some o
  ∧ is_open o = true
  ∧ balances_short (_balances ex) (id o) final = true
  ∧ run.1 = Ok tt
  ∧ heap run.2 = heap ex
  ∧ (amount_filled <$> OrderIndex._orders (_orders run.2) !! "5f0c") = Some (amount_filled o)
  ∧ AccountBalances.get_available_balance (_balances ex) "USDT" = mkDecimal 894737 (-2)
  ∧ AccountBalances.get_balance_on_hold_for_order (_balances ex) "5f0c" "USDT"
    = mkDecimal 105263 (-2)
  ∧ AccountBalances.get_available_balance (_balances run.2) "USDT" = mkDecimal 1000000 (-2)
  ∧ AccountBalances.get_balance_on_hold_for_order (_balances run.2) "5f0c" "USDT" = dec_zero
  ∧ _balances run.2 ≠ _balances ex.
Proof.
  cbv zeta.
  split; [vm_compute; reflexivity|]. split; [vm_compute; reflexivity|].
  split; [vm_compute; reflexivity|]. split; [vm_compute; reflexivity|].
  split; [vm_compute; reflexivity|]. split; [vm_compute; reflexivity|].
  split; [vm_compute; reflexivity|]. split; [vm_compute; reflexivity|].
  split; [vm_compute; reflexivity|]. split; [vm_compute; reflexivity|].
  intros Heq.
  assert (Hav : AccountBalances.get_available_balance
                  (_balances (Sample.process_order "5f0c" (mkBarEvent Sample.bar3) 0%nat
                                (with_heap [Sample.on_bar (Sample.factory tt) Sample.bar3]
                                   Sample.exchange_with_order)).2) "USDT"
                = mkDecimal 894737 (-2)).
  { rewrite Heq. vm_compute. reflexivity. }
  clear Heq. vm_compute in Hav. discriminate Hav.
Qed.

(** With precisions 8 and 2: 1.234567899 BTC is cut to 1.23456789, the tie
    -123.465 USDT goes to the even -123.46, a zero entry disappears, and a
    fee of -2.625 USDT is rounded away from zero to -2.63. *)
Lemma rounding_discipline_witness :
  base_symbol Sample.btc_usdt ≠ quote_symbol Sample.btc_usdt
  ∧ let m : gmap string Decimal :=
      {[ "BTC" := mkDecimal 1234567899 (-9); "USDT" := mkDecimal (-123465) (-3);
         "ETH" := mkDecimal 0 (-3) ]} in
    _round_balance_updates Sample.exchange1 Sample.btc_usdt m !! "BTC"
    = Some (mkDecimal 123456789 (-8))
    ∧ _round_balance_updates Sample.exchange1 Sample.btc_usdt m !! "USDT"
      = Some (mkDecimal (-12346) (-2))
    ∧ _round_balance_updates Sample.exchange1 Sample.btc_usdt m !! "ETH" = None
    ∧ _round_fees Sample.exchange1 Sample.btc_usdt {[ "USDT" := mkDecimal (-2625) (-3) ]}
      !! "USDT" = Some (mkDecimal (-263) (-2)).
Proof.
  assert (H : base_symbol Sample.btc_usdt ≠ quote_symbol Sample.btc_usdt)
    by (vm_compute; discriminate).
  split; [exact H|]. intros m.
  destruct (rounding_discipline Sample.take_liquidity Sample.quote_fee
              Sample.get_balance_updates Sample.exchange1 Sample.btc_usdt H)
    as (Hbase & Hquote & Hother & _ & _ & Hfee & _).
  split; [refine (eq_trans (Hbase m) _); vm_compute; reflexivity|].
  split; [refine (eq_trans (Hquote m) _); vm_compute; reflexivity|].
  split.
  - refine (eq_trans (Hother m "ETH" _ _) _);
      [vm_compute; discriminate | vm_compute; discriminate | vm_compute; reflexivity].
  - refine (eq_trans (Hfee _) _). vm_compute. reflexivity.
Defined.

(** ** The generator of open orders *)


Section GeneratorProperties.
Context {State : Type}.
Variable index : State → OrderIndex.t.
Variable with_index : OrderIndex.t → State → State.
Variable body : string → M State unit.

(** The index is a component of the consumer's state. *)
Hypothesis index_with_index : ∀ i s, index (with_index i s) = i.
(** The loop body, whether it returns or raises, leaves the list and the
    counter of the index alone, *)
Hypothesis body_frame : ∀ r s,
  OrderIndex._open_orders (index (body r s).2) = OrderIndex._open_orders (index s)
  ∧ OrderIndex._reindex_counter (index (body r s).2) = OrderIndex._reindex_counter (index s).
(** and changes no order but the one it was handed. *)
Hypothesis body_local : ∀ r s r',
  r' ≠ r →
  OrderIndex._orders (index (body r s).2) !! r' = OrderIndex._orders (index s) !! r'.

Local Abbreviation open_now s := (λ r, OrderIndex.is_open_ref (index s) r = true).



End GeneratorProperties.

(** [add_order] appends: the list of open orders is in insertion order, and
    it stays free of duplicates and of dangling references. *)
Lemma add_order_appends order idx idx' :
  OrderIndex.add_order order idx = (Ok tt, idx') →
  OrderIndex._orders idx !! id order = None
  ∧ OrderIndex._orders idx' = <[id order := order]> (OrderIndex._orders idx)
  ∧ OrderIndex._open_orders idx' =
      OrderIndex._open_orders idx ++ (if is_open order then [id order] else []).
Proof.
  unfold OrderIndex.add_order. cbv [bind gets assert modify ret raise].
  destruct (bool_decide _) eqn:Hfresh; [|discriminate].
  apply bool_decide_eq_true in Hfresh. intros [= <-]. cbn.
  split; [done|]. split; [done|]. destruct (is_open order); [done|by rewrite app_nil_r].
Qed.

Lemma index_wf_init : index_wf OrderIndex.init.
Proof. split; [constructor|]. intros r Hr. by apply elem_of_nil in Hr. Qed.

Lemma add_order_wf order idx idx' :
  index_wf idx → OrderIndex.add_order order idx = (Ok tt, idx') → index_wf idx'.
Proof.
  intros [Hnd Hin] Hadd. apply add_order_appends in Hadd as (Hfresh & Hst & Hl).
  unfold index_wf. rewrite Hst, Hl. destruct (is_open order).
  - split.
    + apply NoDup_app. split; [done|]. split; [|apply NoDup_singleton].
      intros r Hr Hr'. apply list_elem_of_singleton in Hr' as ->.
      apply Hin in Hr as [o Ho]. congruence.
    + intros r [Hr|Hr]%elem_of_app.
      * destruct (decide (r = id order)) as [->|Hne]; [by rewrite lookup_insert_eq|].
        rewrite lookup_insert_ne by done. by apply Hin.
      * apply list_elem_of_singleton in Hr as ->. by rewrite lookup_insert_eq.
  - rewrite app_nil_r. split; [done|]. intros r Hr.
    destruct (decide (r = id order)) as [->|Hne]; [by rewrite lookup_insert_eq|].
    rewrite lookup_insert_ne by done. by apply Hin.
Qed.

(** ** What a computation preserves *)

Section Preserves.
Context {State : Type} (R : relation State) `{!PreOrder R}.

Lemma preserves_ret {A} (a : A) : preserves R (ret a).
Proof. intros s. reflexivity. Qed.

Lemma preserves_raise {A} e : preserves R (raise (A := A) e).
Proof. intros s. reflexivity. Qed.

Lemma preserves_gets {A} (f : State → A) : preserves R (gets f).
Proof. intros s. reflexivity. Qed.

Lemma preserves_assert b msg : preserves R (assert b msg).
Proof. destruct b; [apply preserves_ret|apply preserves_raise]. Qed.

Lemma preserves_modify (f : State → State) : (∀ s, R s (f s)) → preserves R (modify f).
Proof. intros H s. apply H. Qed.

Lemma preserves_bind {A B} (c : M State A) (k : A → M State B) :
  preserves R c → (∀ a, preserves R (k a)) → preserves R (bind c k).
Proof.
  intros Hc Hk s. unfold bind. specialize (Hc s).
  destruct (c s) as [[a|e] s']; simpl in *; [|done].
  etrans; [exact Hc|apply Hk].
Qed.

Variable index : State → OrderIndex.t.
Variable with_index : OrderIndex.t → State → State.
Variable body : string → M State unit.
Hypothesis tick_preserves : ∀ s, R s (with_index (OrderIndex.tick (index s)) s).
Hypothesis set_open_orders_preserves :
  ∀ l s, R s (with_index (OrderIndex.set_open_orders l (index s)) s).
Hypothesis body_preserves : ∀ r, preserves R (body r).

Lemma iterate_preserves refs : ∀ new, preserves R (OrderIndex.iterate index body refs new).
Proof.
  induction refs as [|r refs IH]; intros new; [apply preserves_ret|].
  cbn [OrderIndex.iterate]. apply preserves_bind; [apply preserves_gets|]. intros idx.
  destruct (OrderIndex._orders idx !! r) as [order|]; [|apply IH].
  destruct (is_open order); [|apply IH].
  apply preserves_bind; [apply body_preserves|]. intros _.
  apply preserves_bind; [apply preserves_gets|]. intros idx'.
  apply preserves_bind; [apply IH|]. intros [new' ys]. apply preserves_ret.
Qed.

Lemma get_open_orders_preserves :
  preserves R (OrderIndex.get_open_orders index with_index body).
Proof.
  unfold OrderIndex.get_open_orders.
  apply preserves_bind; [by apply preserves_modify|]. intros _.
  apply preserves_bind; [apply preserves_gets|]. intros idx.
  apply preserves_bind; [apply iterate_preserves|]. intros [new' ys].
  apply preserves_bind; [|intros _; apply preserves_ret].
  destruct new'; [by apply preserves_modify|apply preserves_ret].
Qed.
End Preserves.

(** ** What the matching preserves *)

Lemma keeps_closed_not_filled : keeps_closed not_filled.
Proof. intros o Ho. unfold not_filled. by destruct (kind o). Qed.

Lemma keeps_closed_cancel : keeps_closed cancel.
Proof. by intros o Ho. Qed.

Lemma keeps_closed_add_fill updates fees_ : keeps_closed (λ o, add_fill o updates fees_).
Proof.
  intros o Ho. unfold add_fill, is_open in *. cbn.
  destruct (dec_eqb _ _); [done|]. exact Ho.
Qed.

Section MatchingPreserves.
Context {L : Type}.
Variable liquidity_strategy_factory : unit → L.
Variable on_bar : L → Bar → L.
Variable take_liquidity : L → Decimal → L.
Variable calculate_fees : Order → gmap string Decimal → gmap string Decimal.
Variable get_balance_updates : Order → Bar → L → gmap string Decimal.
Variable R : relation (Exchange (L := L)).
Context `{!PreOrder R}.

(** A relation between exchanges that holds across a call to a
    collaborator other than a push, *)
Hypothesis R_call : ∀ c ex, is_push c = false → R ex (with_calls (calls ex ++ [c]) ex).
(** across a change of the liquidity strategy objects and of the ledger, *)
Hypothesis R_heap : ∀ h ex, R ex (with_heap h ex).
Hypothesis R_balances : ∀ b ex, R ex (with_balances b ex).

Lemma R_deref r : preserves R (deref r).
Proof.
  unfold deref. apply (preserves_bind R); [apply (preserves_gets R)|]. intros ex.
  destruct (_ !! r); [apply (preserves_ret R)|apply (preserves_raise R)].
Qed.

Lemma R_strategy_at loc : preserves R (strategy_at loc).
Proof.
  unfold strategy_at. apply (preserves_bind R); [apply (preserves_gets R)|]. intros ex.
  destruct (_ !! loc); [apply (preserves_ret R)|apply (preserves_raise R)].
Qed.

Lemma R_assert_has_value (m : gmap string Decimal) symbol sign :
  preserves R (assert_has_value m symbol sign).
Proof.
  unfold assert_has_value. destruct (m !! symbol); [|apply (preserves_raise R)].
  apply (preserves_bind R); [apply (preserves_assert R)|intros _; apply (preserves_assert R)].
Qed.

Lemma R_call_preserves c : is_push c = false → preserves R (call c).
Proof. intros Hc ex. by apply R_call. Qed.

Section OneOrder.
(** and across the mutation of the order behind [r] by a method that cannot
    reopen it. *)
Variable r : string.
Hypothesis R_mutate : ∀ f ex,
  keeps_closed f → R ex (with_orders (OrderIndex.set_orders (alter f r) (_orders ex)) ex).

Lemma R_mutate_preserves f : keeps_closed f → preserves R (mutate r f).
Proof. intros Hf ex. by apply R_mutate. Qed.

Lemma order_not_filled_preserves : preserves R (order_not_filled r).
Proof.
  unfold order_not_filled.
  apply (preserves_bind R); [apply R_mutate_preserves, keeps_closed_not_filled|intros _].
  apply (preserves_bind R); [apply R_deref|intros order].
  apply (preserves_bind R); [by apply R_call_preserves|intros _].
  destruct (negb _); [|apply (preserves_ret R)].
  apply (preserves_bind R); [|intros _; by apply R_call_preserves].
  apply (preserves_modify R). intros ex. apply R_balances.
Qed.

Lemma process_order_preserves ev loc :
  preserves R (_process_order take_liquidity calculate_fees get_balance_updates r ev loc).
Proof.
  unfold _process_order.
  apply (preserves_bind R); [apply R_deref|intros order].
  apply (preserves_bind R); [apply R_strategy_at|intros strategy].
  cbv zeta. destruct (bool_decide _); [apply order_not_filled_preserves|].
  apply (preserves_bind R); [apply R_assert_has_value|intros _].
  apply (preserves_bind R); [apply R_assert_has_value|intros _].
  apply (preserves_bind R); [apply (preserves_gets R)|intros ex].
  destruct (_ || _); [apply order_not_filled_preserves|].
  apply (preserves_bind R); [by apply R_call_preserves|intros _].
  destruct (negb _); [|apply order_not_filled_preserves].
  destruct (_ !! _); [|apply (preserves_raise R)].
  apply (preserves_bind R); [apply (preserves_modify R); intros ?; apply R_heap|intros _].
  apply (preserves_bind R); [by apply R_call_preserves|intros _].
  apply (preserves_bind R); [apply R_mutate_preserves, keeps_closed_add_fill|intros _].
  apply (preserves_bind R); [by apply R_call_preserves|intros _].
  apply (preserves_bind R); [apply R_deref|intros order'].
  apply (preserves_bind R); [apply (preserves_modify R); intros ?; apply R_balances|intros _].
  by apply R_call_preserves.
Qed.
End OneOrder.

(** When the relation also holds across the bookkeeping of the generator,
    it holds across the matching of a bar. *)
Hypothesis R_mutate_any : ∀ r f ex,
  keeps_closed f → R ex (with_orders (OrderIndex.set_orders (alter f r) (_orders ex)) ex).
Hypothesis R_tick : ∀ ex, R ex (with_orders (OrderIndex.tick (_orders ex)) ex).
Hypothesis R_set_open_orders :
  ∀ l ex, R ex (with_orders (OrderIndex.set_open_orders l (_orders ex)) ex).

Lemma matching_loop_preserves ev loc :
  preserves R
    (OrderIndex.get_open_orders _orders with_orders
       (λ r, let* o := deref r in
             if bool_decide (pair o = bar_pair (bar ev))
             then _process_order take_liquidity calculate_fees get_balance_updates r ev loc
             else ret tt);;
     ret tt).
Proof.
  apply (preserves_bind R); [|intros _; apply (preserves_ret R)].
  apply (get_open_orders_preserves R); [apply R_tick|apply R_set_open_orders|].
  intros r. apply (preserves_bind R); [apply R_deref|intros o].
  destruct (bool_decide _); [|apply (preserves_ret R)].
  apply process_order_preserves. apply R_mutate_any.
Qed.

Lemma process_orders_preserves ev :
  preserves R (_process_orders liquidity_strategy_factory on_bar take_liquidity
                 calculate_fees get_balance_updates ev).
Proof.
  unfold _process_orders. cbv zeta.
  apply (preserves_bind R); [apply (preserves_gets R)|intros ex].
  apply (preserves_bind R).
  { destruct (_ !! _); [apply (preserves_ret R)|].
    apply (preserves_bind R); [apply (preserves_modify R); intros ?; apply R_heap|intros _].
    apply (preserves_bind R); [by apply R_call_preserves|intros _]. apply (preserves_ret R). }
  intros loc.
  apply (preserves_bind R); [apply (preserves_modify R); intros ?; apply R_heap|intros _].
  apply (preserves_bind R); [by apply R_call_preserves|intros _].
  apply matching_loop_preserves.
Qed.
End MatchingPreserves.

(** ** The matching of a bar and what it leaves alone *)

Section Frame.
Context {L : Type}.
Variable liquidity_strategy_factory : unit → L.
Variable on_bar : L → Bar → L.
Variable take_liquidity : L → Decimal → L.
Variable calculate_fees : Order → gmap string Decimal → gmap string Decimal.
Variable get_balance_updates : Order → Bar → L → gmap string Decimal.
Implicit Types (ex : Exchange (L := L)).

#[local] Instance matching_frame_preorder : PreOrder (matching_frame (L := L)).
Proof.
  split.
  - intros ex. repeat split. exists []. by rewrite app_nil_r.
  - intros ex1 ex2 ex3 (H1 & H2 & H3 & cs & Hcs & Hp) (H1' & H2' & H3' & cs' & Hcs' & Hp').
    split; [congruence|]. split; [congruence|]. split; [congruence|].
    exists (cs ++ cs'). split; [by rewrite Hcs', Hcs, app_assoc|by apply Forall_app].
Qed.

Lemma matching_frame_same ex ex' :
  _bar_event_source ex' = _bar_event_source ex →
  _last_bars ex' = _last_bars ex →
  _liquidity_strategies ex' = _liquidity_strategies ex →
  calls ex' = calls ex →
  matching_frame ex ex'.
Proof.
  intros H1 H2 H3 H4. split; [done|]. split; [done|]. split; [done|].
  exists []. by rewrite app_nil_r.
Qed.

Lemma frame_process_orders ev :
  preserves matching_frame
    (_process_orders liquidity_strategy_factory on_bar take_liquidity calculate_fees
       get_balance_updates ev).
Proof.
  apply (process_orders_preserves _ _ _ _ _ matching_frame).
  - intros c ex Hc. repeat split. exists [c]. split; [done|by constructor].
  - intros h ex. by apply matching_frame_same.
  - intros b ex. by apply matching_frame_same.
  - intros r f ex _. by apply matching_frame_same.
  - intros ex. by apply matching_frame_same.
  - intros l ex. by apply matching_frame_same.
Qed.

#[local] Instance index_frame_preorder r : PreOrder (index_frame (L := L) r).
Proof.
  split.
  - intros ex. by repeat split.
  - intros ex1 ex2 ex3 (H1 & H2 & H3) (H1' & H2' & H3').
    split; [congruence|]. split; [congruence|]. intros r' Hr'.
    by rewrite H3', H3.
Qed.

(** The loop body of [_process_orders] leaves the list and the counter of
    the index alone and mutates no order but the one it was handed. *)
Lemma matching_body_index_frame ev loc r :
  preserves (index_frame r)
    (let* o := deref r in
     if bool_decide (pair o = bar_pair (bar ev))
     then _process_order take_liquidity calculate_fees get_balance_updates r ev loc
     else ret tt).
Proof.
  assert (Hsame : ∀ ex ex' : Exchange (L := L),
             _orders ex' = _orders ex → index_frame r ex ex').
  { intros ex ex' H. unfold index_frame. by rewrite H. }
  apply (preserves_bind (index_frame r)).
  - apply (R_deref (index_frame r)).
  - intros o. destruct (bool_decide _); [|apply (preserves_ret (index_frame r))].
    apply (process_order_preserves _ _ _ (index_frame r)).
    + intros c ex _. by apply Hsame.
    + intros h ex. by apply Hsame.
    + intros b ex. by apply Hsame.
    + intros f ex _. split; [done|]. split; [done|]. intros r' Hr'. cbn.
      by apply lookup_alter_ne.
Qed.

Lemma on_bar_event_unfold ex ev :
  _on_bar_event liquidity_strategy_factory on_bar take_liquidity calculate_fees
    get_balance_updates ev ex =
  let p := bar_pair (bar ev) in
  match _process_orders liquidity_strategy_factory on_bar take_liquidity calculate_fees
          get_balance_updates ev (with_last_bars (<[p := bar ev]> (_last_bars ex)) ex) with
  | (Ok _, m) =>
      match _bar_event_source m !! p with
      | Some queue =>
          (Ok tt, with_calls (calls m ++ [Push ev])
                    (with_bar_event_source (<[p := queue ++ [ev]]> (_bar_event_source m)) m))
      | None => (Ok tt, m)
      end
  | (Raise e, m) => (Raise e, m)
  end.
Proof.
  unfold _on_bar_event. cbv zeta. unfold bind at 1, modify at 1. unfold bind at 1.
  destruct (_process_orders _ _ _ _ _ _ _) as [[[]|e] m]; [|done].
  unfold bind at 1, gets at 1. by destruct (_ !! _).
Qed.


(** The dictionary of liquidity strategies is read by the matching loop and
    never written: from a dictionary without a strategy for the pair, every
    bar calls the factory for a new object and leaves the dictionary as it
    was. *)
Lemma process_orders_calls_factory ex ev :
  _liquidity_strategies ex !! bar_pair (bar ev) = None →
  let ex' := (_process_orders liquidity_strategy_factory on_bar take_liquidity
                calculate_fees get_balance_updates ev ex).2 in
  _liquidity_strategies ex' = _liquidity_strategies ex
  ∧ ∃ cs, calls ex' = calls ex ++ FactoryCall (length (heap ex))
                        :: OnBar (length (heap ex)) (bar ev) :: cs.
Proof.
  intros Hnone ex'.
  destruct (frame_process_orders ev ex) as (_ & _ & Hdict & _). split; [done|].
  subst ex'. unfold _process_orders. cbv zeta.
  unfold bind at 1, gets at 1. rewrite Hnone.
  unfold bind at 1. unfold bind at 1, modify at 1. unfold bind at 1, call at 1, modify at 1.
  unfold ret at 1. unfold bind at 1, modify at 1. unfold bind at 1, call at 1, modify at 1.
  match goal with |- context [bind ?c ?k ?s] =>
    assert (Hrest : preserves matching_frame (bind c k)); [|specialize (Hrest s)] end.
  { apply (matching_loop_preserves _ _ _ matching_frame).
    - intros c ex0 Hc. repeat split. exists [c]. split; [done|by constructor].
    - intros h ex0. by apply matching_frame_same.
    - intros b ex0. by apply matching_frame_same.
    - intros r f ex0 _. by apply matching_frame_same.
    - intros ex0. by apply matching_frame_same.
    - intros l ex0. by apply matching_frame_same. }
  destruct Hrest as (_ & _ & _ & cs & Hcs & _). exists cs.
  rewrite Hcs. cbn. by rewrite <- !app_assoc.
Qed.
End Frame.


(** ** A closed order stays closed *)

Section Closed.
Context {L : Type}.
Variable liquidity_strategy_factory : unit → L.
Variable on_bar : L → Bar → L.
Variable take_liquidity : L → Decimal → L.
Variable calculate_fees : Order → gmap string Decimal → gmap string Decimal.
Variable get_balance_updates : Order → Bar → L → gmap string Decimal.
Variable validate : ExchangeOrder → PairInfo → option string.
Variable uuid4_hex : nat → string.
Implicit Types (ex : Exchange (L := L)).

Local Abbreviation store ex := (OrderIndex._orders (_orders ex)).

#[local] Instance stays_closed_preorder r : PreOrder (stays_closed (L := L) r).
Proof.
  split.
  - intros ex H. exact H.
  - intros ex1 ex2 ex3 H12 H23 H. by apply H23, H12.
Qed.

Lemma stays_closed_same r ex ex' : store ex' = store ex → stays_closed r ex ex'.
Proof. intros H Hc. by rewrite H. Qed.

Lemma stays_closed_alter r0 r f ex :
  keeps_closed f →
  stays_closed r0 ex (with_orders (OrderIndex.set_orders (alter f r) (_orders ex)) ex).
Proof.
  intros Hf (o & Ho & Hc). cbn. destruct (decide (r = r0)) as [->|Hne].
  - exists (f o). rewrite lookup_alter_eq, Ho. split; [done|by apply Hf].
  - exists o. by rewrite lookup_alter_ne.
Qed.

Lemma process_orders_stays_closed r ev :
  preserves (stays_closed r)
    (_process_orders liquidity_strategy_factory on_bar take_liquidity calculate_fees
       get_balance_updates ev).
Proof.
  apply (process_orders_preserves _ _ _ _ _ (stays_closed r)).
  - intros c ex _. by apply stays_closed_same.
  - intros h ex. by apply stays_closed_same.
  - intros b ex. by apply stays_closed_same.
  - intros r' f ex Hf. by apply stays_closed_alter.
  - intros ex. by apply stays_closed_same.
  - intros l ex. by apply stays_closed_same.
Qed.

Lemma on_bar_event_stays_closed r ev :
  preserves (stays_closed r)
    (_on_bar_event liquidity_strategy_factory on_bar take_liquidity calculate_fees
       get_balance_updates ev).
Proof.
  intros ex. rewrite on_bar_event_unfold. cbv zeta.
  set (cached := with_last_bars _ ex).
  pose proof (process_orders_stays_closed r ev cached) as Hm.
  assert (Hc : stays_closed r ex cached) by (by apply stays_closed_same).
  destruct (_process_orders _ _ _ _ _ ev cached) as [[[]|e] m]; cbn [fst snd] in *.
  - destruct (_ !! _); cbn [snd].
    + etrans; [exact Hc|]. etrans; [exact Hm|]. by apply stays_closed_same.
    + etrans; [exact Hc|exact Hm].
  - etrans; [exact Hc|exact Hm].
Qed.

Lemma cancel_order_stays_closed r order_id : preserves (stays_closed r) (cancel_order (L := L) order_id).
Proof.
  intros ex. unfold cancel_order. cbv [bind gets raise OrderIndex.get_order].
  destruct (store ex !! order_id) as [order|]; [|reflexivity].
  destruct (negb _); [reflexivity|].
  cbv [mutate deref modify call ret bind gets]. cbn [_orders with_orders].
  set (ex1 := with_orders _ ex).
  assert (H1 : stays_closed r ex ex1) by (apply stays_closed_alter, keeps_closed_cancel).
  destruct (OrderIndex._orders _ !! order_id); cbn [snd]; [|exact H1].
  etrans; [exact H1|]. by apply stays_closed_same.
Qed.

Lemma create_order_stays_closed r order_request :
  preserves (stays_closed r) (create_order (L := L) calculate_fees validate uuid4_hex order_request).
Proof.
  intros ex. unfold create_order, bind at 1, gets at 1.
  destruct (validate _ _); [reflexivity|].
  unfold bind at 1. unfold ret at 1. unfold bind at 1.
  destruct (estimate_required_balances_run calculate_fees ex order_request)
    as (required & cs & -> & _).
  unfold bind at 1. unfold _check_available_balance, bind at 1, gets at 1.
  pose proof (check_items_state (_balances (with_calls (calls ex ++ cs) ex))
                (map_to_list required) (with_calls (calls ex ++ cs) ex)) as Hstate.
  destruct (check_items _ _ _) as [[[]|e] ex2]; cbn [snd] in Hstate; subst ex2;
    [|by apply stays_closed_same].
  cbv [bind gets modify zoom OrderIndex.add_order assert ret raise call].
  cbn [_orders with_uuid_calls with_calls].
  destruct (bool_decide _) eqn:Hfresh; [|by apply stays_closed_same].
  apply bool_decide_eq_true in Hfresh.
  assert (Hins : ∀ ex' : Exchange (L := L),
            store ex' = <[id (request_create_order order_request (uuid4_hex (uuid_calls ex)))
                          := request_create_order order_request (uuid4_hex (uuid_calls ex))]>
                          (store ex) →
            stays_closed r ex ex').
  { intros ex' Hst (o & Ho & Hc). exists o. split; [|done]. rewrite Hst.
    rewrite lookup_insert_ne; [done|]. intros Heq. subst r. cbn in Ho, Hfresh. congruence. }
  destruct (AccountBalances.order_accepted _ _ _); by apply Hins.
Qed.

Lemma perform_stays_closed r op ex :
  stays_closed r ex
    (perform liquidity_strategy_factory on_bar take_liquidity calculate_fees
       get_balance_updates validate uuid4_hex op ex).
Proof.
  destruct op; cbn [perform].
  - apply create_order_stays_closed.
  - apply cancel_order_stays_closed.
  - apply on_bar_event_stays_closed.
  - unfold subscribe_to_bar_events. destruct (_ !! _); by apply stays_closed_same.
  - by apply stays_closed_same.
Qed.

Lemma session_stays_closed r ops : ∀ ex,
  stays_closed r ex
    (session liquidity_strategy_factory on_bar take_liquidity calculate_fees
       get_balance_updates validate uuid4_hex ops ex).
Proof.
  induction ops as [|op ops IH]; intros ex; [reflexivity|].
  cbn [session foldl]. etrans; [apply (perform_stays_closed r op)|apply IH].
Qed.

(** C7: [cancel_order] raises the not-found error for an unknown id and
    the illegal-state error for an order that is not open.  Otherwise it
    sets the state of the order to CANCELED and calls
    [order_updated(order, {})], which leaves nothing on hold for the order.
    After that a second [cancel_order] on the same id raises the
    illegal-state error, at once and after whatever the strategy and the
    dispatcher do to the exchange in between. *)
Theorem cancel_order_spec ex order_id :
  match store ex !! order_id with
  | None => cancel_order order_id ex = (Raise (Error OrderNotFound), ex)
  | Some order =>
      if is_open order then
        ∃ ex',
          cancel_order order_id ex = (Ok order_id, ex')
          ∧ store ex' !! order_id = Some (set_state CANCELED order)
          ∧ _balances ex' =
              AccountBalances.order_updated (_balances ex) (set_state CANCELED order) ∅
          ∧ (∀ s, AccountBalances.get_balance_on_hold_for_order
                    (_balances ex') (id order) s = dec_zero)
          ∧ calls ex' = calls ex ++ [OrderUpdated (id order) ∅]
          ∧ cancel_order order_id ex'
            = (Raise (Error (OrderCantBeCanceled order_id CANCELED)), ex')
          ∧ ∀ ops,
              let later :=
                session liquidity_strategy_factory on_bar take_liquidity calculate_fees
                  get_balance_updates validate uuid4_hex ops ex' in
              ∃ st, st ≠ OPEN
                    ∧ cancel_order order_id later
                      = (Raise (Error (OrderCantBeCanceled order_id st)), later)
      else
        cancel_order order_id ex
        = (Raise (Error (OrderCantBeCanceled order_id (state order))), ex)
  end.
Proof.
  pose proof (cancel_order_cases ex order_id) as Hcases.
  destruct (store ex !! order_id) as [order|]; [|exact Hcases].
  destruct (is_open order); [|exact Hcases].
  destruct Hcases as (ex' & Hrun & Hst & Hbal & Hhold & Hcalls & Hagain).
  exists ex'. do 6 (split; [assumption|]).
  intros ops later.
  destruct (session_stays_closed order_id ops ex') as (o' & Ho' & Hclosed).
  { exists (set_state CANCELED order). by split. }
  fold later in Ho'.
  pose proof (cancel_order_cases later order_id) as Hlater.
  rewrite Ho', Hclosed in Hlater.
  exists (state o'). split; [|exact Hlater].
  intros Hopen. unfold is_open in Hclosed. by rewrite Hopen in Hclosed.
Qed.
End Closed.

(** ** Scenarios *)

(** In the first scenario the order placed after [bar1] is matched on
    [bar2] before [bar2] is forwarded: the events are pushed last, and the
    balances show the fill, 9000.00 USDT and 10 BTC. *)
Example on_bar_event_scenario :
  is_push <$> calls Sample.scenario1
  = [false; false; true; false; false; false; false; false; false; false; false; true]
  ∧ last (calls Sample.scenario1) = Some (Push (mkBarEvent Sample.bar2))
  ∧ _bar_event_source Sample.scenario1 !! Sample.btc_usdt
    = Some [mkBarEvent Sample.bar1; mkBarEvent Sample.bar2]
  ∧ AccountBalances.get_available_balance (_balances Sample.scenario1) "USDT"
    = mkDecimal 900000 (-2)
  ∧ AccountBalances.get_available_balance (_balances Sample.scenario1) "BTC"
    = mkDecimal 1000000000 (-8).
Proof. vm_compute. repeat split; reflexivity. Qed.

(** C2 fails on the code: the strategy built for a pair is never stored in
    [_liquidity_strategies].  After two bars of the same pair the factory
    has been called twice, each bar was handed to a different object, and
    the dictionary is still empty. *)
Theorem liquidity_strategy_built_on_every_bar :
  calls Sample.two_bars
  = [FactoryCall 0; OnBar 0 Sample.bar1; FactoryCall 1; OnBar 1 Sample.bar2]
  ∧ _liquidity_strategies Sample.two_bars = ∅
  ∧ length (heap Sample.two_bars) = 2%nat.
Proof. vm_compute. repeat split; reflexivity. Qed.

(** * Further properties *)

(** ** The dictionary of the index *)

(** X1: [add_order] refuses an order whose id is already in the index, with
    an assertion error and without changing the index; otherwise the order
    can be read back under its id with [get_order], the other ids read as
    before, and the id goes to the end of the list of open orders if the
    order is open. *)
Theorem add_order_get_order order idx :
  match OrderIndex.get_order idx (id order) with
  | Some _ =>
      OrderIndex.add_order order idx
      = (Raise (AssertionError "order.id not in self._orders"), idx)
  | None =>
      ∃ idx',
        OrderIndex.add_order order idx = (Ok tt, idx')
        ∧ OrderIndex.get_order idx' (id order) = Some order
        ∧ (∀ r, r ≠ id order → OrderIndex.get_order idx' r = OrderIndex.get_order idx r)
        ∧ OrderIndex._open_orders idx' =
            OrderIndex._open_orders idx ++ (if is_open order then [id order] else [])
        ∧ OrderIndex._reindex_counter idx' = OrderIndex._reindex_counter idx
  end.
Proof.
  unfold OrderIndex.get_order, OrderIndex.add_order.
  cbv [bind gets assert modify ret raise].
  destruct (OrderIndex._orders idx !! id order) as [o|] eqn:Ho.
  - rewrite bool_decide_eq_false_2 by done. reflexivity.
  - rewrite bool_decide_eq_true_2 by done. eexists. split; [reflexivity|]. cbn.
    split; [apply lookup_insert_eq|]. split; [|split; [|done]].
    + intros r Hr. by rewrite lookup_insert_ne.
    + destruct (is_open order); [done|by rewrite app_nil_r].
Qed.

(** ** How the index grows *)

Lemma index_grown_refl idx : index_grown idx idx.
Proof. intros r. destruct (OrderIndex._orders idx !! r) as [o|] eqn:Ho; [|done]. by exists o. Qed.

Lemma index_grown_trans idx1 idx2 idx3 :
  index_grown idx1 idx2 → index_grown idx2 idx3 → index_grown idx1 idx3.
Proof.
  intros H12 H23 r. specialize (H12 r). specialize (H23 r).
  destruct (OrderIndex._orders idx1 !! r) as [o|].
  - destruct H12 as (o2 & Ho2 & Hid & Hpair & Hc). rewrite Ho2 in H23.
    destruct H23 as (o3 & Ho3 & Hid' & Hpair' & Hc'). exists o3.
    split; [done|]. split; [congruence|]. split; [congruence|]. auto.
  - by rewrite H12 in H23.
Qed.

Lemma index_grown_same idx idx' :
  OrderIndex._orders idx' = OrderIndex._orders idx → index_grown idx idx'.
Proof.
  intros H r. rewrite H. destruct (OrderIndex._orders idx !! r) as [o|]; [|done].
  by exists o.
Qed.

Lemma index_aged_refl idx : index_aged idx idx.
Proof. split; [apply index_grown_refl|done]. Qed.

Lemma index_aged_trans idx1 idx2 idx3 :
  index_aged idx1 idx2 → index_aged idx2 idx3 → index_aged idx1 idx3.
Proof.
  intros (H1 & H2 & H3 & H4) (H1' & H2' & H3' & H4').
  split; [by eapply index_grown_trans|]. split; [congruence|]. split; congruence.
Qed.

(** A mutation in place that keeps the id and the pair and cannot reopen. *)
Lemma index_aged_alter f r idx :
  (∀ o, id (f o) = id o ∧ pair (f o) = pair o ∧ (is_open o = false → is_open (f o) = false)) →
  index_aged idx (OrderIndex.set_orders (alter f r) idx).
Proof.
  intros Hf. split; [|done]. intros r'. cbn.
  destruct (decide (r' = r)) as [->|Hne].
  - rewrite lookup_alter_eq. destruct (OrderIndex._orders idx !! r) as [o|]; [|done].
    exists (f o). split; [done|]. apply Hf.
  - rewrite lookup_alter_ne by done.
    destruct (OrderIndex._orders idx !! r') as [o|]; [|done]. by exists o.
Qed.

Lemma order_method_not_filled : order_method not_filled.
Proof. by left. Qed.

Lemma order_method_add_fill updates fees_ : order_method (λ o, add_fill o updates fees_).
Proof. right. by exists updates, fees_. Qed.

Lemma order_method_keeps f o :
  order_method f →
  id (f o) = id o ∧ pair (f o) = pair o ∧ (is_open o = false → is_open (f o) = false).
Proof.
  intros [->|(u & fe & ->)].
  - split; [apply not_filled_id|]. split; [|apply keeps_closed_not_filled].
    unfold not_filled. by destruct (kind o).
  - split; [done|]. split; [done|]. apply (keeps_closed_add_fill u fe).
Qed.

Lemma cancel_keeps o :
  id (cancel o) = id o ∧ pair (cancel o) = pair o
  ∧ (is_open o = false → is_open (cancel o) = false).
Proof. done. Qed.

(** The invariant of the index goes over to an index that has grown from it
    and whose list is the same or was rebuilt from the open orders. *)
Lemma index_inv_step idx idx' :
  index_inv idx → index_grown idx idx' →
  OrderIndex._open_orders idx' = OrderIndex._open_orders idx
  ∨ (OrderIndex._open_orders idx' `sublist_of` OrderIndex._open_orders idx
     ∧ ∀ r, r ∈ OrderIndex._open_orders idx → OrderIndex.is_open_ref idx' r = true →
            r ∈ OrderIndex._open_orders idx') →
  index_inv idx'.
Proof.
  intros ((Hnd & Hdang) & Hids & Hopen) Hg Hlist.
  assert (Hback : ∀ r o', OrderIndex._orders idx' !! r = Some o' →
            ∃ o, OrderIndex._orders idx !! r = Some o ∧ id o' = id o
                 ∧ (is_open o' = true → is_open o = true)).
  { intros r o' Ho'. specialize (Hg r).
    destruct (OrderIndex._orders idx !! r) as [o|]; [|congruence].
    destruct Hg as (o'' & Ho'' & Hid & _ & Hc). exists o. split; [done|].
    assert (o'' = o') as -> by congruence. split; [done|].
    intros Hop. destruct (is_open o) eqn:Ho; [done|]. rewrite Hc in Hop; done. }
  assert (Hsub : OrderIndex._open_orders idx' `sublist_of` OrderIndex._open_orders idx).
  { destruct Hlist as [->|[Hs _]]; done. }
  split; [split|split].
  - by eapply sublist_NoDup.
  - intros r Hr. apply (elem_of_sublist _ _ _ Hr) in Hsub. apply Hdang in Hsub as [o Ho].
    specialize (Hg r). rewrite Ho in Hg. destruct Hg as (o' & Ho' & _). by exists o'.
  - intros r o' Ho'. destruct (Hback r o' Ho') as (o & Ho & Hid & _).
    rewrite Hid. by eapply Hids.
  - intros r o' Ho' Hop. destruct (Hback r o' Ho') as (o & Ho & _ & Hmono).
    assert (Hin : r ∈ OrderIndex._open_orders idx) by (eapply Hopen; eauto).
    destruct Hlist as [->|[_ Hcompl]]; [done|]. apply Hcompl; [done|].
    unfold OrderIndex.is_open_ref. by rewrite Ho'.
Qed.

Lemma index_inv_init : index_inv OrderIndex.init.
Proof.
  split; [apply index_wf_init|]. split; intros r o Ho; cbn in Ho; by rewrite lookup_empty in Ho.
Qed.

Lemma add_order_inv order idx idx' :
  index_inv idx → OrderIndex.add_order order idx = (Ok tt, idx') → index_inv idx'.
Proof.
  intros (Hwf & Hids & Hopen) Hadd. split; [by eapply add_order_wf|].
  apply add_order_appends in Hadd as (Hfresh & Hst & Hl). rewrite Hst, Hl.
  split.
  - intros r o Ho. destruct (decide (r = id order)) as [->|Hne].
    + rewrite lookup_insert_eq in Ho. congruence.
    + rewrite lookup_insert_ne in Ho by done. by eapply Hids.
  - intros r o Ho Hop. apply elem_of_app. destruct (decide (r = id order)) as [->|Hne].
    + rewrite lookup_insert_eq in Ho. injection Ho as <-. right. rewrite Hop. by left.
    + rewrite lookup_insert_ne in Ho by done. left. by eapply Hopen.
Qed.

(** ** What the two order methods of the matching preserve *)

Section MethodsPreserve.
Context {L : Type}.
Variable liquidity_strategy_factory : unit → L.
Variable on_bar : L → Bar → L.
Variable take_liquidity : L → Decimal → L.
Variable calculate_fees : Order → gmap string Decimal → gmap string Decimal.
Variable get_balance_updates : Order → Bar → L → gmap string Decimal.
Variable R : relation (Exchange (L := L)).
Context `{!PreOrder R}.

(** A relation that holds across every change of the log, of the liquidity
    strategy objects and of the ledger, *)
Hypothesis R_log : ∀ c ex, R ex (with_calls (calls ex ++ [c]) ex).
Hypothesis R_objects : ∀ h ex, R ex (with_heap h ex).
Hypothesis R_ledger : ∀ b ex, R ex (with_balances b ex).
(** and across [not_filled] and [add_fill] on the order behind [r]. *)
Variable r : string.
Hypothesis R_method : ∀ f ex,
  order_method f → R ex (with_orders (OrderIndex.set_orders (alter f r) (_orders ex)) ex).

Lemma method_deref r' : preserves R (deref r').
Proof.
  unfold deref. apply (preserves_bind R); [apply (preserves_gets R)|]. intros ex.
  destruct (_ !! r'); [apply (preserves_ret R)|apply (preserves_raise R)].
Qed.

Lemma method_log c : preserves R (call c).
Proof. intros ex. apply R_log. Qed.

Lemma method_order_not_filled : preserves R (order_not_filled r).
Proof.
  unfold order_not_filled.
  apply (preserves_bind R); [intros ex; apply R_method, order_method_not_filled|intros _].
  apply (preserves_bind R); [apply method_deref|intros order].
  apply (preserves_bind R); [apply method_log|intros _].
  destruct (negb _); [|apply (preserves_ret R)].
  apply (preserves_bind R); [|intros _; apply method_log].
  apply (preserves_modify R). intros ex. apply R_ledger.
Qed.

Lemma method_process_order ev loc :
  preserves R (_process_order take_liquidity calculate_fees get_balance_updates r ev loc).
Proof.
  unfold _process_order.
  apply (preserves_bind R); [apply method_deref|intros order].
  apply (preserves_bind R).
  { unfold strategy_at. apply (preserves_bind R); [apply (preserves_gets R)|]. intros ex.
    destruct (_ !! loc); [apply (preserves_ret R)|apply (preserves_raise R)]. }
  intros strategy. cbv zeta.
  assert (Hassert : ∀ (m : gmap string Decimal) symbol sign,
            preserves R (assert_has_value m symbol sign)).
  { intros m symbol sign. unfold assert_has_value.
    destruct (m !! symbol); [|apply (preserves_raise R)].
    apply (preserves_bind R); [apply (preserves_assert R)|intros _; apply (preserves_assert R)]. }
  destruct (bool_decide _); [apply method_order_not_filled|].
  apply (preserves_bind R); [apply Hassert|intros _].
  apply (preserves_bind R); [apply Hassert|intros _].
  apply (preserves_bind R); [apply (preserves_gets R)|intros ex].
  destruct (_ || _); [apply method_order_not_filled|].
  apply (preserves_bind R); [apply method_log|intros _].
  destruct (negb _); [|apply method_order_not_filled].
  destruct (_ !! _); [|apply (preserves_raise R)].
  apply (preserves_bind R); [apply (preserves_modify R); intros ?; apply R_objects|intros _].
  apply (preserves_bind R); [apply method_log|intros _].
  apply (preserves_bind R); [intros ?; apply R_method, order_method_add_fill|intros _].
  apply (preserves_bind R); [apply method_log|intros _].
  apply (preserves_bind R); [apply method_deref|intros order'].
  apply (preserves_bind R); [apply (preserves_modify R); intros ?; apply R_ledger|intros _].
  apply method_log.
Qed.

(** The loop body of [_process_orders]. *)
Lemma method_matching_body ev loc :
  preserves R
    (let* o := deref r in
     if bool_decide (pair o = bar_pair (bar ev))
     then _process_order take_liquidity calculate_fees get_balance_updates r ev loc
     else ret tt).
Proof.
  apply (preserves_bind R); [apply method_deref|intros o].
  destruct (bool_decide _); [apply method_process_order|apply (preserves_ret R)].
Qed.
End MethodsPreserve.

Section Ageing.
Context {L : Type}.
Variable take_liquidity : L → Decimal → L.
Variable calculate_fees : Order → gmap string Decimal → gmap string Decimal.
Variable get_balance_updates : Order → Bar → L → gmap string Decimal.

#[local] Instance exchange_aged_preorder : PreOrder (exchange_aged (L := L)).
Proof.
  split; [intros ex; apply index_aged_refl|].
  intros ex1 ex2 ex3. apply index_aged_trans.
Qed.

(** The loop body of the matching ages the index and nothing else of it. *)
Lemma matching_body_ages ev loc r :
  preserves exchange_aged
    (let* o := deref r in
     if bool_decide (pair o = bar_pair (bar ev))
     then _process_order take_liquidity calculate_fees get_balance_updates r ev loc
     else ret tt).
Proof.
  apply (method_matching_body _ _ _ exchange_aged).
  - intros c ex. apply index_aged_refl.
  - intros h ex. apply index_aged_refl.
  - intros b ex. apply index_aged_refl.
  - intros f ex Hf. apply index_aged_alter. intros o. by apply order_method_keeps.
Qed.
End Ageing.

(** ** The generator on an index that ages *)

Section GeneratorGrowth.
Context {State : Type}.
Variable index : State → OrderIndex.t.
Variable with_index : OrderIndex.t → State → State.
Variable body : string → M State unit.

Hypothesis index_with_index : ∀ i s, index (with_index i s) = i.
(** The loop body, whether it returns or raises, ages the index. *)
Hypothesis body_ages : ∀ r s, index_aged (index s) (index (body r s).2).

Lemma is_open_ref_grown idx idx' r :
  index_grown idx idx' → OrderIndex.is_open_ref idx' r = true →
  OrderIndex.is_open_ref idx r = true.
Proof.
  intros Hg. unfold OrderIndex.is_open_ref. specialize (Hg r).
  destruct (OrderIndex._orders idx !! r) as [o|].
  - destruct Hg as (o' & -> & _ & _ & Hc). intros Ho'.
    destruct (is_open o); [done|]. by rewrite Hc in Ho'.
  - by rewrite Hg.
Qed.

Lemma iterate_ages refs : ∀ new s out s',
  OrderIndex.iterate index body refs new s = (out, s') →
  index_aged (index s) (index s')
  ∧ match out with
    | Ok (new', ys) =>
        match new with
        | Some l =>
            ∃ l', new' = Some (l ++ l')
                  ∧ l' `sublist_of` refs
                  ∧ ∀ r, r ∈ refs → OrderIndex.is_open_ref (index s') r = true → r ∈ l'
        | None => new' = None
        end
    | Raise _ => True
    end.
Proof.
  induction refs as [|r refs IH]; intros new s out s' Hrun.
  - cbn in Hrun. injection Hrun as <- <-.
    split; [apply index_aged_refl|]. destruct new as [l|]; [|done].
    exists []. rewrite app_nil_r. split; [done|]. split; [done|].
    intros r Hr. by apply elem_of_nil in Hr.
  - cbn [OrderIndex.iterate] in Hrun. unfold bind at 1, gets at 1 in Hrun.
    assert (Hskip : OrderIndex.is_open_ref (index s) r = false →
      OrderIndex.iterate index body refs new s = (out, s') →
      index_aged (index s) (index s')
      ∧ match out with
        | Ok (new', ys) =>
            match new with
            | Some l =>
                ∃ l', new' = Some (l ++ l')
                      ∧ l' `sublist_of` r :: refs
                      ∧ ∀ r', r' ∈ r :: refs →
                          OrderIndex.is_open_ref (index s') r' = true → r' ∈ l'
            | None => new' = None
            end
        | Raise _ => True
        end).
    { intros Hclosed Hrun'. destruct (IH new s out s' Hrun') as [Hag Hres].
      split; [done|]. destruct out as [[new' ys]|e]; [|done].
      destruct new as [l|]; [|done]. destruct Hres as (l' & -> & Hsub & Hall).
      exists l'. split; [done|]. split; [by apply sublist_cons|].
      intros r' [->|Hr']%elem_of_cons Hopen; [|by apply Hall].
      apply (is_open_ref_grown (index s)) in Hopen; [congruence|apply Hag]. }
    destruct (OrderIndex._orders (index s) !! r) as [order|] eqn:Ho;
      [destruct (is_open order) eqn:Hopen|].
    + clear Hskip. pose proof (body_ages r s) as Hb. unfold bind at 1 in Hrun.
      destruct (body r s) as [[[]|e] s1]; cbn [snd] in Hb.
      2:{ injection Hrun as <- <-. by split. }
      unfold bind at 1, gets at 1 in Hrun.
      set (new1 := match new with
                   | Some l => if OrderIndex.is_open_ref (index s1) r
                               then Some (l ++ [r]) else Some l
                   | None => None
                   end) in Hrun.
      unfold bind in Hrun.
      destruct (OrderIndex.iterate index body refs new1 s1) as [out2 s2] eqn:Hrun2.
      destruct (IH new1 s1 out2 s2 Hrun2) as [Hag Hres].
      destruct out2 as [[new' ys]|e]; injection Hrun as <- <-;
        (split; [by eapply index_aged_trans|]); [|done].
      subst new1. destruct new as [l|]; [|done].
      destruct (OrderIndex.is_open_ref (index s1) r) eqn:Ho1.
      * destruct Hres as (l' & -> & Hsub & Hall). exists (r :: l').
        split; [by rewrite <- app_assoc|]. split; [by apply sublist_skip|].
        intros r' [->|Hr']%elem_of_cons Hop; [by left|]. right. by apply Hall.
      * destruct Hres as (l' & -> & Hsub & Hall). exists l'.
        split; [done|]. split; [by apply sublist_cons|].
        intros r' [->|Hr']%elem_of_cons Hop; [|by apply Hall].
        apply (is_open_ref_grown (index s1)) in Hop; [congruence|apply Hag].
    + apply Hskip; [|done]. unfold OrderIndex.is_open_ref. by rewrite Ho.
    + apply Hskip; [|done]. unfold OrderIndex.is_open_ref. by rewrite Ho.
Qed.

(** Whatever the outcome of the iteration, the index has grown and its list
    is the old one or a rebuilt one that misses no open order. *)
Lemma get_open_orders_grows s :
  let s' := (OrderIndex.get_open_orders index with_index body s).2 in
  index_grown (index s) (index s')
  ∧ (OrderIndex._open_orders (index s') = OrderIndex._open_orders (index s)
     ∨ (OrderIndex._open_orders (index s') `sublist_of` OrderIndex._open_orders (index s)
        ∧ ∀ r, r ∈ OrderIndex._open_orders (index s) →
               OrderIndex.is_open_ref (index s') r = true →
               r ∈ OrderIndex._open_orders (index s'))).
Proof.
  intros s'. subst s'.
  destruct (OrderIndex.get_open_orders index with_index body s) as [out s'] eqn:Hrun.
  cbn [snd]. unfold OrderIndex.get_open_orders in Hrun.
  unfold bind at 1, modify at 1 in Hrun.
  unfold bind at 1, gets at 1 in Hrun. rewrite index_with_index in Hrun.
  set (s0 := with_index (OrderIndex.tick (index s)) s) in Hrun.
  assert (H0 : index_aged (OrderIndex.tick (index s)) (index s0))
    by (subst s0; rewrite index_with_index; apply index_aged_refl).
  assert (Ht : index_grown (index s) (OrderIndex.tick (index s))
               ∧ OrderIndex._open_orders (OrderIndex.tick (index s))
                 = OrderIndex._open_orders (index s)).
  { split; [by apply index_grown_same|done]. }
  destruct Ht as [Htg Htl].
  unfold bind at 1 in Hrun.
  match type of Hrun with
  | context [OrderIndex.iterate index body ?refs ?new s0] =>
      set (new0 := new) in Hrun;
      destruct (OrderIndex.iterate index body refs new0 s0) as [out1 s1] eqn:Hrun1
  end.
  rewrite Htl in Hrun1.
  destruct (iterate_ages _ _ _ _ _ Hrun1) as [Hag Hres].
  assert (Hg : index_grown (index s) (index s1)).
  { eapply index_grown_trans; [exact Htg|]. eapply index_grown_trans; [apply H0|apply Hag]. }
  assert (Hl : OrderIndex._open_orders (index s1) = OrderIndex._open_orders (index s)).
  { destruct Hag as (_ & -> & _). destruct H0 as (_ & -> & _). exact Htl. }
  destruct out1 as [[new' ys]|e].
  2:{ injection Hrun as <- <-. split; [done|by left]. }
  destruct new' as [l'|].
  - unfold bind, modify, ret in Hrun. injection Hrun as <- <-.
    rewrite index_with_index. cbn [OrderIndex.set_open_orders OrderIndex._open_orders
      OrderIndex._orders]. 
    destruct new0 as [l|] eqn:Hn0.
    + destruct Hres as (l'' & [= ->] & Hsub & Hall).
      assert (l = []) as ->.
      { subst new0. destruct (_ =? _)%nat; congruence. }
      cbn [app]. split.
      * eapply index_grown_trans; [exact Hg|]. by apply index_grown_same.
      * right. split; [done|]. intros r Hr Hop. apply Hall; [done|]. exact Hop.
    + discriminate Hres.
  - unfold bind, ret in Hrun. injection Hrun as <- <-. split; [done|by left].
Qed.

Lemma get_open_orders_keeps_inv s :
  index_inv (index s) →
  index_inv (index (OrderIndex.get_open_orders index with_index body s).2).
Proof.
  intros Hinv. destruct (get_open_orders_grows s) as [Hg Hl].
  by eapply index_inv_step.
Qed.
End GeneratorGrowth.

(** ** The invariant of the index across the operations of the exchange *)

Section IndexInvariant.
Context {L : Type}.
Variable liquidity_strategy_factory : unit → L.
Variable on_bar : L → Bar → L.
Variable take_liquidity : L → Decimal → L.
Variable calculate_fees : Order → gmap string Decimal → gmap string Decimal.
Variable get_balance_updates : Order → Bar → L → gmap string Decimal.
Variable validate : ExchangeOrder → PairInfo → option string.
Variable uuid4_hex : nat → string.
Implicit Types (ex : Exchange (L := L)).

(** The matching of a bar is the iteration over the open orders, run on an
    exchange that differs from the given one in no more than the heap of
    liquidity strategies and the log. *)
Lemma process_orders_unfold ev ex :
  ∃ loc ex0,
    _orders ex0 = _orders ex ∧ _balances ex0 = _balances ex
    ∧ _pairs_info ex0 = _pairs_info ex ∧ _last_bars ex0 = _last_bars ex
    ∧ _bar_event_source ex0 = _bar_event_source ex
    ∧ _process_orders liquidity_strategy_factory on_bar take_liquidity calculate_fees
        get_balance_updates ev ex
      = (OrderIndex.get_open_orders _orders with_orders
           (λ r, let* o := deref r in
                 if bool_decide (pair o = bar_pair (bar ev))
                 then _process_order take_liquidity calculate_fees get_balance_updates r ev loc
                 else ret tt);;
         ret tt) ex0.
Proof.
  unfold _process_orders. cbv zeta. unfold bind at 1, gets at 1.
  destruct (_liquidity_strategies ex !! bar_pair (bar ev)) as [loc|].
  - exists loc.
    exists (call (OnBar loc (bar ev))
              (with_heap (alter (λ l, on_bar l (bar ev)) loc (heap ex)) ex)).2.
    by repeat split.
  - exists (length (heap ex)).
    set (ex1 := (call (FactoryCall (length (heap ex)))
                   (with_heap (heap ex ++ [liquidity_strategy_factory tt]) ex)).2).
    exists (call (OnBar (length (heap ex)) (bar ev))
              (with_heap (alter (λ l, on_bar l (bar ev)) (length (heap ex)) (heap ex1))
                 ex1)).2.
    by repeat split.
Qed.

Lemma process_orders_index_inv ev ex :
  index_inv (_orders ex) →
  index_inv (_orders (_process_orders liquidity_strategy_factory on_bar take_liquidity
                        calculate_fees get_balance_updates ev ex).2).
Proof.
  intros Hinv. destruct (process_orders_unfold ev ex) as (loc & ex0 & Ho & _ & _ & _ & _ & ->).
  rewrite <- Ho in Hinv. unfold bind at 1.
  match goal with
  | |- context [OrderIndex.get_open_orders _orders with_orders ?b ex0] =>
      pose proof (get_open_orders_keeps_inv _orders with_orders b (λ _ _, eq_refl)
                    (λ r s, matching_body_ages take_liquidity calculate_fees
                              get_balance_updates ev loc r s) ex0 Hinv) as Hk;
      destruct (OrderIndex.get_open_orders _orders with_orders b ex0) as [[ys|e] ex1]
  end; exact Hk.
Qed.

Lemma on_bar_event_index_inv ev ex :
  index_inv (_orders ex) →
  index_inv (_orders (_on_bar_event liquidity_strategy_factory on_bar take_liquidity
                        calculate_fees get_balance_updates ev ex).2).
Proof.
  intros Hinv. rewrite on_bar_event_unfold. cbv zeta.
  set (cached := with_last_bars _ ex).
  pose proof (process_orders_index_inv ev cached Hinv) as Hm.
  destruct (_process_orders _ _ _ _ _ ev cached) as [[[]|e] m]; cbn [fst snd] in *;
    [|exact Hm].
  destruct (_ !! _); exact Hm.
Qed.

Lemma cancel_order_index_inv order_id ex :
  index_inv (_orders ex) → index_inv (_orders (cancel_order order_id ex).2).
Proof.
  intros Hinv. unfold cancel_order. cbv [bind gets raise OrderIndex.get_order].
  destruct (OrderIndex._orders (_orders ex) !! order_id) as [order|]; [|exact Hinv].
  destruct (negb _); [exact Hinv|].
  cbv [mutate deref modify call ret bind gets]. cbn [_orders with_orders].
  assert (H1 : index_inv (OrderIndex.set_orders (alter cancel order_id) (_orders ex))).
  { pose proof (index_aged_alter cancel order_id (_orders ex) cancel_keeps)
      as (Hg & Hl & _).
    eapply index_inv_step; [exact Hinv|exact Hg|by left]. }
  destruct (OrderIndex._orders _ !! order_id); exact H1.
Qed.

Lemma create_order_index_inv order_request ex :
  index_inv (_orders ex) →
  index_inv (_orders (create_order calculate_fees validate uuid4_hex order_request ex).2).
Proof.
  intros Hinv. unfold create_order, bind at 1, gets at 1.
  destruct (validate _ _); [exact Hinv|].
  unfold bind at 1. unfold ret at 1. unfold bind at 1.
  destruct (estimate_required_balances_run calculate_fees ex order_request)
    as (required & cs & -> & _).
  unfold bind at 1. unfold _check_available_balance, bind at 1, gets at 1.
  pose proof (check_items_state (_balances (with_calls (calls ex ++ cs) ex))
                (map_to_list required) (with_calls (calls ex ++ cs) ex)) as Hstate.
  destruct (check_items _ _ _) as [[[]|e] ex2]; cbn [snd] in Hstate; subst ex2;
    [|exact Hinv].
  unfold bind at 1, gets at 1. unfold bind at 1, modify at 1.
  unfold bind at 1, zoom at 1. cbn [_orders with_uuid_calls with_calls].
  pose proof (add_order_inv (request_create_order order_request (uuid4_hex (uuid_calls ex)))
                (_orders ex)) as Hadd.
  destruct (OrderIndex.add_order _ (_orders ex)) as [[[]|e] idx'] eqn:Hrun.
  - specialize (Hadd idx' Hinv eq_refl).
    cbv [bind gets modify ret raise call].
    destruct (AccountBalances.order_accepted _ _ _); exact Hadd.
  - cbn. unfold OrderIndex.add_order in Hrun. cbv [bind assert ret raise modify gets] in Hrun.
    destruct (bool_decide _); [discriminate Hrun|]. injection Hrun as _ <-. exact Hinv.
Qed.

Lemma perform_index_inv op ex :
  index_inv (_orders ex) →
  index_inv (_orders (perform liquidity_strategy_factory on_bar take_liquidity
                        calculate_fees get_balance_updates validate uuid4_hex op ex)).
Proof.
  intros Hinv. destruct op; cbn [perform].
  - by apply create_order_index_inv.
  - by apply cancel_order_index_inv.
  - by apply on_bar_event_index_inv.
  - unfold subscribe_to_bar_events. by destruct (_ !! _).
  - exact Hinv.
Qed.

Lemma session_index_inv ops : ∀ ex,
  index_inv (_orders ex) →
  index_inv (_orders (session liquidity_strategy_factory on_bar take_liquidity
                        calculate_fees get_balance_updates validate uuid4_hex ops ex)).
Proof.
  induction ops as [|op ops IH]; intros ex Hinv; [exact Hinv|].
  cbn [session foldl]. apply IH. by apply perform_index_inv.
Qed.
End IndexInvariant.

(** X2: in every state that the exchange reaches from its construction,
    by any sequence of order submissions, cancellations, bar events,
    subscriptions and pair settings, whether they return or raise, the
    order index is consistent: its list of open orders has no duplicate and
    no reference to an order that is not stored, every order is stored under
    its own id, and every open order is in the list, so that the periodic
    rebuilding of the list never loses an open order. *)
Theorem index_invariant {L} (liquidity_strategy_factory : unit → L) on_bar take_liquidity
    calculate_fees get_balance_updates validate uuid4_hex
    initial_balances default_pair_info bid_ask_spread ops :
  let ex := session liquidity_strategy_factory on_bar take_liquidity calculate_fees
              get_balance_updates validate uuid4_hex ops
              (init initial_balances default_pair_info bid_ask_spread) in
  let idx := _orders ex in
  NoDup (OrderIndex._open_orders idx)
  ∧ (∀ r, r ∈ OrderIndex._open_orders idx → is_Some (OrderIndex._orders idx !! r))
  ∧ (∀ r o, OrderIndex._orders idx !! r = Some o → id o = r)
  ∧ (∀ r o, OrderIndex._orders idx !! r = Some o → is_open o = true →
            r ∈ OrderIndex._open_orders idx).
Proof.
  intros ex idx.
  assert (Hinv : index_inv idx).
  { apply session_index_inv. apply index_inv_init. }
  destruct Hinv as ((Hnd & Hdang) & Hids & Hopen). by repeat split.
Qed.

(** ** Listing the open orders *)

Lemma list_filter_filter {A} (f : A → bool) (l : list A) :
  List.filter f l = filter (λ x, f x = true) l.
Proof.
  induction l as [|x l IH]; [done|]. cbn [List.filter].
  destruct (f x) eqn:Hx.
  - rewrite filter_cons_True by done. by rewrite IH.
  - rewrite filter_cons_False; [done|]. by rewrite Hx.
Qed.

Section IdleGenerator.
Context {State : Type}.
Variable index : State → OrderIndex.t.

(** With a consumer that changes nothing the iteration yields the open
    orders of the list, as they are stored, and changes nothing either. *)
Lemma iterate_idle refs : ∀ new s,
  ∃ ys,
    OrderIndex.iterate index (λ _, ret tt) refs new s
    = (Ok ((λ l, l ++ filter (λ r, OrderIndex.is_open_ref (index s) r = true) refs) <$> new,
           ys), s)
    ∧ ys.*1 = filter (λ r, OrderIndex.is_open_ref (index s) r = true) refs
    ∧ Forall (λ y, OrderIndex._orders (index s) !! y.1 = Some y.2) ys.
Proof.
  induction refs as [|r refs IH]; intros new s.
  - exists []. split; [|done]. cbn. destruct new; cbn; [by rewrite app_nil_r|done].
  - cbn [OrderIndex.iterate]. unfold bind at 1, gets at 1.
    destruct (OrderIndex._orders (index s) !! r) as [order|] eqn:Ho;
      [destruct (is_open order) eqn:Hopen|].
    + assert (Hr : OrderIndex.is_open_ref (index s) r = true).
      { unfold OrderIndex.is_open_ref. by rewrite Ho. }
      unfold bind at 1, ret at 1. unfold bind at 1, gets at 1. rewrite Hr.
      destruct (IH (match new with Some l => Some (l ++ [r]) | None => None end) s)
        as (ys & Hrun & Hys & Hall).
      exists ((r, order) :: ys). unfold bind. rewrite Hrun. cbn [ret].
      rewrite filter_cons_True by done. split; [|split].
      * destruct new as [l|]; cbn; [by rewrite <- app_assoc|done].
      * cbn. by rewrite Hys.
      * by apply Forall_cons.
    + destruct (IH new s) as (ys & Hrun & Hys & Hall). exists ys.
      rewrite filter_cons_False; [done|].
      unfold OrderIndex.is_open_ref. rewrite Ho, Hopen. done.
    + destruct (IH new s) as (ys & Hrun & Hys & Hall). exists ys.
      rewrite filter_cons_False; [done|].
      unfold OrderIndex.is_open_ref. rewrite Ho. done.
Qed.
End IdleGenerator.

(** X3: on an exchange whose index is consistent, [get_open_orders]
    returns the id, operation, amount and filled amount of exactly the
    stored orders that are open and, when a pair is given, are of that pair:
    each of them once, in the order of the list of the index.  It changes
    nothing of the exchange but the counter and the list of the index, no
    stored order among them, and the index is consistent afterwards. *)
Theorem get_open_orders_exact {L} (p : option Pair) (ex : Exchange (L := L)) :
  index_inv (_orders ex) →
  ∃ os ex',
    get_open_orders p ex
    = (Ok ((λ order, mkOpenOrder (id order) (operation order) (amount order)
                       (amount_filled order)) <$> os), ex')
    ∧ (∀ o, o ∈ os ↔
            OrderIndex._orders (_orders ex) !! id o = Some o ∧ is_open o = true
            ∧ match p with Some p => pair o = p | None => True end)
    ∧ NoDup (id <$> os)
    ∧ id <$> os `sublist_of` OrderIndex._open_orders (_orders ex)
    ∧ ex' = with_orders (_orders ex') ex
    ∧ OrderIndex._orders (_orders ex') = OrderIndex._orders (_orders ex)
    ∧ index_inv (_orders ex').
Proof.
  intros Hinv.
  pose proof (get_open_orders_keeps_inv _orders with_orders (λ _, ret tt) (λ _ _, eq_refl)
                (λ r s, index_aged_refl _) ex Hinv) as Hk.
  destruct Hinv as ((Hnd & Hdang) & Hids & Hopen).
  unfold get_open_orders. unfold bind at 1.
  unfold OrderIndex.get_open_orders in *. unfold bind at 1, modify at 1 in Hk.
  unfold bind at 1, modify at 1. unfold bind at 1, gets at 1 in Hk.
  unfold bind at 1, gets at 1. cbn [_orders with_orders] in *.
  set (s0 := with_orders (OrderIndex.tick (_orders ex)) ex) in *.
  set (new := if (_ =? 0)%nat then Some [] else None) in *.
  destruct (iterate_idle _orders (OrderIndex._open_orders (_orders ex)) new s0)
    as (ys & Hrun & Hys & Hall).
  cbn [OrderIndex.tick OrderIndex._open_orders] in *.
  unfold bind at 1 in Hk. unfold bind at 1. rewrite Hrun in *.
  set (keep := λ order : Order, match p with
                                | Some p => bool_decide (pair order = p)
                                | None => true
                                end).
  assert (Hstore : ∀ y, y ∈ ys →
            OrderIndex._orders (_orders ex) !! y.1 = Some y.2 ∧ is_open y.2 = true
            ∧ id y.2 = y.1).
  { intros y Hy. rewrite Forall_forall in Hall. pose proof (Hall y Hy) as Hst.
    cbn in Hst. split; [done|].
    assert (Hf : y.1 ∈ ys.*1) by (apply list_elem_of_fmap; by exists y).
    rewrite Hys in Hf. apply list_elem_of_filter in Hf as [Hop _].
    unfold OrderIndex.is_open_ref in Hop. cbn in Hop. rewrite Hst in Hop.
    split; [done|]. by eapply Hids. }
  assert (Hid : id <$> ys.*2 = ys.*1).
  { clear Hrun Hys Hall Hk. induction ys as [|y ys IH]; [done|]. cbn. f_equal.
    - apply Hstore. by left.
    - apply IH. intros y' Hy'. apply Hstore. by right. }
  assert (Hsub : id <$> List.filter keep ys.*2 `sublist_of`
                 OrderIndex._open_orders (_orders ex)).
  { rewrite list_filter_filter. etrans; [apply fmap_sublist, sublist_filter|].
    rewrite Hid, Hys. apply sublist_filter. }
  assert (Hmem : ∀ o, o ∈ List.filter keep ys.*2 ↔
            OrderIndex._orders (_orders ex) !! id o = Some o ∧ is_open o = true
            ∧ match p with Some p => pair o = p | None => True end).
  { intros o. rewrite list_filter_filter, list_elem_of_filter, list_elem_of_fmap. split.
    + intros [Hkeep (y & -> & Hy)]. destruct (Hstore y Hy) as (Hst & Hop & Hi).
      rewrite Hi. split; [done|]. split; [done|].
      subst keep. cbn in Hkeep. destruct p; [by apply bool_decide_eq_true in Hkeep|done].
    + intros (Hst & Hop & Hp). split.
      * subst keep. cbn. destruct p; [by apply bool_decide_eq_true|done].
      * assert (Hin : id o ∈ ys.*1).
        { rewrite Hys. apply list_elem_of_filter. split; [|by eapply Hopen].
          unfold OrderIndex.is_open_ref. cbn. by rewrite Hst. }
        apply list_elem_of_fmap in Hin as (y & Hy1 & Hy). exists y. split; [|done].
        destruct (Hstore y Hy) as (Hst' & _). rewrite <- Hy1 in Hst'. congruence. }
  exists (List.filter keep ys.*2).
  clear Hrun. destruct new as [l|]; cbn [fmap option_fmap option_map] in *;
    unfold bind, modify, ret in *; cbn [fst snd _orders with_orders] in *;
    (eexists; split; [reflexivity|]);
    (split; [exact Hmem|]); (split; [by eapply sublist_NoDup|]); (split; [exact Hsub|]);
    (split; [by destruct ex|]); (split; [done|exact Hk]).
Qed.

Lemma get_open_orders_exact_witness :
  index_inv (_orders SampleSession.exchange)
  ∧ (get_open_orders (Some Sample.btc_usdt) SampleSession.exchange).1
    = Ok [mkOpenOrder "a91e" BUY (dec_of_Z 2) dec_zero]
  ∧ ∃ os ex',
      get_open_orders (Some Sample.btc_usdt) SampleSession.exchange
      = (Ok ((λ order, mkOpenOrder (id order) (operation order) (amount order)
                         (amount_filled order)) <$> os), ex')
      ∧ (∀ o, o ∈ os ↔
              OrderIndex._orders (_orders SampleSession.exchange) !! id o = Some o
              ∧ is_open o = true ∧ pair o = Sample.btc_usdt)
      ∧ NoDup (id <$> os)
      ∧ id <$> os `sublist_of` OrderIndex._open_orders (_orders SampleSession.exchange)
      ∧ ex' = with_orders (_orders ex') SampleSession.exchange
      ∧ OrderIndex._orders (_orders ex') = OrderIndex._orders (_orders SampleSession.exchange)
      ∧ index_inv (_orders ex').
Proof.
  assert (Hinv : index_inv (_orders SampleSession.exchange)).
  { apply session_index_inv. apply index_inv_init. }
  split; [exact Hinv|]. split; [vm_compute; reflexivity|].
  exact (get_open_orders_exact (Some Sample.btc_usdt) SampleSession.exchange Hinv).
Defined.

(** ** The outcomes of a submission *)

Section SubmissionOutcomes.
Context {L : Type}.
Variable calculate_fees : Order → gmap string Decimal → gmap string Decimal.
Variable validate : ExchangeOrder → PairInfo → option string.
Variable uuid4_hex : nat → string.
Implicit Types (ex : Exchange (L := L)) (r : ExchangeOrder).

Local Abbreviation store ex := (OrderIndex._orders (_orders ex)).

(** On positive amounts the check returns when every amount is available
    and raises the insufficient-balance error for the first one that is
    not; the assertion on the sign does not fail. *)
Lemma check_items_outcome b items ex :
  Forall (λ kv, dec_ltb dec_zero kv.2 = true) items →
  match (check_items (L := L) b items ex).1 with
  | Ok _ =>
      Forall (λ kv, dec_ltb (AccountBalances.get_available_balance b kv.1) kv.2 = false) items
  | Raise (Error (NotEnoughAvailable s x a)) =>
      (s, x) ∈ items ∧ a = AccountBalances.get_available_balance b s ∧ dec_ltb a x = true
  | Raise _ => False
  end.
Proof.
  intros Hpos. induction items as [|[s x] items IH]; [by cbn|].
  apply Forall_cons in Hpos as [Hx Hpos]. cbn in Hx.
  cbn [check_items]. unfold bind, assert. rewrite Hx. cbn [ret].
  destruct (dec_ltb (AccountBalances.get_available_balance b s) x) eqn:Hs.
  - cbn. split; [by left|done].
  - specialize (IH Hpos). destruct (check_items b items ex) as [[[]|e] ex']; cbn [fst] in *.
    + by apply Forall_cons.
    + destruct e as [[s' x' a| | |]| |]; try done.
      destruct IH as (Hin & Ha & Hlt). split; [by right|done].
Qed.

(** The cases of [create_order]: what it leaves behind when it returns, and
    the exceptions it can raise. *)
Lemma create_order_cases ex r :
  let new_id := uuid4_hex (uuid_calls ex) in
  let order := request_create_order r new_id in
  ∃ required,
    (_estimate_required_balances calculate_fees r ex).1 = Ok required
    ∧ match create_order calculate_fees validate uuid4_hex r ex with
      | (Ok order_id, ex') =>
          order_id = new_id
          ∧ validate r (get_pair_info ex (req_pair r)) = None
          ∧ store ex !! new_id = None
          ∧ store ex' = <[new_id := order]> (store ex)
          ∧ OrderIndex._open_orders (_orders ex')
            = OrderIndex._open_orders (_orders ex) ++ [new_id]
          ∧ AccountBalances.order_accepted (_balances ex) order required
            = Some (_balances ex')
          ∧ uuid_calls ex' = S (uuid_calls ex)
      | (Raise (Error (InvalidRequest msg)), ex') =>
          validate r (get_pair_info ex (req_pair r)) = Some msg ∧ ex' = ex
      | (Raise (Error (NotEnoughAvailable s x a)), ex') =>
          required !! s = Some x
          ∧ a = AccountBalances.get_available_balance (_balances ex) s
          ∧ dec_ltb a x = true
      | (Raise (AssertionError msg), ex') =>
          msg = "order.id not in self._orders" ∧ is_Some (store ex !! new_id)
      | (Raise _, _) => False
      end.
Proof.
  intros new_id order.
  destruct (estimate_required_balances_run calculate_fees ex r)
    as (required & cs & Hest & Hpos).
  exists required. split; [by rewrite Hest|].
  assert (Hitems : Forall (λ kv : string * Decimal, dec_ltb dec_zero kv.2 = true)
                     (map_to_list required)).
  { apply Forall_forall. intros [s x] Hin. apply elem_of_map_to_list in Hin.
    by apply Hpos in Hin. }
  unfold create_order, bind at 1, gets at 1. fold (get_pair_info ex (req_pair r)).
  destruct (validate r (get_pair_info ex (req_pair r))) as [m|] eqn:Hvalid; [done|].
  unfold bind at 1. unfold ret at 1. unfold bind at 1. rewrite Hest.
  unfold bind at 1. unfold _check_available_balance, bind at 1, gets at 1.
  change (_balances (with_calls (calls ex ++ cs) ex)) with (_balances ex).
  pose proof (check_items_state (_balances ex) (map_to_list required)
                (with_calls (calls ex ++ cs) ex)) as Hstate.
  pose proof (check_items_outcome (_balances ex) (map_to_list required)
                (with_calls (calls ex ++ cs) ex) Hitems) as Hout.
  destruct (check_items _ _ _) as [[[]|e] ex2]; cbn [fst snd] in Hstate, Hout; subst ex2.
  2:{ destruct e as [[s x a| | |]| |]; try done.
      destruct Hout as (Hin & Ha & Hlt). by apply elem_of_map_to_list in Hin. }
  assert (Hcov : AccountBalances.covers (_balances ex) required).
  { intros s x Hs. apply elem_of_map_to_list in Hs.
    rewrite Forall_forall in Hout. specialize (Hout _ Hs). cbn in Hout.
    unfold dec_leb. by rewrite Hout. }
  cbv [bind gets modify zoom OrderIndex.add_order assert ret raise call].
  cbn [_orders with_uuid_calls with_calls uuid_calls].
  fold new_id. fold order.
  destruct (bool_decide _) eqn:Hfresh.
  - apply bool_decide_eq_true in Hfresh. cbn [_balances with_orders OrderIndex._orders
      OrderIndex._open_orders].
    unfold AccountBalances.order_accepted. rewrite decide_True by done.
    cbn. rewrite decide_True by exact Hcov. repeat split; try reflexivity. exact Hfresh.
  - apply bool_decide_eq_false in Hfresh. split; [done|].
    destruct (store ex !! new_id) eqn:Hl; [by eexists|]. by destruct Hfresh.
Qed.

(** X4: the only exceptions that leave [create_order] are the validation
    error, with the exchange untouched, the insufficient-balance error,
    which reports a required amount and the smaller available balance of
    its symbol, and the assertion of the index on an id already in use.
    In particular neither the assertion on the sign of a required balance
    nor the one of the ledger on its availability fails.  When
    [create_order] returns, the request was valid and the id is the one
    just drawn, which was not in use. *)
Theorem create_order_outcomes ex r :
  let new_id := uuid4_hex (uuid_calls ex) in
  match create_order calculate_fees validate uuid4_hex r ex with
  | (Ok order_id, ex') =>
      order_id = new_id
      ∧ validate r (get_pair_info ex (req_pair r)) = None
      ∧ store ex !! new_id = None
  | (Raise (Error (InvalidRequest msg)), ex') =>
      validate r (get_pair_info ex (req_pair r)) = Some msg ∧ ex' = ex
  | (Raise (Error (NotEnoughAvailable s x a)), ex') =>
      (∃ required, (_estimate_required_balances calculate_fees r ex).1 = Ok required
                   ∧ required !! s = Some x)
      ∧ a = AccountBalances.get_available_balance (_balances ex) s
      ∧ dec_ltb a x = true
  | (Raise (AssertionError msg), ex') =>
      msg = "order.id not in self._orders" ∧ is_Some (store ex !! new_id)
  | (Raise _, _) => False
  end.
Proof.
  intros new_id. destruct (create_order_cases ex r) as (required & Hest & Hcases).
  fold new_id in Hcases.
  destruct (create_order calculate_fees validate uuid4_hex r ex) as [[order_id|e] ex'].
  - destruct Hcases as (H1 & H2 & H3 & _). by repeat split.
  - destruct e as [[s x a| | |m]|m|k]; try done.
    destruct Hcases as (H1 & H2 & H3). split; [by exists required|done].
Qed.

Section Lifecycle.
Context {OrderInfo : Type}.
Variable order_get_order_info : Order → OrderInfo.

(** X5: an order that [create_order] returned can be queried and canceled.
    [get_order_info] on the returned id gives the snapshot of the order made
    from the request, open and unfilled; every id that was unknown before
    and is not the returned one is still unknown; the order holds exactly
    the balances that the estimation required.  [cancel_order] on the id
    returns, after which [get_order_info] gives the snapshot of the same
    order in the state CANCELED, nothing is on hold for it, and a second
    [cancel_order] is refused. *)
Theorem created_order_lifecycle ex r order_id ex1 :
  create_order calculate_fees validate uuid4_hex r ex = (Ok order_id, ex1) →
  let order := request_create_order r order_id in
  get_order_info order_get_order_info order_id ex1 = (Ok (order_get_order_info order), ex1)
  ∧ (∀ other, store ex !! other = None → other ≠ order_id →
       get_order_info order_get_order_info other ex1 = (Raise (Error OrderNotFound), ex1))
  ∧ (∃ required,
       (_estimate_required_balances calculate_fees r ex).1 = Ok required
       ∧ ∀ s, AccountBalances.get_balance_on_hold_for_order (_balances ex1) order_id s
              = default dec_zero (required !! s))
  ∧ ∃ ex2,
      cancel_order order_id ex1 = (Ok order_id, ex2)
      ∧ get_order_info order_get_order_info order_id ex2
        = (Ok (order_get_order_info (set_state CANCELED order)), ex2)
      ∧ (∀ s, AccountBalances.get_balance_on_hold_for_order (_balances ex2) order_id s
              = dec_zero)
      ∧ cancel_order order_id ex2
        = (Raise (Error (OrderCantBeCanceled order_id CANCELED)), ex2).
Proof.
  intros Hrun order.
  destruct (create_order_cases ex r) as (required & Hest & Hcases).
  rewrite Hrun in Hcases. destruct Hcases as (-> & _ & Hfresh & Hst & _ & Hacc & _).
  fold order in Hst, Hacc.
  assert (Ho : store ex1 !! uuid4_hex (uuid_calls ex) = Some order)
    by (rewrite Hst; apply lookup_insert_eq).
  split; [|split; [|split]].
  - unfold get_order_info, bind, gets, OrderIndex.get_order. by rewrite Ho.
  - intros other Hother Hne.
    unfold get_order_info, bind, gets, OrderIndex.get_order.
    rewrite Hst, lookup_insert_ne by done. by rewrite Hother.
  - exists required. split; [done|]. intros s.
    unfold AccountBalances.order_accepted in Hacc.
    destruct (decide _); [|done]. injection Hacc as <-.
    unfold AccountBalances.get_balance_on_hold_for_order. cbn.
    by rewrite lookup_insert_eq.
  - pose proof (cancel_order_cases ex1 (uuid4_hex (uuid_calls ex))) as Hc.
    rewrite Ho in Hc. change (is_open order) with true in Hc. cbv iota in Hc.
    destruct Hc as (ex2 & Hcancel & Ho2 & _ & Hhold & _ & Hagain).
    exists ex2. split; [done|]. split; [|split; [exact Hhold|exact Hagain]].
    unfold get_order_info, bind, gets, OrderIndex.get_order. by rewrite Ho2.
Qed.
End Lifecycle.
End SubmissionOutcomes.

Lemma created_order_lifecycle_witness :
  let ex := Sample.exchange1 in
  let r := Sample.limit_buy 1 50 in
  let ex1 := Sample.exec (Sample.create r) ex in
  let order := request_create_order r "5f0c" in
  Sample.create r ex = (Ok "5f0c", ex1)
  ∧ get_order_info (λ o, o) "5f0c" ex1 = (Ok order, ex1)
  ∧ AccountBalances.get_balance_on_hold_for_order (_balances ex1) "5f0c" "USDT"
    = mkDecimal 5000 (-2)
  ∧ ∃ ex2,
      cancel_order "5f0c" ex1 = (Ok "5f0c", ex2)
      ∧ get_order_info (λ o, o) "5f0c" ex2 = (Ok (set_state CANCELED order), ex2)
      ∧ (∀ s, AccountBalances.get_balance_on_hold_for_order (_balances ex2) "5f0c" s
              = dec_zero)
      ∧ cancel_order "5f0c" ex2
        = (Raise (Error (OrderCantBeCanceled "5f0c" CANCELED)), ex2).
Proof.
  intros ex r ex1 order.
  assert (Hrun : Sample.create r ex = (Ok "5f0c", ex1)) by (vm_compute; reflexivity).
  split; [exact Hrun|].
  destruct (created_order_lifecycle Sample.no_fee Sample.validate Sample.uuid4_hex
              (λ o, o) ex r "5f0c" ex1 Hrun) as (Hinfo & _ & _ & Hcancel).
  split; [exact Hinfo|]. split; [vm_compute; reflexivity|]. exact Hcancel.
Defined.

(** ** What the operations on orders leave alone *)

Section Surroundings.
Context {L : Type}.
Variable liquidity_strategy_factory : unit → L.
Variable on_bar : L → Bar → L.
Variable take_liquidity : L → Decimal → L.
Variable calculate_fees : Order → gmap string Decimal → gmap string Decimal.
Variable get_balance_updates : Order → Bar → L → gmap string Decimal.
Variable validate : ExchangeOrder → PairInfo → option string.
Variable uuid4_hex : nat → string.
Implicit Types (ex : Exchange (L := L)).

#[local] Instance surroundings_kept_preorder : PreOrder (surroundings_kept (L := L)).
Proof.
  split.
  - intros ex. by repeat split.
  - intros ex1 ex2 ex3 (H1 & H2 & H3 & H4 & H5 & H6) (H1' & H2' & H3' & H4' & H5' & H6').
    repeat split; congruence.
Qed.

Lemma process_orders_surroundings ev :
  preserves surroundings_kept
    (_process_orders liquidity_strategy_factory on_bar take_liquidity calculate_fees
       get_balance_updates ev).
Proof.
  apply (process_orders_preserves _ _ _ _ _ surroundings_kept).
  - intros c ex _. by repeat split.
  - intros h ex. by repeat split.
  - intros b ex. by repeat split.
  - intros r f ex _. by repeat split.
  - intros ex. by repeat split.
  - intros l ex. by repeat split.
Qed.

Lemma cancel_order_surroundings order_id :
  preserves surroundings_kept (cancel_order (L := L) order_id).
Proof.
  intros ex. unfold cancel_order. cbv [bind gets raise OrderIndex.get_order].
  destruct (OrderIndex._orders (_orders ex) !! order_id) as [order|]; [|reflexivity].
  destruct (negb _); [reflexivity|].
  cbv [mutate deref modify call ret bind gets]. cbn [_orders with_orders].
  destruct (OrderIndex._orders _ !! order_id); by repeat split.
Qed.

Lemma create_order_surroundings order_request :
  preserves surroundings_kept
    (create_order (L := L) calculate_fees validate uuid4_hex order_request).
Proof.
  intros ex. unfold create_order, bind at 1, gets at 1.
  destruct (validate _ _); [reflexivity|].
  unfold bind at 1. unfold ret at 1. unfold bind at 1.
  destruct (estimate_required_balances_run calculate_fees ex order_request)
    as (required & cs & -> & _).
  unfold bind at 1. unfold _check_available_balance, bind at 1, gets at 1.
  pose proof (check_items_state (_balances (with_calls (calls ex ++ cs) ex))
                (map_to_list required) (with_calls (calls ex ++ cs) ex)) as Hstate.
  destruct (check_items _ _ _) as [[[]|e] ex2]; cbn [snd] in Hstate; subst ex2;
    [|by repeat split].
  cbv [bind gets modify zoom OrderIndex.add_order assert ret raise call].
  cbn [_orders with_uuid_calls with_calls].
  destruct (bool_decide _); [|by repeat split].
  destruct (AccountBalances.order_accepted _ _ _); by repeat split.
Qed.

Lemma get_open_orders_surroundings p :
  preserves surroundings_kept (get_open_orders (L := L) p).
Proof.
  unfold get_open_orders.
  apply (preserves_bind surroundings_kept); [|intros ys; apply (preserves_ret surroundings_kept)].
  apply (get_open_orders_preserves surroundings_kept).
  - intros ex. by repeat split.
  - intros l ex. by repeat split.
  - intros r. apply (preserves_ret surroundings_kept).
Qed.

(** What one operation does to the settings, the cache and the queues. *)
Lemma perform_surroundings op ex :
  let ex' := perform liquidity_strategy_factory on_bar take_liquidity calculate_fees
               get_balance_updates validate uuid4_hex op ex in
  _default_pair_info ex' = _default_pair_info ex
  ∧ _bid_ask_spread ex' = _bid_ask_spread ex
  ∧ _liquidity_strategies ex' = _liquidity_strategies ex
  ∧ _pairs_info ex' = match op with
                      | SetPairInfo p pair_info => <[p := pair_info]> (_pairs_info ex)
                      | _ => _pairs_info ex
                      end
  ∧ _last_bars ex' = match op with
                     | BarEventArrives ev => <[bar_pair (bar ev) := bar ev]> (_last_bars ex)
                     | _ => _last_bars ex
                     end
  ∧ ∀ p, _bar_event_source ex' !! p
         = match op with
           | BarEventArrives ev =>
               match _bar_event_source ex !! p with
               | Some queue =>
                   if decide (bar_pair (bar ev) = p)
                   then Some (match (_on_bar_event liquidity_strategy_factory on_bar
                                       take_liquidity calculate_fees get_balance_updates
                                       ev ex).1 with
                              | Ok _ => queue ++ [ev]
                              | Raise _ => queue
                              end)
                   else Some queue
               | None => None
               end
           | SubscribeToBarEvents p' =>
               if decide (p' = p)
               then Some (default [] (_bar_event_source ex !! p))
               else _bar_event_source ex !! p
           | _ => _bar_event_source ex !! p
           end.
Proof.
  intros ex'. subst ex'. destruct op as [r|order_id|ev|p'|p' pair_info]; cbn [perform].
  - destruct (create_order_surroundings r ex) as (H1 & H2 & H3 & H4 & H5 & H6).
    repeat split; try done. intros p. by rewrite H4.
  - destruct (cancel_order_surroundings order_id ex) as (H1 & H2 & H3 & H4 & H5 & H6).
    repeat split; try done. intros p. by rewrite H4.
  - rewrite on_bar_event_unfold. cbv zeta.
    set (cached := with_last_bars _ ex).
    destruct (process_orders_surroundings ev cached) as (H1 & H2 & H3 & H4 & H5 & H6).
    destruct (_process_orders _ _ _ _ _ ev cached) as [[[]|e] m]; cbn [fst snd] in *.
    + destruct (_bar_event_source m !! bar_pair (bar ev)) as [queue|] eqn:Hq;
        cbn [fst snd]; (repeat split; try done); intros p.
      * cbn. rewrite H4 in *. cbn in *. destruct (decide (bar_pair (bar ev) = p)) as [<-|Hne].
        -- by rewrite lookup_insert_eq, Hq.
        -- rewrite lookup_insert_ne by done. by destruct (_ !! p).
      * rewrite H4 in *. cbn in *. destruct (decide (bar_pair (bar ev) = p)) as [<-|Hne].
        -- by rewrite Hq.
        -- by destruct (_ !! p).
    + repeat split; try done. intros p. rewrite H4. cbn.
      destruct (_ !! p); [|done]. by destruct (decide _).
  - unfold subscribe_to_bar_events.
    destruct (_bar_event_source ex !! p') as [q|] eqn:Hq; repeat split; try done; intros p.
    + destruct (decide (p' = p)) as [<-|Hne]; [by rewrite Hq|done].
    + cbn. destruct (decide (p' = p)) as [<-|Hne].
      * by rewrite lookup_insert_eq, Hq.
      * by rewrite lookup_insert_ne.
  - by repeat split.
Qed.
End Surroundings.

Section SessionSurroundings.
Context {L : Type}.
Variable liquidity_strategy_factory : unit → L.
Variable on_bar : L → Bar → L.
Variable take_liquidity : L → Decimal → L.
Variable calculate_fees : Order → gmap string Decimal → gmap string Decimal.
Variable get_balance_updates : Order → Bar → L → gmap string Decimal.
Variable validate : ExchangeOrder → PairInfo → option string.
Variable uuid4_hex : nat → string.
Implicit Types (ex : Exchange (L := L)).

Local Abbreviation run :=
  (session liquidity_strategy_factory on_bar take_liquidity calculate_fees
     get_balance_updates validate uuid4_hex).
Local Abbreviation step :=
  (perform liquidity_strategy_factory on_bar take_liquidity calculate_fees
     get_balance_updates validate uuid4_hex).

Lemma session_snoc ops op ex : run (ops ++ [op]) ex = step op (run ops ex).
Proof. unfold session. by rewrite foldl_app. Qed.

(** X6: the settings of a pair are what was last set for it.  As long as
    [set_pair_info] is not called for the pair, no submission, cancellation,
    bar event, subscription or setting of another pair changes what
    [get_pair_info] answers for it: the settings given to [set_pair_info]
    if it was called, the default ones of the constructor if it never
    was. *)
Theorem pair_info_round_trip ops p :
  (∀ pair_info, SetPairInfo p pair_info ∉ ops) →
  (∀ ex, get_pair_info (run ops ex) p = get_pair_info ex p)
  ∧ (∀ ex pair_info, get_pair_info (run ops (set_pair_info p pair_info ex)) p = pair_info)
  ∧ (∀ initial_balances default_pair_info bid_ask_spread,
       get_pair_info (run ops (init initial_balances default_pair_info bid_ask_spread)) p
       = default_pair_info).
Proof.
  intros Hops.
  assert (Hkeep : ∀ ex, get_pair_info (run ops ex) p = get_pair_info ex p).
  { induction ops as [|op ops IH]; intros ex; [done|].
    change (run (op :: ops) ex) with (run ops (step op ex)). rewrite IH.
    - destruct (perform_surroundings liquidity_strategy_factory on_bar take_liquidity
                  calculate_fees get_balance_updates validate uuid4_hex op ex)
        as (Hd & _ & _ & Hp & _).
      unfold get_pair_info, _get_pair_info. rewrite Hd, Hp.
      destruct op as [| | | |p' pair_info]; try done.
      rewrite lookup_insert_ne; [done|]. intros ->. apply (Hops pair_info). by left.
    - intros pair_info Hin. apply (Hops pair_info). by right. }
  split; [exact Hkeep|]. split.
  - intros ex pair_info. rewrite Hkeep. unfold get_pair_info, _get_pair_info, set_pair_info.
    cbn. by rewrite lookup_insert_eq.
  - intros b dpi spread. by rewrite Hkeep.
Qed.

(** X7: the cache of last bars holds, for every pair, the bar of the latest
    bar event of that pair, whether the matching of that bar returned or
    raised, and what it held before when there was none; submissions,
    cancellations, subscriptions and settings do not touch it.  So the last
    price of a pair is the close of its latest bar. *)
Theorem last_bar_is_latest ops ex p :
  _last_bars (run ops ex) !! p
  = match last (omap (bar_event_of p) ops) with
    | Some event => Some (bar event)
    | None => _last_bars ex !! p
    end
  ∧ _get_last_price (run ops ex) p
    = match last (omap (bar_event_of p) ops) with
      | Some event => Some (bar_close (bar event))
      | None => _get_last_price ex p
      end.
Proof.
  assert (Hbars : _last_bars (run ops ex) !! p
                  = match last (omap (bar_event_of p) ops) with
                    | Some event => Some (bar event)
                    | None => _last_bars ex !! p
                    end).
  { induction ops as [|op ops IH] using rev_ind; [done|].
    rewrite session_snoc, omap_app.
    destruct (perform_surroundings liquidity_strategy_factory on_bar take_liquidity
                calculate_fees get_balance_updates validate uuid4_hex op (run ops ex))
      as (_ & _ & _ & _ & Hb & _).
    rewrite Hb. clear Hb.
    destruct op as [| |ev| |]; cbn [omap list_omap bar_event_of]; rewrite ?app_nil_r;
      try exact IH.
    destruct (decide (bar_pair (bar ev) = p)) as [<-|Hne].
    - rewrite lookup_insert_eq. cbn. by rewrite last_snoc.
    - rewrite lookup_insert_ne by done. cbn. by rewrite app_nil_r. }
  split; [exact Hbars|]. unfold _get_last_price. rewrite Hbars.
  by destruct (last _).
Qed.

(** X8: the queue of a subscribed pair only grows, at its end, and only by
    bar events of that pair, in the order of their arrival: whatever the
    strategy and the dispatcher do, no queued event is dropped or reordered
    and no event of another pair is queued. *)
Theorem bar_events_queue ops : ∀ ex p queue,
  _bar_event_source ex !! p = Some queue →
  ∃ pushed,
    _bar_event_source (run ops ex) !! p = Some (queue ++ pushed)
    ∧ pushed `sublist_of` omap (bar_event_of p) ops.
Proof.
  induction ops as [|op ops IH]; intros ex p queue Hq.
  - exists []. by rewrite app_nil_r.
  - change (run (op :: ops) ex) with (run ops (step op ex)).
    destruct (perform_surroundings liquidity_strategy_factory on_bar take_liquidity
                calculate_fees get_balance_updates validate uuid4_hex op ex)
      as (_ & _ & _ & _ & _ & Hs).
    specialize (Hs p).
    assert (Hstep : ∃ q1, _bar_event_source (step op ex) !! p = Some (queue ++ q1)
                          ∧ q1 `sublist_of` option_list (bar_event_of p op)).
    { rewrite Hs. clear Hs. destruct op as [| |ev|p'|]; cbn [bar_event_of];
        try (exists []; by rewrite app_nil_r).
      - rewrite Hq. destruct (decide (bar_pair (bar ev) = p)).
        + destruct (_on_bar_event _ _ _ _ _ ev ex).1.
          * by exists [ev].
          * exists []. rewrite app_nil_r. split; [done|]. apply sublist_nil_l.
        + exists []. by rewrite app_nil_r.
      - rewrite Hq. exists []. rewrite app_nil_r. by destruct (decide _). }
    destruct Hstep as (q1 & Hq1 & Hsub1).
    destruct (IH _ _ _ Hq1) as (q2 & Hq2 & Hsub2).
    exists (q1 ++ q2). split; [by rewrite app_assoc|].
    cbn [omap list_omap]. destruct (bar_event_of p op) as [ev|]; cbn in Hsub1.
    + change (ev :: omap (bar_event_of p) ops) with ([ev] ++ omap (bar_event_of p) ops).
      by apply sublist_app.
    + apply sublist_nil_r in Hsub1 as ->. done.
Qed.
End SessionSurroundings.

Lemma pair_info_round_trip_witness :
  (∀ pair_info, SetPairInfo Sample.btc_usdt pair_info ∉ SampleSession.ops)
  ∧ get_pair_info (SampleSession.run SampleSession.ops
                     (set_pair_info Sample.btc_usdt (mkPairInfo 4 1) Sample.exchange0))
      Sample.btc_usdt
    = mkPairInfo 4 1.
Proof.
  assert (Hops : ∀ pair_info, SetPairInfo Sample.btc_usdt pair_info ∉ SampleSession.ops).
  { intros pair_info Hin. unfold SampleSession.ops in Hin.
    repeat (apply elem_of_cons in Hin as [Hin|Hin]; [discriminate Hin|]).
    by apply elem_of_nil in Hin. }
  split; [exact Hops|].
  destruct (pair_info_round_trip Sample.factory Sample.on_bar Sample.take_liquidity
              Sample.no_fee Sample.get_balance_updates Sample.validate Sample.uuid4_hex
              SampleSession.ops Sample.btc_usdt Hops) as (_ & Hset & _).
  exact (Hset Sample.exchange0 (mkPairInfo 4 1)).
Defined.

Lemma bar_events_queue_witness :
  let ex := subscribe_to_bar_events Sample.btc_usdt Sample.exchange0 in
  _bar_event_source ex !! Sample.btc_usdt = Some []
  ∧ _bar_event_source (SampleSession.run SampleSession.ops ex) !! Sample.btc_usdt
    = Some [mkBarEvent Sample.bar1; mkBarEvent Sample.bar2]
  ∧ ∃ pushed,
      _bar_event_source (SampleSession.run SampleSession.ops ex) !! Sample.btc_usdt
      = Some ([] ++ pushed)
      ∧ pushed `sublist_of` omap (bar_event_of Sample.btc_usdt) SampleSession.ops.
Proof.
  intros ex.
  assert (Hq : _bar_event_source ex !! Sample.btc_usdt = Some [])
    by (vm_compute; reflexivity).
  split; [exact Hq|]. split; [vm_compute; reflexivity|].
  exact (bar_events_queue Sample.factory Sample.on_bar Sample.take_liquidity
           Sample.no_fee Sample.get_balance_updates Sample.validate Sample.uuid4_hex
           SampleSession.ops ex Sample.btc_usdt [] Hq).
Defined.

(** ** The size of what rounding changes *)

Lemma dec_leb_spec x y :
  dec_leb x y = true ↔
  rescale x (Z.min (expo y) (expo x)) ≤ rescale y (Z.min (expo y) (expo x)).
Proof.
  unfold dec_leb, dec_ltb, dec_compare.
  destruct (Z.compare_spec (rescale y (Z.min (expo y) (expo x)))
              (rescale x (Z.min (expo y) (expo x)))); cbn; split; (lia || discriminate).
Qed.

(** Truncation does not increase the magnitude of a decimal. *)
Lemma quantize_down_magnitude v p :
  dec_leb (dec_abs (quantize v p ROUND_DOWN)) (dec_abs v) = true.
Proof.
  apply dec_leb_spec. unfold quantize, rescale.
  destruct (Z.leb_spec (- Z.of_nat p) (expo v)) as [He|He]; cbn [dec_abs coeff expo].
  - rewrite Z.min_r by lia. rewrite Z.sub_diag, Z.pow_0_r, Z.mul_1_r.
    rewrite Z.abs_mul. rewrite (Z.abs_eq (10 ^ _)); [lia|]. apply Z.pow_nonneg. lia.
  - rewrite Z.min_l by lia. rewrite Z.sub_diag, Z.pow_0_r, Z.mul_1_r.
    assert (Hd : 0 < 10 ^ (- Z.of_nat p - expo v)) by (apply Z.pow_pos_nonneg; lia).
    pose proof (round_down_toward_zero (coeff v) _ Hd) as [Hb _]. cbv zeta in Hb. lia.
Qed.

(** Rounding up does not decrease it. *)
Lemma quantize_up_magnitude v p :
  dec_leb (dec_abs v) (dec_abs (quantize v p ROUND_UP)) = true.
Proof.
  apply dec_leb_spec. unfold quantize, rescale.
  destruct (Z.leb_spec (- Z.of_nat p) (expo v)) as [He|He]; cbn [dec_abs coeff expo].
  - rewrite Z.min_l by lia. rewrite Z.sub_diag, Z.pow_0_r, Z.mul_1_r.
    rewrite Z.abs_mul. rewrite (Z.abs_eq (10 ^ _)); [lia|]. apply Z.pow_nonneg. lia.
  - rewrite Z.min_r by lia. rewrite Z.sub_diag, Z.pow_0_r, Z.mul_1_r.
    assert (Hd : 0 < 10 ^ (- Z.of_nat p - expo v)) by (apply Z.pow_pos_nonneg; lia).
    pose proof (round_up_away_from_zero (coeff v) _ Hd) as [Hb _]. cbv zeta in Hb. lia.
Qed.

(** No rounding mode turns a positive amount into a negative one or a
    negative into a positive. *)
Lemma quantize_sign v p r : 0 ≤ coeff (quantize v p r) * coeff v.
Proof.
  unfold quantize.
  destruct (Z.leb_spec (- Z.of_nat p) (expo v)) as [He|He]; cbn [coeff].
  - assert (0 ≤ 10 ^ (expo v - - Z.of_nat p)) by (apply Z.pow_nonneg; lia). nia.
  - assert (Hd : 0 < 10 ^ (- Z.of_nat p - expo v)) by (apply Z.pow_pos_nonneg; lia).
    destruct r.
    + by pose proof (round_down_toward_zero (coeff v) _ Hd) as [_ Hs].
    + by pose proof (round_half_even_nearest (coeff v) _ Hd) as (_ & _ & Hs).
    + by pose proof (round_up_away_from_zero (coeff v) _ Hd) as [_ Hs].
Qed.

(** What is not rounded away keeps its sign. *)
Lemma kept_quantize_sign v p r q :
  kept (quantize v p r) = Some q → get_sign q = get_sign v.
Proof.
  unfold kept, dec_truthy. destruct (Z.eqb_spec (coeff (quantize v p r)) 0) as [|Hnz];
    [done|]. intros [= <-]. unfold get_sign. f_equal.
  pose proof (quantize_sign v p r) as Hs.
  assert (Hv : coeff v ≠ 0) by (intros Hz; apply Hnz; by apply quantize_zero).
  destruct (Z.sgn_spec (coeff (quantize v p r))) as [[? ->]|[[? ->]|[? ->]]];
    destruct (Z.sgn_spec (coeff v)) as [[? ->]|[[? ->]|[? ->]]]; nia.
Qed.

(** An amount that has the precision asked for is left as it is. *)
Lemma quantize_idempotent v p r r' : quantize (quantize v p r) p r' = quantize v p r.
Proof.
  unfold quantize at 1. rewrite quantize_expo, Z.leb_refl, Z.sub_diag, Z.pow_0_r, Z.mul_1_r.
  rewrite <- (quantize_expo v p r). by destruct (quantize v p r).
Qed.

Section RoundingBounds.
Context {L : Type}.
Implicit Types (ex : Exchange (L := L)) (p : Pair) (m : gmap string Decimal).

(** X9: rounding never takes more than was there and never charges less.
    A base amount that is left after [_round_balance_updates] comes from a
    base amount of the same sign and of at least its magnitude, and has the
    base precision, so that a fill never exceeds the liquidity it was
    computed from; the quote amount that is left has the quote precision and
    the sign of the one it comes from; and a fee in the base or the quote
    symbol that is left after [_round_fees] has the sign and at least the
    magnitude of the fee it comes from.  None of the amounts left is
    zero. *)
Theorem rounding_bounds ex p :
  base_symbol p ≠ quote_symbol p →
  let info := _get_pair_info ex p in
  (∀ m b, _round_balance_updates ex p m !! base_symbol p = Some b →
     ∃ a, m !! base_symbol p = Some a
          ∧ dec_leb (dec_abs b) (dec_abs a) = true
          ∧ get_sign b = get_sign a
          ∧ expo b = - Z.of_nat (base_precision info))
  ∧ (∀ m q, _round_balance_updates ex p m !! quote_symbol p = Some q →
       ∃ a, m !! quote_symbol p = Some a
            ∧ get_sign q = get_sign a
            ∧ expo q = - Z.of_nat (quote_precision info))
  ∧ (∀ fees_ s f, s = base_symbol p ∨ s = quote_symbol p →
       _round_fees ex p fees_ !! s = Some f →
       ∃ a, fees_ !! s = Some a
            ∧ dec_leb (dec_abs a) (dec_abs f) = true
            ∧ get_sign f = get_sign a)
  ∧ (∀ m s a, _round_balance_updates ex p m !! s = Some a → dec_truthy a = true)
  ∧ (∀ fees_ s f, _round_fees ex p fees_ !! s = Some f → dec_truthy f = true).
Proof.
  intros Hne info. split; [|split; [|split; [|split]]].
  - intros m b Hb. rewrite round_balance_updates_base in Hb by done.
    destruct (m !! base_symbol p) as [a|]; [|done]. cbn in Hb.
    exists a. split; [done|]. unfold truncate_decimal, round_decimal in Hb. cbn in Hb.
    split; [|split; [by eapply kept_quantize_sign|]].
    + unfold kept in Hb. destruct (dec_truthy _); [|done]. injection Hb as <-.
      apply quantize_down_magnitude.
    + unfold kept in Hb. destruct (dec_truthy _); [|done]. injection Hb as <-.
      apply quantize_expo.
  - intros m q Hq. rewrite round_balance_updates_quote in Hq by done.
    destruct (m !! quote_symbol p) as [a|]; [|done]. cbn in Hq.
    exists a. split; [done|]. unfold round_decimal in Hq. cbn in Hq.
    split; [by eapply kept_quantize_sign|].
    unfold kept in Hq. destruct (dec_truthy _); [|done]. injection Hq as <-.
    apply quantize_expo.
  - intros fees_ s f Hs Hf. rewrite round_fees_lookup in Hf.
    destruct (fees_ !! s) as [a|]; [|done]. cbn in Hf. exists a. split; [done|].
    assert (∃ n, kept (quantize a n ROUND_UP) = Some f) as [n Hn].
    { destruct (decide (s = quote_symbol p)); [by eexists|].
      destruct (decide (s = base_symbol p)); [by eexists|]. by destruct Hs. }
    split; [|by eapply kept_quantize_sign].
    unfold kept in Hn. destruct (dec_truthy _); [|done]. injection Hn as <-.
    apply quantize_up_magnitude.
  - intros m s a Ha. rewrite round_balance_updates_unfold, lookup_remove_empty_amounts in Ha.
    destruct (_ !! s) as [a'|]; [|done]. destruct (dec_truthy a') eqn:Ht; [|done]. congruence.
  - intros fees_ s f Hf. unfold _round_fees in Hf. rewrite lookup_remove_empty_amounts in Hf.
    destruct (_ !! s) as [a'|]; [|done]. destruct (dec_truthy a') eqn:Ht; [|done]. congruence.
Qed.

Lemma kept_kept_quantize a n r r' :
  kept (quantize a n r) ≫= (λ b, kept (quantize b n r')) = kept (quantize a n r).
Proof.
  destruct (kept (quantize a n r)) as [b|] eqn:Hb; [|done]. cbn.
  unfold kept in Hb. destruct (dec_truthy (quantize a n r)) eqn:Ht; [|done].
  injection Hb as <-. rewrite quantize_idempotent. unfold kept. by rewrite Ht.
Qed.

Lemma kept_kept a : kept a ≫= kept = kept a.
Proof. unfold kept. destruct (dec_truthy a) eqn:Ht; [|done]. cbn. by rewrite Ht. Qed.

(** X10: rounding is idempotent: balance updates and fees that were rounded
    for a pair are left as they are when rounded again for it. *)
Theorem rounding_idempotent ex p :
  base_symbol p ≠ quote_symbol p →
  (∀ m, _round_balance_updates ex p (_round_balance_updates ex p m)
        = _round_balance_updates ex p m)
  ∧ (∀ fees_, _round_fees ex p (_round_fees ex p fees_) = _round_fees ex p fees_).
Proof.
  intros Hne. split.
  - intros m. apply map_eq. intros s.
    destruct (decide (s = base_symbol p)) as [->|Hb];
      [|destruct (decide (s = quote_symbol p)) as [->|Hq]].
    + rewrite !round_balance_updates_base by done.
      destruct (m !! base_symbol p) as [a|]; [|done]. cbn.
      unfold truncate_decimal, round_decimal. cbn. apply kept_kept_quantize.
    + rewrite !round_balance_updates_quote by done.
      destruct (m !! quote_symbol p) as [a|]; [|done]. cbn.
      unfold round_decimal. cbn. apply kept_kept_quantize.
    + rewrite !round_balance_updates_other by done.
      destruct (m !! s) as [a|]; [|done]. cbn. apply kept_kept.
  - intros fees_. apply map_eq. intros s. rewrite !round_fees_lookup.
    destruct (fees_ !! s) as [a|]; [|done]. cbn. unfold round_decimal. cbn.
    destruct (decide (s = quote_symbol p)); [apply kept_kept_quantize|].
    destruct (decide (s = base_symbol p)); [apply kept_kept_quantize|].
    apply kept_kept.
Qed.
End RoundingBounds.

Lemma rounding_bounds_witness :
  base_symbol Sample.btc_usdt ≠ quote_symbol Sample.btc_usdt
  ∧ let m : gmap string Decimal :=
      {[ "BTC" := mkDecimal 1234567899 (-9); "USDT" := mkDecimal (-123465) (-3) ]} in
    _round_balance_updates Sample.exchange1 Sample.btc_usdt m !! "BTC"
    = Some (mkDecimal 123456789 (-8))
    ∧ ∃ a, m !! "BTC" = Some a
           ∧ dec_leb (dec_abs (mkDecimal 123456789 (-8))) (dec_abs a) = true
           ∧ get_sign (mkDecimal 123456789 (-8)) = get_sign a
           ∧ expo (mkDecimal 123456789 (-8)) = -8.
Proof.
  assert (H : base_symbol Sample.btc_usdt ≠ quote_symbol Sample.btc_usdt)
    by (vm_compute; discriminate).
  split; [exact H|]. intros m.
  assert (Hb : _round_balance_updates Sample.exchange1 Sample.btc_usdt m
               !! base_symbol Sample.btc_usdt = Some (mkDecimal 123456789 (-8)))
    by (vm_compute; reflexivity).
  split; [exact Hb|].
  destruct (rounding_bounds Sample.exchange1 Sample.btc_usdt H) as (Hbase & _).
  exact (Hbase m _ Hb).
Defined.

Lemma rounding_idempotent_witness :
  base_symbol Sample.btc_usdt ≠ quote_symbol Sample.btc_usdt
  ∧ let m : gmap string Decimal :=
      {[ "BTC" := mkDecimal 1234567899 (-9); "USDT" := mkDecimal (-123465) (-3) ]} in
    _round_balance_updates Sample.exchange1 Sample.btc_usdt
      (_round_balance_updates Sample.exchange1 Sample.btc_usdt m)
    = _round_balance_updates Sample.exchange1 Sample.btc_usdt m.
Proof.
  assert (H : base_symbol Sample.btc_usdt ≠ quote_symbol Sample.btc_usdt)
    by (vm_compute; discriminate).
  split; [exact H|]. intros m.
  destruct (rounding_idempotent Sample.exchange1 Sample.btc_usdt H) as [Hm _].
  exact (Hm m).
Defined.

(** ** The orders that an iteration does not reach *)

Section GeneratorLocal.
Context {State : Type}.
Variable index : State → OrderIndex.t.
Variable with_index : OrderIndex.t → State → State.
Variable body : string → M State unit.
Variable skip : Order → bool.

Hypothesis index_with_index : ∀ i s, index (with_index i s) = i.
(** The loop body changes no order but the one it was handed, *)
Hypothesis body_local : ∀ r s r',
  r' ≠ r →
  OrderIndex._orders (index (body r s).2) !! r' = OrderIndex._orders (index s) !! r'.
(** and does nothing at all on the orders it skips. *)
Hypothesis body_skip : ∀ r s o,
  OrderIndex._orders (index s) !! r = Some o → skip o = true → body r s = (Ok tt, s).

Lemma iterate_untouched refs : ∀ new s r0 o0,
  OrderIndex._orders (index s) !! r0 = Some o0 →
  is_open o0 = false ∨ skip o0 = true →
  OrderIndex._orders (index (OrderIndex.iterate index body refs new s).2) !! r0 = Some o0.
Proof.
  induction refs as [|r refs IH]; intros new s r0 o0 Ho0 Hskip; [done|].
  cbn [OrderIndex.iterate]. unfold bind at 1, gets at 1.
  destruct (OrderIndex._orders (index s) !! r) as [order|] eqn:Ho;
    [destruct (is_open order) eqn:Hopen|]; [|by apply IH..].
  assert (Hkeep : OrderIndex._orders (index (body r s).2) !! r0 = Some o0).
  { destruct (decide (r0 = r)) as [->|Hne].
    - assert (order = o0) as -> by congruence.
      destruct Hskip as [Hc|Hs]; [congruence|]. by rewrite (body_skip r s o0).
    - by rewrite body_local. }
  unfold bind at 1. destruct (body r s) as [[[]|e] s1]; cbn [snd] in Hkeep; [|done].
  unfold bind at 1, gets at 1. unfold bind.
  match goal with
  | |- context [OrderIndex.iterate index body refs ?n s1] =>
      specialize (IH n s1 r0 o0 Hkeep Hskip);
      destruct (OrderIndex.iterate index body refs n s1) as [[[new' ys]|e] s2]
  end; exact IH.
Qed.

Lemma get_open_orders_untouched s r0 o0 :
  OrderIndex._orders (index s) !! r0 = Some o0 →
  is_open o0 = false ∨ skip o0 = true →
  OrderIndex._orders (index (OrderIndex.get_open_orders index with_index body s).2) !! r0
  = Some o0.
Proof.
  intros Ho0 Hskip. unfold OrderIndex.get_open_orders.
  unfold bind at 1, modify at 1. unfold bind at 1, gets at 1.
  set (s0 := with_index (OrderIndex.tick (index s)) s).
  assert (H0 : OrderIndex._orders (index s0) !! r0 = Some o0)
    by (subst s0; by rewrite index_with_index).
  unfold bind at 1.
  match goal with
  | |- context [OrderIndex.iterate index body ?refs ?n s0] =>
      pose proof (iterate_untouched refs n s0 r0 o0 H0 Hskip) as H1;
      destruct (OrderIndex.iterate index body refs n s0) as [[[new' ys]|e] s1]
  end; cbn [snd] in H1; [|exact H1].
  destruct new' as [l|]; unfold bind, modify, ret; cbn [snd]; [|exact H1].
  by rewrite index_with_index.
Qed.

(** When every open order of the list is skipped, the iteration returns
    and leaves the state as it found it. *)
Lemma iterate_skips_all refs : ∀ new s,
  (∀ r o, r ∈ refs → OrderIndex._orders (index s) !! r = Some o → is_open o = true →
          skip o = true) →
  ∃ new' ys, OrderIndex.iterate index body refs new s = (Ok (new', ys), s).
Proof.
  induction refs as [|r refs IH]; intros new s Hall; [by eexists _, _|].
  cbn [OrderIndex.iterate]. unfold bind at 1, gets at 1.
  assert (Hrest : ∀ r' o, r' ∈ refs → OrderIndex._orders (index s) !! r' = Some o →
            is_open o = true → skip o = true).
  { intros r' o Hr'. apply Hall. by right. }
  destruct (OrderIndex._orders (index s) !! r) as [order|] eqn:Ho;
    [destruct (is_open order) eqn:Hopen|]; [|by apply IH..].
  unfold bind at 1. rewrite (body_skip r s order Ho); [|by eapply Hall; [left|..]].
  unfold bind at 1, gets at 1. unfold bind.
  match goal with
  | |- context [OrderIndex.iterate index body refs ?n s] =>
      destruct (IH n s Hrest) as (new' & ys & ->)
  end. by eexists _, _.
Qed.

Lemma get_open_orders_skips_all s :
  (∀ i j s, with_index i (with_index j s) = with_index i s) →
  (∀ r o, OrderIndex._orders (index s) !! r = Some o → is_open o = true → skip o = true) →
  ∃ ys idx',
    OrderIndex.get_open_orders index with_index body s = (Ok ys, with_index idx' s)
    ∧ OrderIndex._orders idx' = OrderIndex._orders (index s).
Proof.
  intros Hww Hall. unfold OrderIndex.get_open_orders.
  unfold bind at 1, modify at 1. unfold bind at 1, gets at 1.
  set (s0 := with_index (OrderIndex.tick (index s)) s).
  assert (H0 : index s0 = OrderIndex.tick (index s))
    by (subst s0; by rewrite index_with_index).
  unfold bind at 1.
  match goal with
  | |- context [OrderIndex.iterate index body ?refs ?n s0] =>
      destruct (iterate_skips_all refs n s0) as (new' & ys & ->)
  end.
  { intros r o _. rewrite H0. apply Hall. }
  destruct new' as [l|]; unfold bind, modify, ret.
  - exists ys, (OrderIndex.set_open_orders l (index s0)). subst s0. rewrite Hww.
    split; [done|]. by rewrite index_with_index.
  - exists ys, (OrderIndex.tick (index s)). by split.
Qed.
End GeneratorLocal.

(** ** What a bar does to the orders *)

Section BarReach.
Context {L : Type}.
Variable liquidity_strategy_factory : unit → L.
Variable on_bar : L → Bar → L.
Variable take_liquidity : L → Decimal → L.
Variable calculate_fees : Order → gmap string Decimal → gmap string Decimal.
Variable get_balance_updates : Order → Bar → L → gmap string Decimal.
Implicit Types (ex : Exchange (L := L)).

Local Abbreviation store ex := (OrderIndex._orders (_orders ex)).
Local Abbreviation matching_body ev loc :=
  (λ r, let* o := deref r in
        if bool_decide (pair o = bar_pair (bar ev))
        then _process_order take_liquidity calculate_fees get_balance_updates r ev loc
        else ret tt).

Lemma matching_body_local ev loc r ex r' :
  r' ≠ r → store (matching_body ev loc r ex).2 !! r' = store ex !! r'.
Proof.
  intros Hne.
  destruct (matching_body_index_frame take_liquidity calculate_fees get_balance_updates
              ev loc r ex) as (_ & _ & Hloc).
  by apply Hloc.
Qed.

Lemma matching_body_skip ev loc r ex o :
  store ex !! r = Some o →
  negb (bool_decide (pair o = bar_pair (bar ev))) = true →
  matching_body ev loc r ex = (Ok tt, ex).
Proof.
  intros Ho Hp. unfold deref, bind, gets. rewrite Ho. cbn [ret].
  by destruct (bool_decide _).
Qed.

(** The index and the ledger after a bar event are those that the
    iteration leaves. *)
Lemma on_bar_event_orders ev ex :
  ∃ loc ex0,
    _orders ex0 = _orders ex ∧ _balances ex0 = _balances ex
    ∧ _orders (_on_bar_event liquidity_strategy_factory on_bar take_liquidity
                 calculate_fees get_balance_updates ev ex).2
      = _orders (OrderIndex.get_open_orders _orders with_orders
                   (matching_body ev loc) ex0).2
    ∧ _balances (_on_bar_event liquidity_strategy_factory on_bar take_liquidity
                   calculate_fees get_balance_updates ev ex).2
      = _balances (OrderIndex.get_open_orders _orders with_orders
                     (matching_body ev loc) ex0).2
    ∧ (∀ e, (_on_bar_event liquidity_strategy_factory on_bar take_liquidity
               calculate_fees get_balance_updates ev ex).1 = Raise e ↔
            (OrderIndex.get_open_orders _orders with_orders
               (matching_body ev loc) ex0).1 = Raise e).
Proof.
  rewrite on_bar_event_unfold. cbv zeta.
  set (cached := with_last_bars _ ex).
  destruct (process_orders_unfold liquidity_strategy_factory on_bar take_liquidity
              calculate_fees get_balance_updates ev cached)
    as (loc & ex0 & Ho & Hb & _ & _ & _ & Hrun).
  exists loc, ex0. split; [exact Ho|]. split; [exact Hb|].
  rewrite Hrun. clear Hrun.
  set (c := OrderIndex.get_open_orders _orders with_orders (matching_body ev loc)).
  unfold bind, ret. destruct (c ex0) as [[ys|e] ex1]; cbn [fst snd].
  - destruct (_bar_event_source ex1 !! _); cbn [fst snd];
      (split; [reflexivity|]); (split; [reflexivity|]); intros e; split; discriminate.
  - split; [reflexivity|]. split; [reflexivity|]. intros e'. split; intros [= ->]; reflexivity.
Qed.

Lemma on_bar_event_untouched ev ex r o :
  store ex !! r = Some o →
  is_open o = false ∨ pair o ≠ bar_pair (bar ev) →
  store (_on_bar_event liquidity_strategy_factory on_bar take_liquidity
           calculate_fees get_balance_updates ev ex).2 !! r = Some o.
Proof.
  intros Hr Hor.
  destruct (on_bar_event_orders ev ex) as (loc & ex0 & Ho & _ & -> & _).
  rewrite <- Ho in Hr.
  apply (get_open_orders_untouched _orders with_orders (matching_body ev loc)
           (λ o, negb (bool_decide (pair o = bar_pair (bar ev)))) (λ _ _, eq_refl)
           (matching_body_local ev loc) (matching_body_skip ev loc) ex0 r o Hr).
  destruct Hor as [Hc|Hp]; [by left|right]. by rewrite bool_decide_eq_false_2.
Qed.

(** X11: a bar reaches only the open orders of its own pair.  Whether
    [_on_bar_event] returns or raises, it adds no order to the index and
    removes none, every order keeps its id and its pair and no closed order
    is reopened, and an order that is closed or of another pair is left
    exactly as it is. *)
Theorem bar_reaches_only_open_orders_of_its_pair ev ex :
  let ex' := (_on_bar_event liquidity_strategy_factory on_bar take_liquidity
                calculate_fees get_balance_updates ev ex).2 in
  (∀ r, match store ex !! r with
        | Some o => ∃ o', store ex' !! r = Some o' ∧ id o' = id o ∧ pair o' = pair o
                          ∧ (is_open o = false → is_open o' = false)
        | None => store ex' !! r = None
        end)
  ∧ (∀ r o, store ex !! r = Some o →
            is_open o = false ∨ pair o ≠ bar_pair (bar ev) →
            store ex' !! r = Some o).
Proof.
  intros ex'. split; [|intros r o; apply on_bar_event_untouched].
  destruct (on_bar_event_orders ev ex) as (loc & ex0 & Ho & _ & Heq & _).
  assert (Hst : store ex' = store (OrderIndex.get_open_orders _orders with_orders
                                     (matching_body ev loc) ex0).2)
    by (subst ex'; by rewrite Heq).
  rewrite Hst. rewrite <- Ho.
  apply (get_open_orders_grows _orders with_orders (matching_body ev loc)
           (λ _ _, eq_refl)
           (λ r s, matching_body_ages take_liquidity calculate_fees
                     get_balance_updates ev loc r s)).
Qed.

(** X12: a bar of a pair that has no open order is matched against
    nothing: [_on_bar_event] returns, and it leaves every order and the
    whole ledger, balances and holds, as they are. *)
Theorem bar_without_open_orders ev ex :
  (∀ r o, store ex !! r = Some o → is_open o = true → pair o ≠ bar_pair (bar ev)) →
  ∃ ex',
    _on_bar_event liquidity_strategy_factory on_bar take_liquidity calculate_fees
      get_balance_updates ev ex = (Ok tt, ex')
    ∧ store ex' = store ex
    ∧ _balances ex' = _balances ex
    ∧ _last_bars ex' !! bar_pair (bar ev) = Some (bar ev).
Proof.
  intros Hnone.
  destruct (on_bar_event_orders ev ex) as (loc & ex0 & Ho & Hb & Hst & Hbal & Hraise).
  destruct (get_open_orders_skips_all _orders with_orders (matching_body ev loc)
              (λ o, negb (bool_decide (pair o = bar_pair (bar ev)))) (λ _ _, eq_refl)
              (matching_body_skip ev loc) ex0 (λ _ _ _, eq_refl))
    as (ys & idx' & Hrun & Hidx).
  { intros r o Hr Hop. rewrite Ho in Hr. rewrite bool_decide_eq_false_2; [done|].
    by eapply Hnone. }
  rewrite Hrun in Hst, Hbal, Hraise. cbn [fst snd] in Hst, Hbal, Hraise.
  pose proof (perform_surroundings liquidity_strategy_factory on_bar take_liquidity
                calculate_fees get_balance_updates (λ _ _, None) (λ _, EmptyString)
                (BarEventArrives ev) ex) as (_ & _ & _ & _ & Hlast & _).
  cbn [perform] in Hlast.
  destruct (_on_bar_event _ _ _ _ _ ev ex) as [[[]|e] ex'] eqn:Hev; cbn [fst snd] in *.
  - exists ex'. split; [done|]. split.
    { rewrite Hst. cbn [_orders with_orders]. by rewrite Hidx, Ho. }
    split; [rewrite Hbal; exact Hb|]. rewrite Hlast. apply lookup_insert_eq.
  - discriminate (proj1 (Hraise e) eq_refl).
Qed.
End BarReach.

(** ** Closed orders are final *)

Section Final.
Context {L : Type}.
Variable liquidity_strategy_factory : unit → L.
Variable on_bar : L → Bar → L.
Variable take_liquidity : L → Decimal → L.
Variable calculate_fees : Order → gmap string Decimal → gmap string Decimal.
Variable get_balance_updates : Order → Bar → L → gmap string Decimal.
Variable validate : ExchangeOrder → PairInfo → option string.
Variable uuid4_hex : nat → string.
Implicit Types (ex : Exchange (L := L)).

Local Abbreviation store ex := (OrderIndex._orders (_orders ex)).

Lemma create_order_untouched order_request ex r o :
  store ex !! r = Some o →
  store (create_order calculate_fees validate uuid4_hex order_request ex).2 !! r = Some o.
Proof.
  intros Hr. unfold create_order, bind at 1, gets at 1.
  destruct (validate _ _); [done|].
  unfold bind at 1. unfold ret at 1. unfold bind at 1.
  destruct (estimate_required_balances_run calculate_fees ex order_request)
    as (required' & cs & -> & _).
  unfold bind at 1. unfold _check_available_balance, bind at 1, gets at 1.
  pose proof (check_items_state (_balances (with_calls (calls ex ++ cs) ex))
                (map_to_list required') (with_calls (calls ex ++ cs) ex)) as Hstate.
  destruct (check_items _ _ _) as [[[]|e] ex2]; cbn [snd] in Hstate; subst ex2; [|done].
  cbv [bind gets modify zoom OrderIndex.add_order assert ret raise call].
  cbn [_orders with_uuid_calls with_calls].
  destruct (bool_decide _) eqn:Hfresh; [|done].
  apply bool_decide_eq_true in Hfresh.
  assert (Hne : uuid4_hex (uuid_calls ex) ≠ r).
  { intros <-. cbn in Hr, Hfresh. congruence. }
  destruct (AccountBalances.order_accepted _ _ _); cbn;
    (rewrite lookup_insert_ne by exact Hne); exact Hr.
Qed.

Lemma cancel_order_untouched order_id ex r o :
  store ex !! r = Some o → is_open o = false →
  store (cancel_order order_id ex).2 !! r = Some o.
Proof.
  intros Hr Hc. unfold cancel_order. cbv [bind gets raise OrderIndex.get_order].
  destruct (store ex !! order_id) as [order|] eqn:Ho; [|done].
  destruct (is_open order) eqn:Hopen; cbn [negb]; [|done].
  cbv [mutate deref modify call ret bind gets]. cbn [_orders with_orders].
  assert (Hne : order_id ≠ r) by (intros ->; congruence).
  cbn [OrderIndex._orders OrderIndex.set_orders].
  rewrite lookup_alter_eq, Ho. cbn. by rewrite lookup_alter_ne.
Qed.

(** X13: a closed order is final.  Once an order is completed or canceled,
    nothing that the strategy or the dispatcher does changes it: not its
    state, not its filled amount, not its fees, and no later order takes
    its id. *)
Theorem closed_orders_are_final ops : ∀ ex r o,
  store ex !! r = Some o → is_open o = false →
  store (session liquidity_strategy_factory on_bar take_liquidity calculate_fees
           get_balance_updates validate uuid4_hex ops ex) !! r = Some o.
Proof.
  induction ops as [|op ops IH]; intros ex r o Hr Hc; [done|].
  change (session liquidity_strategy_factory on_bar take_liquidity calculate_fees
            get_balance_updates validate uuid4_hex (op :: ops) ex)
    with (session liquidity_strategy_factory on_bar take_liquidity calculate_fees
            get_balance_updates validate uuid4_hex ops
            (perform liquidity_strategy_factory on_bar take_liquidity calculate_fees
               get_balance_updates validate uuid4_hex op ex)).
  apply IH; [|done]. destruct op; cbn [perform].
  - by apply create_order_untouched.
  - by apply cancel_order_untouched.
  - apply on_bar_event_untouched; [exact Hr|left; exact Hc].
  - unfold subscribe_to_bar_events. destruct (_bar_event_source ex !! _); exact Hr.
  - exact Hr.
Qed.
End Final.

Lemma bar_without_open_orders_witness :
  let ev := mkBarEvent (mkBar (mkPair "ETH" "USDT") (dec_of_Z 10) (dec_of_Z 12) (dec_of_Z 9)
                          (dec_of_Z 11) (dec_of_Z 500)) in
  let ex := SampleSession.exchange in
  (∀ r o, OrderIndex._orders (_orders ex) !! r = Some o → is_open o = true →
          pair o ≠ bar_pair (bar ev))
  ∧ is_Some (OrderIndex._orders (_orders ex) !! "a91e")
  ∧ ∃ ex',
      Sample.on_bar_event ev ex = (Ok tt, ex')
      ∧ OrderIndex._orders (_orders ex') = OrderIndex._orders (_orders ex)
      ∧ _balances ex' = _balances ex
      ∧ _last_bars ex' !! bar_pair (bar ev) = Some (bar ev).
Proof.
  intros ev ex.
  assert (Hnone : ∀ r o, OrderIndex._orders (_orders ex) !! r = Some o → is_open o = true →
                         pair o ≠ bar_pair (bar ev)).
  { refine (bool_decide_unpack
              (map_Forall (λ (_ : string) o, is_open o = true → pair o ≠ bar_pair (bar ev))
                 (OrderIndex._orders (_orders ex))) _).
    vm_compute. exact I. }
  split; [exact Hnone|]. split; [vm_compute; eexists; reflexivity|].
  exact (bar_without_open_orders Sample.factory Sample.on_bar Sample.take_liquidity
           Sample.no_fee Sample.get_balance_updates ev ex Hnone).
Defined.

Lemma closed_orders_are_final_witness :
  let ex := SampleSession.exchange in
  let o := cancel (request_create_order (Sample.limit_buy 1 50) "5f0c") in
  let ops := [ CancelOrder "5f0c"; CreateOrder (Sample.limit_buy 1 50);
               BarEventArrives (mkBarEvent Sample.bar3); CancelOrder "a91e" ] in
  OrderIndex._orders (_orders ex) !! "5f0c" = Some o
  ∧ is_open o = false
  ∧ OrderIndex._orders (_orders (SampleSession.run ops ex)) !! "5f0c" = Some o.
Proof.
  intros ex o ops.
  assert (Hr : OrderIndex._orders (_orders ex) !! "5f0c" = Some o)
    by (vm_compute; reflexivity).
  assert (Hc : is_open o = false) by (vm_compute; reflexivity).
  split; [exact Hr|]. split; [exact Hc|].
  exact (closed_orders_are_final Sample.factory Sample.on_bar Sample.take_liquidity
           Sample.no_fee Sample.get_balance_updates Sample.validate Sample.uuid4_hex
           ops ex "5f0c" o Hr Hc).
Defined.

(** ** The sanity checks of the matching *)

Lemma assert_has_value_fails {S} (balance_updates : gmap string Decimal) symbol sign (s : S) :
  has_value balance_updates symbol sign = false →
  ∃ msg, assert_has_value balance_updates symbol sign s = (Raise (AssertionError msg), s).
Proof.
  unfold has_value, assert_has_value.
  destruct (balance_updates !! symbol) as [v|]; [|by eexists].
  unfold bind, assert. destruct (negb (dec_eqb v dec_zero)); cbn; [|by eexists].
  intros ->. by eexists.
Qed.

Section Sanity.
Context {L : Type}.
Variable take_liquidity : L → Decimal → L.
Variable calculate_fees : Order → gmap string Decimal → gmap string Decimal.
Variable get_balance_updates : Order → Bar → L → gmap string Decimal.
Implicit Types (ex : Exchange (L := L)) (o : Order) (r : string).

Local Abbreviation store ex := (OrderIndex._orders (_orders ex)).

(** X14: the two ways in which [_process_order] stops before any rounding.
    When the order gets no balance updates on the bar, the not-filled path
    is taken at once: no fee is computed and no liquidity is taken.  When it
    gets balance updates in which the base amount is missing, zero or not of
    the sign of the operation, or the quote amount is missing, zero or not
    of the opposite sign, an assertion fails and the exchange is left
    exactly as it was. *)
Theorem process_order_sanity ex r ev loc o (l : L) :
  store ex !! r = Some o → heap ex !! loc = Some l →
  let balance_updates := get_balance_updates o (bar ev) l in
  let base_sign := get_base_sign_for_operation (operation o) in
  (balance_updates = ∅ →
     _process_order take_liquidity calculate_fees get_balance_updates r ev loc ex
     = (Ok tt, after_not_filled ex r o))
  ∧ (balance_updates ≠ ∅ →
     has_value balance_updates (base_symbol (pair o)) base_sign = false
     ∨ has_value balance_updates (quote_symbol (pair o)) (dec_neg base_sign) = false →
     ∃ msg,
       _process_order take_liquidity calculate_fees get_balance_updates r ev loc ex
       = (Raise (AssertionError msg), ex)).
Proof.
  intros Ho Hl balance_updates base_sign.
  unfold _process_order.
  rewrite (bind_ok _ _ _ _ _ (deref_ok ex r o Ho)).
  rewrite (bind_ok _ _ _ _ _ (strategy_at_ok ex loc l Hl)).
  fold balance_updates. cbv zeta. fold base_sign. split.
  - intros Hempty. rewrite bool_decide_eq_true_2 by done. by apply order_not_filled_run.
  - intros Hne Hbad. rewrite bool_decide_eq_false_2 by done.
    destruct (has_value balance_updates (base_symbol (pair o)) base_sign) eqn:Hb.
    + destruct Hbad as [?|Hq]; [done|].
      rewrite (bind_ok _ _ _ _ _ (assert_has_value_ok _ _ _ ex Hb)).
      destruct (assert_has_value_fails _ _ _ ex Hq) as [msg Hmsg].
      exists msg. unfold bind. by rewrite Hmsg.
    + destruct (assert_has_value_fails _ _ _ ex Hb) as [msg Hmsg].
      exists msg. unfold bind. by rewrite Hmsg.
Qed.
End Sanity.

Lemma process_order_sanity_witness :
  let ex := SampleSession.exchange in
  let o := request_create_order (Sample.limit_buy 2 60) "a91e" in
  let l := default (Sample.factory tt) (heap ex !! 0%nat) in
  OrderIndex._orders (_orders ex) !! "a91e" = Some o
  ∧ heap ex !! 0%nat = Some l
  ∧ Sample.get_balance_updates o Sample.bar2 l = ∅
  ∧ _process_order Sample.take_liquidity Sample.no_fee Sample.get_balance_updates
      "a91e" (mkBarEvent Sample.bar2) 0%nat ex
    = (Ok tt, after_not_filled ex "a91e" o).
Proof.
  intros ex o l.
  assert (Ho : OrderIndex._orders (_orders ex) !! "a91e" = Some o)
    by (vm_compute; reflexivity).
  assert (Hl : heap ex !! 0%nat = Some l) by (vm_compute; reflexivity).
  assert (He : Sample.get_balance_updates o Sample.bar2 l = ∅)
    by (vm_compute; reflexivity).
  split; [exact Ho|]. split; [exact Hl|]. split; [exact He|].
  destruct (process_order_sanity Sample.take_liquidity Sample.no_fee
              Sample.get_balance_updates ex "a91e" (mkBarEvent Sample.bar2) 0%nat o l Ho Hl)
    as [Hempty _].
  exact (Hempty He).
Defined.

(** ** The balances that the exchange reports *)

Section Balances.
Context {L : Type}.
Variable get_symbols : AccountBalances.t → list string.
Implicit Types (ex : Exchange (L := L)).

(** X15: [get_balances] reports exactly the symbols of the ledger of which
    something is available or on hold, and for each of them what
    [get_balance] reports: the available balance, and as total the
    available balance plus the holds of all orders. *)
Theorem get_balances_spec ex symbol :
  get_balances get_symbols ex !! symbol
  = if bool_decide (symbol ∈ get_symbols (_balances ex))
       && (dec_truthy (AccountBalances.get_available_balance (_balances ex) symbol)
           || dec_truthy (AccountBalances.get_balance_on_hold (_balances ex) symbol))
    then Some (get_balance ex symbol)
    else None.
Proof.
  unfold get_balances, get_balance.
  set (step := λ (ret : gmap string Balance) s, _).
  assert (Hgen : ∀ symbols (acc : gmap string Balance),
            foldl step acc symbols !! symbol
            = if bool_decide (symbol ∈ symbols)
                 && (dec_truthy (AccountBalances.get_available_balance (_balances ex) symbol)
                     || dec_truthy (AccountBalances.get_balance_on_hold (_balances ex) symbol))
              then Some (mkBalance
                           (AccountBalances.get_available_balance (_balances ex) symbol)
                           (dec_add
                              (AccountBalances.get_available_balance (_balances ex) symbol)
                              (AccountBalances.get_balance_on_hold (_balances ex) symbol)))
              else acc !! symbol).
  { induction symbols as [|s symbols IH]; intros acc; [done|].
    cbn [foldl]. rewrite IH. subst step. cbv beta.
    destruct (decide (s = symbol)) as [->|Hne].
    - rewrite (bool_decide_eq_true_2 (symbol ∈ symbol :: symbols)) by (by left).
      cbn [andb]. destruct (dec_truthy _ || dec_truthy _) eqn:Ht.
      + rewrite lookup_insert_eq. by destruct (bool_decide _).
      + by rewrite andb_false_r.
    - assert (Hin : bool_decide (symbol ∈ s :: symbols) = bool_decide (symbol ∈ symbols)).
      { apply bool_decide_ext. rewrite elem_of_cons.
        split; [intros [Heq|Hin]; [by destruct Hne|exact Hin]|by right]. }
      rewrite Hin. destruct (bool_decide (symbol ∈ symbols) && _); [done|].
      destruct (dec_truthy _ || dec_truthy _); [by rewrite lookup_insert_ne|done]. }
  rewrite Hgen. by destruct (_ && _).
Qed.
End Balances.

(** ** The four kinds of orders *)

Section Wrappers.
Context {L : Type}.
Variable calculate_fees : Order → gmap string Decimal → gmap string Decimal.
Variable validate : ExchangeOrder → PairInfo → option string.
Variable uuid4_hex : nat → string.
Implicit Types (ex : Exchange (L := L)).

Local Abbreviation store ex := (OrderIndex._orders (_orders ex)).

Lemma create_order_stored ex operation p amount kind :
  stored_as ex operation p amount kind
    (create_order calculate_fees validate uuid4_hex (mkRequest operation p amount kind) ex).
Proof.
  destruct (create_order_cases calculate_fees validate uuid4_hex ex
              (mkRequest operation p amount kind)) as (required & _ & Hcases).
  unfold stored_as.
  destruct (create_order _ _ _ _ ex) as [[order_id|e] ex']; [|done].
  destruct Hcases as (-> & _ & Hfresh & Hst & Hl & _).
  split; [done|]. split; [by rewrite Hst, lookup_insert_eq|].
  rewrite Hl. apply elem_of_app. right. by left.
Qed.

(** X16: each of the four convenience methods, when it returns, has stored
    under the returned id, which was not in use, an open and unfilled order
    of the kind of the method with the operation, the pair, the amount and
    the prices it was given, and has put it in the list of open orders. *)
Theorem create_order_wrappers ex operation p amount stop_price limit_price :
  stored_as ex operation p amount Market
    (create_market_order calculate_fees validate uuid4_hex operation p amount ex)
  ∧ stored_as ex operation p amount (Limit limit_price)
      (create_limit_order calculate_fees validate uuid4_hex operation p amount limit_price ex)
  ∧ stored_as ex operation p amount (Stop stop_price)
      (create_stop_order calculate_fees validate uuid4_hex operation p amount stop_price ex)
  ∧ stored_as ex operation p amount (StopLimit stop_price limit_price)
      (create_stop_limit_order calculate_fees validate uuid4_hex operation p amount
         stop_price limit_price ex).
Proof. repeat split; apply create_order_stored. Qed.
End Wrappers.

(** ** The matching of a bar, order by order *)

Lemma omap_ext_in {A B} (f g : A → option B) (l : list A) :
  (∀ x, x ∈ l → f x = g x) → omap f l = omap g l.
Proof.
  induction l as [|x l IH]; intros Hext; [done|]. cbn.
  rewrite (Hext x) by (by left). rewrite IH; [done|].
  intros y Hy. apply Hext. by right.
Qed.

Section MatchingLog.
Context {L : Type}.
Variable liquidity_strategy_factory : unit → L.
Variable on_bar : L → Bar → L.
Variable take_liquidity : L → Decimal → L.
Variable calculate_fees : Order → gmap string Decimal → gmap string Decimal.
Variable get_balance_updates : Order → Bar → L → gmap string Decimal.
Implicit Types (ex : Exchange (L := L)) (o : Order) (r : string).

Local Abbreviation store ex := (OrderIndex._orders (_orders ex)).
Local Abbreviation matching_body ev loc :=
  (λ r, let* o := deref r in
        if bool_decide (pair o = bar_pair (bar ev))
        then _process_order take_liquidity calculate_fees get_balance_updates r ev loc
        else ret tt).

Lemma after_not_filled_logs ex r o :
  store ex !! r = Some o →
  ∃ cs, calls (after_not_filled ex r o) = calls ex ++ cs
        ∧ omap matched_order cs = [id o].
Proof.
  intros Ho. destruct (after_not_filled_fields ex r o Ho) as (_ & _ & Hcalls & _).
  eexists. split; [exact Hcalls|]. by destruct (is_open (not_filled o)).
Qed.

(** A call of [_process_order] that returns has matched its order once:
    by a fill or by the not-filled path. *)
Lemma process_order_logs ex r ev loc o ex' :
  store ex !! r = Some o →
  _process_order take_liquidity calculate_fees get_balance_updates r ev loc ex = (Ok tt, ex') →
  ∃ cs, calls ex' = calls ex ++ cs ∧ omap matched_order cs = [id o].
Proof.
  intros Ho Hrun.
  destruct (heap ex !! loc) as [l|] eqn:Hl.
  2:{ unfold _process_order in Hrun.
      rewrite (bind_ok _ _ _ _ _ (deref_ok ex r o Ho)) in Hrun.
      assert (Hs : strategy_at (L := L) loc ex = (Raise (KeyError "liquidity strategy"), ex))
        by (unfold strategy_at, bind, gets; by rewrite Hl).
      unfold bind at 1 in Hrun. rewrite Hs in Hrun. discriminate Hrun. }
  set (balance_updates := get_balance_updates o (bar ev) l).
  set (base_sign := get_base_sign_for_operation (operation o)).
  destruct (decide (balance_updates = ∅)) as [Hempty|Hne].
  { unfold _process_order in Hrun.
    rewrite (bind_ok _ _ _ _ _ (deref_ok ex r o Ho)) in Hrun.
    rewrite (bind_ok _ _ _ _ _ (strategy_at_ok ex loc l Hl)) in Hrun.
    fold balance_updates in Hrun. cbv zeta in Hrun.
    rewrite bool_decide_eq_true_2 in Hrun by done.
    rewrite (order_not_filled_run ex r o Ho) in Hrun. injection Hrun as <-.
    by apply after_not_filled_logs. }
  destruct (has_value balance_updates (base_symbol (pair o)) base_sign) eqn:Hb.
  2:{ unfold _process_order in Hrun.
      rewrite (bind_ok _ _ _ _ _ (deref_ok ex r o Ho)) in Hrun.
      rewrite (bind_ok _ _ _ _ _ (strategy_at_ok ex loc l Hl)) in Hrun.
      fold balance_updates in Hrun. cbv zeta in Hrun. fold base_sign in Hrun.
      rewrite bool_decide_eq_false_2 in Hrun by done.
      destruct (assert_has_value_fails _ _ _ ex Hb) as [msg Hmsg].
      unfold bind at 1 in Hrun. rewrite Hmsg in Hrun. discriminate Hrun. }
  destruct (has_value balance_updates (quote_symbol (pair o)) (dec_neg base_sign)) eqn:Hq.
  2:{ unfold _process_order in Hrun.
      rewrite (bind_ok _ _ _ _ _ (deref_ok ex r o Ho)) in Hrun.
      rewrite (bind_ok _ _ _ _ _ (strategy_at_ok ex loc l Hl)) in Hrun.
      fold balance_updates in Hrun. cbv zeta in Hrun. fold base_sign in Hrun.
      rewrite bool_decide_eq_false_2 in Hrun by done.
      rewrite (bind_ok _ _ _ _ _ (assert_has_value_ok _ _ _ ex Hb)) in Hrun.
      destruct (assert_has_value_fails _ _ _ ex Hq) as [msg Hmsg].
      unfold bind at 1 in Hrun. rewrite Hmsg in Hrun. discriminate Hrun. }
  rewrite (process_order_rounded take_liquidity calculate_fees get_balance_updates
             ex r ev loc o l Ho Hl Hb Hq) in Hrun.
  cbv zeta in Hrun. fold balance_updates in Hrun.
  set (updates := _round_balance_updates ex (pair o) balance_updates) in Hrun.
  destruct (bool_decide (updates !! base_symbol (pair o) = None)
            || bool_decide (updates !! quote_symbol (pair o) = None)).
  { rewrite (order_not_filled_run ex r o Ho) in Hrun. injection Hrun as <-.
    by apply after_not_filled_logs. }
  destruct (balances_short _ _ _); cbn [negb] in Hrun.
  - set (logged := with_calls (calls ex ++ [CalculateFees o updates]) ex) in Hrun.
    rewrite (order_not_filled_run logged r o Ho) in Hrun. injection Hrun as <-.
    destruct (after_not_filled_logs logged r o Ho) as (cs & Hcs & Hm).
    exists (CalculateFees o updates :: cs). split; [|done].
    rewrite Hcs. cbn. by rewrite <- app_assoc.
  - destruct (updates !! base_symbol (bar_pair (bar ev))) as [base_amount|];
      [|discriminate Hrun].
    injection Hrun as <-. eexists. split; [reflexivity|]. reflexivity.
Qed.

Lemma matching_body_logs ev loc ex r o ex' :
  store ex !! r = Some o →
  matching_body ev loc r ex = (Ok tt, ex') →
  ∃ cs, calls ex' = calls ex ++ cs
        ∧ omap matched_order cs
          = if bool_decide (pair o = bar_pair (bar ev)) then [id o] else [].
Proof.
  intros Ho Hrun. cbv beta in Hrun.
  rewrite (bind_ok _ _ _ _ _ (deref_ok ex r o Ho)) in Hrun.
  destruct (bool_decide (pair o = bar_pair (bar ev))).
  - by eapply process_order_logs.
  - injection Hrun as <-. exists []. by rewrite app_nil_r.
Qed.

Lemma matching_due_local p ex ex1 (refs : list string) :
  (∀ r', r' ∈ refs → store ex1 !! r' = store ex !! r') →
  omap (matching_due p ex1) refs = omap (matching_due p ex) refs.
Proof.
  intros H. apply omap_ext_in. intros r' Hr'. unfold matching_due. by rewrite H.
Qed.

(** An iteration of the matching that returns has matched the orders of
    the list that were open and of the pair of the bar, each once, in the
    order of the list. *)
Lemma iterate_logs ev loc refs : ∀ new ex new' ys ex',
  NoDup refs →
  OrderIndex.iterate _orders (matching_body ev loc) refs new ex = (Ok (new', ys), ex') →
  ∃ cs, calls ex' = calls ex ++ cs
        ∧ omap matched_order cs = omap (matching_due (bar_pair (bar ev)) ex) refs.
Proof.
  set (body := matching_body ev loc).
  induction refs as [|r refs IH]; intros new ex new' ys ex' Hnd Hrun.
  - cbn in Hrun. injection Hrun as _ _ <-. exists []. by rewrite app_nil_r.
  - apply NoDup_cons in Hnd as [Hr Hnd].
    cbn [OrderIndex.iterate] in Hrun. unfold bind at 1, gets at 1 in Hrun.
    cbn [omap list_omap]. unfold matching_due at 1.
    destruct (store ex !! r) as [order|] eqn:Ho;
      [destruct (is_open order) eqn:Hopen|]; cbn [andb];
      [|by eapply IH..].
    unfold bind at 1 in Hrun.
    destruct (body r ex) as [[[]|e] ex1] eqn:Hbody; [|discriminate Hrun].
    destruct (matching_body_logs ev loc ex r order ex1 Ho Hbody) as (cs1 & Hcs1 & Hm1).
    assert (Hloc : ∀ r', r' ∈ refs → store ex1 !! r' = store ex !! r').
    { intros r' Hr'.
      destruct (matching_body_index_frame take_liquidity calculate_fees
                  get_balance_updates ev loc r ex) as (_ & _ & Hl).
      assert (Hl' : ∀ r', r' ≠ r → store (body r ex).2 !! r' = store ex !! r')
        by exact Hl.
      rewrite Hbody in Hl'. apply Hl'. intros ->. done. }
    unfold bind at 1, gets at 1 in Hrun. unfold bind in Hrun.
    match type of Hrun with
    | context [OrderIndex.iterate _orders body refs ?n ex1] =>
        destruct (OrderIndex.iterate _orders body refs n ex1)
          as [[[new'' ys']|e] ex2] eqn:Hrest
    end; [|discriminate Hrun].
    injection Hrun as _ _ <-.
    destruct (IH _ _ _ _ _ Hnd Hrest) as (cs2 & Hcs2 & Hm2).
    exists (cs1 ++ cs2). split; [by rewrite Hcs2, Hcs1, app_assoc|].
    rewrite omap_app, Hm1, Hm2, (matching_due_local _ ex ex1 refs Hloc).
    by destruct (bool_decide _).
Qed.

Lemma get_open_orders_logs ev loc ex ys ex' :
  NoDup (OrderIndex._open_orders (_orders ex)) →
  OrderIndex.get_open_orders _orders with_orders (matching_body ev loc) ex = (Ok ys, ex') →
  ∃ cs, calls ex' = calls ex ++ cs
        ∧ omap matched_order cs
          = omap (matching_due (bar_pair (bar ev)) ex) (OrderIndex._open_orders (_orders ex)).
Proof.
  intros Hnd Hrun. unfold OrderIndex.get_open_orders in Hrun.
  unfold bind at 1, modify at 1 in Hrun. unfold bind at 1, gets at 1 in Hrun.
  cbn [_orders with_orders OrderIndex.tick OrderIndex._open_orders] in Hrun.
  set (ex0 := with_orders (OrderIndex.tick (_orders ex)) ex) in Hrun.
  unfold bind at 1 in Hrun.
  match type of Hrun with
  | context [OrderIndex.iterate _orders ?b ?refs ?n ex0] =>
      destruct (OrderIndex.iterate _orders b refs n ex0) as [[[new' ys']|e] ex1] eqn:Hit
  end; [|discriminate Hrun].
  destruct (iterate_logs ev loc _ _ _ _ _ _ Hnd Hit) as (cs & Hcs & Hm).
  exists cs. split; [|exact Hm].
  destruct new' as [l|]; unfold bind, modify, ret in Hrun; injection Hrun as _ <-; exact Hcs.
Qed.

(** The calls that come before the loop match no order. *)
Lemma process_orders_logs ev ex ex' :
  NoDup (OrderIndex._open_orders (_orders ex)) →
  _process_orders liquidity_strategy_factory on_bar take_liquidity calculate_fees
    get_balance_updates ev ex = (Ok tt, ex') →
  ∃ cs, calls ex' = calls ex ++ cs
        ∧ omap matched_order cs
          = omap (matching_due (bar_pair (bar ev)) ex) (OrderIndex._open_orders (_orders ex)).
Proof.
  intros Hnd Hrun. unfold _process_orders in Hrun. cbv zeta in Hrun.
  unfold bind at 1, gets at 1 in Hrun.
  assert (Hgen : ∀ loc ex0 pre,
            _orders ex0 = _orders ex → calls ex0 = calls ex ++ pre →
            omap matched_order pre = [] →
            (OrderIndex.get_open_orders _orders with_orders (matching_body ev loc);;
             ret tt) ex0 = (Ok tt, ex') →
            ∃ cs, calls ex' = calls ex ++ cs
                  ∧ omap matched_order cs
                    = omap (matching_due (bar_pair (bar ev)) ex)
                        (OrderIndex._open_orders (_orders ex))).
  { intros loc ex0 pre Ho Hpre Hm Hloop. unfold bind at 1 in Hloop.
    destruct (OrderIndex.get_open_orders _orders with_orders (matching_body ev loc) ex0)
      as [[ys|e] ex1] eqn:Hgo; [|discriminate Hloop].
    injection Hloop as <-.
    destruct (get_open_orders_logs ev loc ex0 ys ex1) as (cs & Hcs & Hmc);
      [by rewrite Ho|exact Hgo|].
    exists (pre ++ cs). split; [by rewrite Hcs, Hpre, app_assoc|].
    rewrite omap_app, Hm, Hmc. cbn. unfold matching_due. by rewrite Ho. }
  destruct (_liquidity_strategies ex !! bar_pair (bar ev)) as [loc|].
  - eapply (Hgen loc _ [OnBar loc (bar ev)]); [| |reflexivity|exact Hrun];
      reflexivity.
  - eapply (Hgen (length (heap ex)) _
              [FactoryCall (length (heap ex)); OnBar (length (heap ex)) (bar ev)]);
      [| |reflexivity|exact Hrun]; [reflexivity|].
    cbn. by rewrite <- app_assoc.
Qed.

(** C5: on a bar event the cache of last bars is updated first, then the
    matching loop runs, and only then is the event pushed to the event
    source of the pair, if there is one.  While the matching runs the cache
    already holds the bar and nothing is forwarded.  When the matching
    returns, it has matched every order of the index that was open and of
    the pair of the bar, each once and in the order of insertion, by a fill
    or by the not-filled path, and no other order; the push comes after all
    these calls, and what subscribers find when the event reaches them are
    the balances and the orders as the matching left them.  When the
    matching fails nothing is forwarded. *)
Theorem on_bar_event_order ex ev :
  NoDup (OrderIndex._open_orders (_orders ex)) →
  let p := bar_pair (bar ev) in
  let cached := with_last_bars (<[p := bar ev]> (_last_bars ex)) ex in
  let matching :=
    _process_orders liquidity_strategy_factory on_bar take_liquidity calculate_fees
      get_balance_updates ev cached in
  let matched := matching.2 in
  _last_bars cached !! p = Some (bar ev)
  ∧ _balances cached = _balances ex ∧ _orders cached = _orders ex
  ∧ _last_bars matched !! p = Some (bar ev)
  ∧ _bar_event_source matched = _bar_event_source ex
  ∧ (∃ cs, calls matched = calls ex ++ cs ∧ Forall (λ c, is_push c = false) cs)
  ∧ match matching.1 with
    | Ok _ =>
        (∃ cs, calls matched = calls ex ++ cs
               ∧ omap matched_order cs
                 = omap (matching_due p ex) (OrderIndex._open_orders (_orders ex)))
        ∧ ∃ ex',
          _on_bar_event liquidity_strategy_factory on_bar take_liquidity calculate_fees
            get_balance_updates ev ex = (Ok tt, ex')
          ∧ _balances ex' = _balances matched
          ∧ _orders ex' = _orders matched
          ∧ heap ex' = heap matched
          ∧ _last_bars ex' = _last_bars matched
          ∧ match _bar_event_source ex !! p with
            | Some queue =>
                _bar_event_source ex' = <[p := queue ++ [ev]]> (_bar_event_source ex)
                ∧ calls ex' = calls matched ++ [Push ev]
            | None =>
                _bar_event_source ex' = _bar_event_source ex
                ∧ calls ex' = calls matched
            end
    | Raise e =>
        _on_bar_event liquidity_strategy_factory on_bar take_liquidity calculate_fees
          get_balance_updates ev ex = (Raise e, matched)
    end.
Proof.
  intros Hnd p cached. cbv zeta.
  pose proof (frame_process_orders liquidity_strategy_factory on_bar take_liquidity
                calculate_fees get_balance_updates ev cached) as (Hsrc & Hbars & _ & Hcalls).
  pose proof (process_orders_logs ev cached) as Hlogs.
  rewrite on_bar_event_unfold. cbv zeta. fold p. fold cached.
  destruct (_process_orders _ _ _ _ _ ev cached) as [[[]|e] m]; cbn [fst snd] in *;
    cbv beta iota.
  - split; [apply lookup_insert_eq|]. split; [done|]. split; [done|].
    split; [rewrite Hbars; apply lookup_insert_eq|]. split; [done|]. split; [done|].
    split; [exact (Hlogs m Hnd eq_refl)|].
    change (_bar_event_source cached) with (_bar_event_source ex) in Hsrc.
    assert (Hq : _bar_event_source m !! p = _bar_event_source ex !! p) by (by rewrite Hsrc).
    destruct (_bar_event_source ex !! p) as [queue|].
    + eexists. split; [rewrite Hq; reflexivity|]. cbn. by rewrite Hsrc.
    + exists m. split; [by rewrite Hq|]. done.
  - split; [apply lookup_insert_eq|]. split; [done|]. split; [done|].
    split; [rewrite Hbars; apply lookup_insert_eq|]. done.
Qed.
End MatchingLog.

(** Before [bar2] the index holds the canceled "5f0c", the open limit order
    "a91e" and the open market order "c3d700": the bar matches "a91e", which
    is not filled, then "c3d700", which is filled, and then pushes the
    event. *)
Lemma on_bar_event_order_witness :
  let ex := SampleSession.before_bar2 in
  let ev := mkBarEvent Sample.bar2 in
  NoDup (OrderIndex._open_orders (_orders ex))
  ∧ omap (matching_due (bar_pair (bar ev)) ex) (OrderIndex._open_orders (_orders ex))
    = ["a91e"; "c3d700"]
  ∧ ∃ ex' cs,
      Sample.on_bar_event ev ex = (Ok tt, ex')
      ∧ calls ex' = calls ex ++ cs ++ [Push ev]
      ∧ omap matched_order cs = ["a91e"; "c3d700"].
Proof.
  intros ex ev.
  assert (Hnd : NoDup (OrderIndex._open_orders (_orders ex))).
  { refine (bool_decide_unpack (NoDup (OrderIndex._open_orders (_orders ex))) _).
    vm_compute. exact I. }
  assert (Hdue : omap (matching_due (bar_pair (bar ev)) ex)
                   (OrderIndex._open_orders (_orders ex)) = ["a91e"; "c3d700"])
    by (vm_compute; reflexivity).
  split; [exact Hnd|]. split; [exact Hdue|].
  pose proof (on_bar_event_order Sample.factory Sample.on_bar Sample.take_liquidity
                Sample.no_fee Sample.get_balance_updates ex ev Hnd) as H.
  cbv zeta in H. destruct H as (_ & _ & _ & _ & _ & _ & H).
  assert (Hok : (_process_orders Sample.factory Sample.on_bar Sample.take_liquidity
                   Sample.no_fee Sample.get_balance_updates ev
                   (with_last_bars (<[bar_pair (bar ev) := bar ev]> (_last_bars ex)) ex)).1
                = Ok tt) by (vm_compute; reflexivity).
  rewrite Hok in H. destruct H as ((cs & Hcs & Hm) & ex' & Hrun & _ & _ & _ & _ & Hpush).
  assert (Hsub : _bar_event_source ex !! bar_pair (bar ev) = Some [mkBarEvent Sample.bar1])
    by (vm_compute; reflexivity).
  rewrite Hsub in Hpush. destruct Hpush as [_ Hpush].
  exists ex', cs. split; [exact Hrun|]. split.
  - rewrite Hpush, Hcs. symmetry. apply app_assoc.
  - rewrite Hm. exact Hdue.
Defined.
